(** * EtherNet/IP driver (ether_ip.c, drvEtherIP.c): a shallow embedding

    The development follows the two C files function by function.

    - Integers are [Z]; every store into a [CN_USINT], [CN_UINT],
      [CN_UDINT] or [size_t] object reduces the value modulo the width of
      the object, and the reduction is written out where the C code performs
      it.  [size_t] is 32 bits wide, as on the vxWorks targets the driver is
      written for (the driver prints pointers through [unsigned int]).
    - A transfer buffer is a [list Z] of octets; a [CN_USINT *] into it is
      the [Z] offset of the octet it points at, and the null pointer of a
      function that may return 0 is [None].
    - A C string is the [list ascii] of its characters before the
      terminating NUL; a [const char *] that walks through a string is the
      suffix that is still ahead of it.
    - A [ParsedTag *] is the list of its nodes; the null pointer is [nil].
    - What the network, the allocator and other tasks decide (a reply, the
      result of [malloc], whether a semaphore can be taken before its
      timeout) is an explicit argument or field. *)

From Stdlib Require Import ZArith Lia Bool Ascii String List.
From stdpp Require Import base list list_numbers.
From Equations Require Import Equations.
Import ListNotations.

Local Open Scope Z_scope.

(* ================================================================= *)
(** ** Integer types *)

Definition CN_USINT_wrap (v : Z) : Z := v mod 2 ^ 8.
Definition CN_UINT_wrap (v : Z) : Z := v mod 2 ^ 16.
Definition CN_UDINT_wrap (v : Z) : Z := v mod 2 ^ 32.

Definition SIZE_T_BITS : Z := 32.
Definition size_t_wrap (v : Z) : Z := v mod 2 ^ SIZE_T_BITS.

(** [int old_size = *size]: conversion of a [size_t] to a 32-bit [int]. *)
Definition int_wrap (v : Z) : Z := (v + 2 ^ 31) mod 2 ^ 32 - 2 ^ 31.

(* ================================================================= *)
(** ** Buffers *)

(** [buffer[p] = v] for a [CN_USINT *buffer]. *)
Definition poke (m : list Z) (p : Z) (v : Z) : list Z :=
  <[Z.to_nat p := CN_USINT_wrap v]> m.

(** [buffer[p]] *)
Definition peek (m : list Z) (p : Z) : Z :=
  default 0 (m !! Z.to_nat p).

(** [memcpy (dst, src, n)] with [src] given by its [n] octets. *)
Fixpoint memcpy (m : list Z) (dst : Z) (src : list Z) : list Z :=
  match src with
  | [] => m
  | v :: src' => memcpy (poke m dst v) (dst + 1) src'
  end.

(** The octets [p .. p+n-1] of a buffer. *)
Definition region (m : list Z) (p n : Z) : list Z :=
  take (Z.to_nat n) (drop (Z.to_nat p) m).

(* ================================================================= *)
(** ** Pack and unpack in ControlNet (little endian) format *)

Definition pack_USINT (m : list Z) (buffer : Z) (val : Z) : list Z * Z :=
  (poke m buffer val, buffer + 1).

Definition pack_UINT (m : list Z) (buffer : Z) (val : Z) : list Z * Z :=
  let val := CN_UINT_wrap val in
  let m := poke m buffer (Z.land val 0x00FF) in
  let m := poke m (buffer + 1) (Z.shiftr (Z.land val 0xFF00) 8) in
  (m, buffer + 2).

Definition pack_UDINT (m : list Z) (buffer : Z) (val : Z) : list Z * Z :=
  let val := CN_UDINT_wrap val in
  let m := poke m buffer (Z.land val 0x000000FF) in
  let m := poke m (buffer + 1) (Z.shiftr (Z.land val 0x0000FF00) 8) in
  let m := poke m (buffer + 2) (Z.shiftr (Z.land val 0x00FF0000) 16) in
  let m := poke m (buffer + 3) (Z.shiftr (Z.land val 0xFF000000) 24) in
  (m, buffer + 4).

(** Returns the value stored into [*val] and the advanced pointer. *)
Definition unpack_UINT (m : list Z) (buffer : Z) : Z * Z :=
  (CN_UINT_wrap (Z.lor (peek m buffer) (Z.shiftl (peek m (buffer + 1)) 8)),
   buffer + 2).

(* ================================================================= *)
(** ** C strings *)

Definition char_code (c : ascii) : Z := Z.of_nat (nat_of_ascii c).

Definition strlen (s : list ascii) : Z := Z.of_nat (length s).

Definition char_in (c : ascii) (reject : list ascii) : bool :=
  existsb (Ascii.eqb c) reject.

(** [strcspn (s, reject)]: length of the initial part of [s] that holds no
    character of [reject]. *)
Fixpoint strcspn (s : list ascii) (reject : list ascii) : nat :=
  match s with
  | [] => 0%nat
  | c :: s' => if char_in c reject then 0%nat else S (strcspn s' reject)
  end.

(** [strchr (s, c)]: the string from the first [c] on, or null. *)
Fixpoint strchr (s : list ascii) (c : ascii) : option (list ascii) :=
  match s with
  | [] => None
  | d :: s' => if Ascii.eqb d c then Some s else strchr s' c
  end.

Definition isspace (c : ascii) : bool :=
  let n := char_code c in (n =? 32) || ((9 <=? n) && (n <=? 13)).

Definition digit_value (c : ascii) : option Z :=
  let n := char_code c in
  if (48 <=? n) && (n <=? 57) then Some (n - 48) else None.

Fixpoint skip_spaces (s : list ascii) : list ascii :=
  match s with
  | c :: s' => if isspace c then skip_spaces s' else s
  | [] => []
  end.

Fixpoint atol_digits (s : list ascii) (acc : Z) : Z :=
  match s with
  | c :: s' =>
      match digit_value c with
      | Some d => atol_digits s' (10 * acc + d)
      | None => acc
      end
  | [] => acc
  end.

(** A [long] has 32 bits, as [int] and [size_t] have. *)
Definition LONG_BITS : Z := 32.
Definition LONG_MAX : Z := 2 ^ (LONG_BITS - 1) - 1.
Definition LONG_MIN : Z := - 2 ^ (LONG_BITS - 1).

(** What [strtol] makes of a number: a value that a [long] cannot hold
    becomes [LONG_MAX] or [LONG_MIN]. *)
Definition strtol_range (v : Z) : Z := Z.max LONG_MIN (Z.min LONG_MAX v).

(** [atol]: blanks, an optional sign, then decimal digits up to the first
    character that is none; the result is a [long].  For a number that a
    [long] cannot hold the C language leaves the behaviour of [atol]
    open.  The C libraries have [atol (s)] as [strtol (s, 0, 10)], which
    delivers [LONG_MAX] or [LONG_MIN] then, and this is what is modelled;
    what is proved about the value of an index is stated for numbers
    within the range of [long]. *)
Definition atol (s : list ascii) : Z :=
  strtol_range
    match skip_spaces s with
    | "-"%char :: s' => - atol_digits s' 0
    | "+"%char :: s' => atol_digits s' 0
    | s' => atol_digits s' 0
    end.

(* ================================================================= *)
(** ** ParsedTag *)

(** Modelled from the spec: the declaration of [ParsedTag] is in
    ether_ip.h, which is not among the sources.  A node is a symbolic
    name or an array index; the index is an unsigned 32-bit number
    (0..2^32-1). *)
Inductive TagElement : Type :=
  | te_name (name : list ascii)
  | te_element (element : Z).

Definition ParsedTag : Type := list TagElement.

(** [append_tag]: walk to the end of the list and hook the node in. *)
Fixpoint append_tag (tl : ParsedTag) (node : TagElement) : ParsedTag :=
  match tl with
  | [] => [node]
  | n :: next => n :: append_tag next node
  end.

(** The body of [while (tag)] in [EIP_parse_tag].  [tag] is the string
    still ahead, [tl] the list built so far.  The result is [None] only
    when [fuel] iterations did not reach a [return]; [Some tl] is the
    returned pointer ([Some []] is the null pointer).  [calloc] and
    [EIP_strdup] are taken to succeed; when they do not the function
    returns 0 as on its other failure path. *)
Fixpoint EIP_parse_tag_loop (fuel : nat) (tag : list ascii) (tl : ParsedTag)
  : option ParsedTag :=
  match fuel with
  | O => None
  | S fuel' =>
      let len := strcspn tag ["."%char; "["%char] in
      if (len =? 0)%nat then Some tl            (* break; return tl *)
      else
        let tl := append_tag tl (te_name (take len tag)) in
        match drop len tag with
        | [] => Some tl                                  (* case '\0' *)
        | c :: after =>
            if Ascii.eqb c "."%char then
              EIP_parse_tag_loop fuel' after tl          (* tag += len+1 *)
            else if Ascii.eqb c "["%char then
              let tl := append_tag tl (te_element (CN_UDINT_wrap (atol after))) in
              match strchr after "]"%char with
              | Some (_ :: tag') => EIP_parse_tag_loop fuel' tag' tl  (* ++tag *)
              | _ => Some []                             (* return 0 *)
              end
            else EIP_parse_tag_loop fuel' tag tl         (* no case applies *)
        end
  end.

Definition EIP_parse_tag (tag : list ascii) : ParsedTag :=
  match EIP_parse_tag_loop (S (length tag)) tag [] with
  | Some tl => tl
  | None => []
  end.

(** Word-size of path for ControlLogix tag: the [while] loop, with the
    running [bytes]. *)
Fixpoint tag_path_bytes (tag : ParsedTag) (bytes : Z) : Z :=
  match tag with
  | [] => bytes
  | te_name name :: next =>
      let slen := strlen name in
      tag_path_bytes next (size_t_wrap (bytes + (2 + slen + slen mod 2)))
  | te_element element :: next =>
      if element <=? 0xFF then tag_path_bytes next (size_t_wrap (bytes + 2))
      else if element <=? 0xFFFF then tag_path_bytes next (size_t_wrap (bytes + 4))
      else tag_path_bytes next (size_t_wrap (bytes + 6))
  end.

Definition tag_path_size (tag : ParsedTag) : Z := tag_path_bytes tag 0 / 2.

(** build path for ControlLogix tag *)
Fixpoint make_tag_path (m : list Z) (path : Z) (tag : ParsedTag) : list Z * Z :=
  match tag with
  | [] => (m, path)
  | te_name name :: next =>
      let slen := strlen name in
      let m := poke m path 0x91 in
      let m := poke m (path + 1) slen in
      let m := memcpy m (path + 2) (map char_code name) in
      let m := if slen mod 2 =? 0 then m else poke m (path + (2 + slen)) 0 in
      make_tag_path m (path + (2 + slen + slen mod 2)) next
  | te_element element :: next =>
      if element <=? 0xFF then
        let m := poke m path 0x28 in
        let m := poke m (path + 1) element in
        make_tag_path m (path + 2) next
      else if element <=? 0xFFFF then
        let m := poke m path 0x29 in
        let m := poke m (path + 1) 0x00 in
        let m := poke m (path + 2) (Z.land element 0x00FF) in
        let m := poke m (path + 3) (Z.shiftr (Z.land element 0xFF00) 8) in
        make_tag_path m (path + 4) next
      else
        let m := poke m path 0x2A in
        let m := poke m (path + 1) 0x00 in
        let m := poke m (path + 2) (Z.land element 0x000000FF) in
        let m := poke m (path + 3) (Z.shiftr (Z.land element 0x0000FF00) 8) in
        let m := poke m (path + 4) (Z.shiftr (Z.land element 0x00FF0000) 16) in
        let m := poke m (path + 5) (Z.shiftr (Z.land element 0xFF000000) 24) in
        make_tag_path m (path + 6) next
  end.

(* ================================================================= *)
(** ** Message Router: path and PDU *)

(** Modelled from the spec: the service and class codes are enumerated
    in ether_ip.h, which is not among the sources. *)
Definition S_CIP_MultiRequest : Z := 0x0A.
Definition S_CIP_ReadData : Z := 0x4C.
Definition S_CIP_WriteData : Z := 0x4D.
Definition S_CM_Unconnected_Send : Z := 0x52.
Definition C_MessageRouter : Z := 0x02.
Definition C_ConnectionManager : Z := 0x06.

(** port path: currently supports only ports 0..14 *)
Definition port_path_size (port link : Z) : Z := 1.

Definition make_port_path (m : list Z) (path : Z) (port link : Z) : list Z :=
  let m := poke m path port in
  poke m (path + 1) link.

(** In words. *)
Definition CIA_path_size (cls instance attr : Z) : Z :=
  if CN_USINT_wrap attr =? 0 then 2 else 3.

Definition make_CIA_path (m : list Z) (path : Z) (cls instance attr : Z)
  : list Z * Z :=
  let m := poke m path 0x20 in
  let m := poke m (path + 1) cls in
  let m := poke m (path + 2) 0x24 in
  let m := poke m (path + 3) instance in
  if CN_USINT_wrap attr =? 0 then (m, path + 4)
  else
    let m := poke m (path + 4) 0x30 in
    let m := poke m (path + 5) attr in
    (m, path + 6).

(** In bytes, for a path size in words. *)
Definition MR_Request_size (path_size : Z) : Z :=
  size_t_wrap (2 * 1 + path_size * 2).

(** Setup packed MR_Request, return location of path in there. *)
Definition make_MR_Request (m : list Z) (buf : Z) (service path_size : Z)
  : list Z * Z :=
  let '(m, buf) := pack_USINT m buf service in
  pack_USINT m buf path_size.

(** Pointer to the data section of a raw MR_Request (what follows the
    path). *)
Definition raw_MR_Request_data (m : list Z) (request : Z) : Z :=
  request + 2 + peek m (request + 1) * 2.

(* ================================================================= *)
(** ** Connection Manager *)

(** The [while (millisec > 0xFF)] loop of [calc_tick_time]: the result is
    what is left in [*tick_time] and what is stored into [*ticks]. *)
Equations? calc_tick_time_loop (millisec tick_time : Z) : Z * Z
  by wf (Z.to_nat millisec) lt :=
calc_tick_time_loop millisec tick_time with Z_gt_dec millisec 0xFF := {
  | left _ =>
      calc_tick_time_loop (Z.shiftr millisec 1) (CN_USINT_wrap (tick_time + 1))
  | right _ => (tick_time, CN_USINT_wrap millisec) }.
Proof.
  rewrite Z.shiftr_div_pow2 by lia.
  change (2 ^ 1) with 2.
  assert (millisec / 2 < millisec) by (apply Z.div_lt; lia).
  assert (0 <= millisec / 2) by (apply Z.div_pos; lia).
  lia.
Defined.

(** [None] is the [false] result; [Some (tick_time, ticks)] carries the
    two out-parameters of a [true] result. *)
Definition calc_tick_time (millisec : Z) : option (Z * Z) :=
  if millisec >? 8355840 then None
  else Some (calc_tick_time_loop millisec 0).

Definition CM_Unconnected_Send_size (message_size : Z) : Z :=
  size_t_wrap
    (MR_Request_size (CIA_path_size C_ConnectionManager 1 0)
     + 1                                    (* priority_and_tick *)
     + 1                                    (* connection_timeout_ticks *)
     + 2                                    (* message_size *)
     + message_size + message_size mod 2    (* padded *)
     + 4).                                  (* complete path to PLC *)

(** Fill MR_Request with Unconnected_Send for a message of the given
    size; returns the buffer and the location of the nested request.
    The C code does not test the result of [calc_tick_time]; for the
    constant 245760 it is [true] (lemma [calc_tick_time_default]), so the
    two locals are always written.  The [None] branch stands for the
    indeterminate locals of a [false] result and is never taken. *)
Definition make_CM_Unconnected_Send (m : list Z) (request : Z)
    (message_size : Z) : list Z * Z :=
  let '(tick_time, ticks) :=
    match calc_tick_time 245760 with
    | Some r => r
    | None => (0, 0)
    end in
  let '(m, buf) := make_MR_Request m request S_CM_Unconnected_Send
                     (CIA_path_size C_ConnectionManager 1 0) in
  let '(m, buf) := make_CIA_path m buf C_ConnectionManager 1 0 in
  let '(m, buf) := pack_USINT m buf tick_time in
  let '(m, buf) := pack_USINT m buf ticks in
  let '(m, buf) := pack_UINT m buf message_size in
  let nested_request := buf in
  let buf := buf + (message_size + message_size mod 2) in
  let '(m, buf) := pack_USINT m buf (port_path_size 1 0) in
  let '(m, buf) := pack_USINT m buf 0 in
  let m := make_port_path m buf 1 0 in
  (m, nested_request).

(* ================================================================= *)
(** ** CIP_MultiRequest *)

(** Byte-size of a CIP_MultiRequest with [count] requests of total size
    [requests_size]. *)
Definition CIP_MultiRequest_size (count requests_size : Z) : Z :=
  size_t_wrap
    (2                                        (* service, path_size *)
     + CIA_path_size C_MessageRouter 1 0 * 2  (* into bytes *)
     + 2 + 2 * count                          (* count, offsetfields *)
     + requests_size).

(** Estimated byte-size of a MultiRequest response. *)
Definition CIP_MultiResponse_size (count responses_size : Z) : Z :=
  size_t_wrap
    (4                                        (* service, 0, stat, 0 *)
     + 2 + 2 * count                          (* count, offsetfields *)
     + responses_size).

(** [for (i=1; i<count; ++i) buf = pack_UINT (buf, 0);] with [n] the
    number of iterations still to run. *)
Fixpoint zero_offsets (n : nat) (m : list Z) (buf : Z) : list Z * Z :=
  match n with
  | O => (m, buf)
  | S n' => let '(m, buf) := pack_UINT m buf 0 in zero_offsets n' m buf
  end.

(** Initialize an MR_Request with a CIP_MultiRequest service for
    [count] single requests.  The C function always returns [true]. *)
Definition prepare_CIP_MultiRequest (m : list Z) (request : Z) (count : Z)
  : list Z * bool :=
  let '(m, buf) := make_MR_Request m request S_CIP_MultiRequest
                     (CIA_path_size C_MessageRouter 1 0) in
  let '(m, buf) := make_CIA_path m buf C_MessageRouter 1 0 in
  let '(m, buf) := pack_UINT m buf count in
  let '(m, buf) := pack_UINT m buf (size_t_wrap ((count + 1) * 2)) in
  let '(m, buf) := zero_offsets (Z.to_nat (count - 1)) m buf in
  (m, true).

(** Returns the buffer and the place where the single request
    [request_no] goes, or the null pointer. *)
Definition CIP_MultiRequest_item (m : list Z) (request : Z)
    (request_no single_request_size : Z) : list Z * option Z :=
  let countp := raw_MR_Request_data m request in
  let '(count, offsetp) := unpack_UINT m countp in
  if request_no >=? count then (m, None)
  else
    let '(offset, _) := unpack_UINT m (offsetp + 2 * request_no) in
    if offset =? 0 then (m, None)
    else
      let item := countp + offset in
      let next_no := CN_UINT_wrap (request_no + 1) in
      let m :=
        if next_no <? count
        then fst (pack_UINT m (offsetp + 2 * next_no)
                    (offset + single_request_size))
        else m in
      (m, Some item).

(* ================================================================= *)
(** ** Buffers that grow *)

(** What [malloc (requested)] hands back: nothing, or a fresh block whose
    octets are whatever the allocator left there. *)
Definition malloc_result : Type := option (list Z).

(** A [void *buffer] with its [size_t size]: the block the pointer
    refers to ([None] for the null pointer) and the recorded size. *)
Record GrowBuffer : Type := mkGrowBuffer {
  gb_buffer : option (list Z);
  gb_size : Z
}.

(** [memcpy (dst, src, n)] on whole blocks: the first [n] octets of
    [dst] become those of [src]. *)
Definition copy_into (dst src : list Z) (n : Z) : list Z :=
  take (Z.to_nat n) src ++ drop (Z.to_nat n) dst.

(** Assert that [*buffer] can hold [requested] bytes.  A bit like realloc,
    but only grows and keeps the old buffer if there is no more space. *)
Definition EIP_reserve_buffer (b : GrowBuffer) (requested : Z)
    (alloc : malloc_result) : GrowBuffer * bool :=
  if gb_size b >=? requested then (b, true)
  else
    let old_buffer := gb_buffer b in
    let old_size := int_wrap (gb_size b) in
    match alloc with
    | None => (mkGrowBuffer old_buffer (gb_size b), false)
    | Some fresh =>
        match old_buffer with
        | Some old =>
            (mkGrowBuffer (Some (copy_into fresh old (size_t_wrap old_size)))
                          requested, true)
        | None => (mkGrowBuffer (Some fresh) requested, true)
        end
    end.

(* ================================================================= *)
(** ** drvEtherIP: tags, scan lists, PLCs *)

(** A mutex semaphore as a [semTake] with timeout finds it: free, or held
    by another task for longer than the timeout. *)
Inductive SEM_ID : Type := sem_free | sem_held.

Inductive STATUS : Type := OK | ERROR.

Definition semTake (sem : SEM_ID) : STATUS :=
  match sem with
  | sem_free => OK
  | sem_held => ERROR
  end.

(** The fields of [TagInfo] that the scan task works on.  [data] and
    [data_size] are the growing buffer [tag_data]; the callback list and
    the transfer tick-time are left out. *)
Record TagInfo : Type := mkTagInfo {
  string_tag : list ascii;
  tag : ParsedTag;
  elements : Z;
  cip_r_request_size : Z;
  cip_r_response_size : Z;
  cip_w_request_size : Z;
  cip_w_response_size : Z;
  data_lock : SEM_ID;
  tag_data : GrowBuffer;
  valid_data_size : Z;
  do_write : bool;
  is_writing : bool
}.

Definition set_sizes (info : TagInfo) (r_req r_resp w_req w_resp : Z) : TagInfo :=
  mkTagInfo (string_tag info) (tag info) (elements info)
    r_req r_resp w_req w_resp
    (data_lock info) (tag_data info) (valid_data_size info)
    (do_write info) (is_writing info).

Definition set_valid_data_size (info : TagInfo) (v : Z) : TagInfo :=
  mkTagInfo (string_tag info) (tag info) (elements info)
    (cip_r_request_size info) (cip_r_response_size info)
    (cip_w_request_size info) (cip_w_response_size info)
    (data_lock info) (tag_data info) v
    (do_write info) (is_writing info).

Definition set_tag_data (info : TagInfo) (d : GrowBuffer) : TagInfo :=
  mkTagInfo (string_tag info) (tag info) (elements info)
    (cip_r_request_size info) (cip_r_response_size info)
    (cip_w_request_size info) (cip_w_response_size info)
    (data_lock info) d (valid_data_size info)
    (do_write info) (is_writing info).

Definition set_do_write (info : TagInfo) (b : bool) : TagInfo :=
  mkTagInfo (string_tag info) (tag info) (elements info)
    (cip_r_request_size info) (cip_r_response_size info)
    (cip_w_request_size info) (cip_w_response_size info)
    (data_lock info) (tag_data info) (valid_data_size info)
    b (is_writing info).

Definition set_is_writing (info : TagInfo) (b : bool) : TagInfo :=
  mkTagInfo (string_tag info) (tag info) (elements info)
    (cip_r_request_size info) (cip_r_response_size info)
    (cip_w_request_size info) (cip_w_response_size info)
    (data_lock info) (tag_data info) (valid_data_size info)
    (do_write info) b.

Record ScanList : Type := mkScanList {
  enabled : bool;
  list_errors : Z;
  scheduled_ticktime : Z;
  taginfos : list TagInfo
}.

Definition set_taginfos (l : ScanList) (infos : list TagInfo) : ScanList :=
  mkScanList (enabled l) (list_errors l) (scheduled_ticktime l) infos.

(** The connection without its transfer buffer, whose octets are the
    argument [m] of the builders above.  [sock] is 0 when there is no
    connection. *)
Record EIPConnection : Type := mkEIPConnection {
  sock : Z;
  session : Z;
  millisec_timeout : Z;
  transfer_buffer_limit : Z
}.

Record PLC : Type := mkPLC {
  name : list ascii;
  slot : Z;
  plc_errors : Z;
  slow_scans : Z;
  scanlists : list ScanList;
  connection : EIPConnection
}.

Definition set_scanlists (plc : PLC) (ls : list ScanList) : PLC :=
  mkPLC (name plc) (slot plc) (plc_errors plc) (slow_scans plc) ls
    (connection plc).

Definition set_connection (plc : PLC) (c : EIPConnection) : PLC :=
  mkPLC (name plc) (slot plc) (plc_errors plc) (slow_scans plc)
    (scanlists plc) c.

(** Every tag of a PLC, scan list by scan list. *)
Definition PLC_tags (plc : PLC) : list TagInfo :=
  concat (map taginfos (scanlists plc)).

(* ----------------------------------------------------------------- *)
(** *** Reading one tag *)

Definition CIP_ReadData_size (tag : ParsedTag) : Z :=
  size_t_wrap (2 + 2 * tag_path_size tag + 2).

(** What the network does with the single read request of
    [EIP_read_tag]: no reply at all (the frame could not be set up or
    sent, or nothing came back in time), or a reply whose RRData item has
    [data_length] octets and which [check_CIP_ReadData_Response] accepts
    or not. *)
Inductive Transfer : Type :=
  | no_reply
  | reply (data_length : Z) (accepted : bool).

(** [EIP_read_tag (c, tag, elements, NULL, &request_size, &response_size)]:
    whether the returned data pointer is non-null, and the two sizes
    after the call. *)
Definition EIP_read_tag (tag : ParsedTag) (t : Transfer)
    (request_size response_size : Z) : bool * Z * Z :=
  let msg_size := CIP_ReadData_size tag in
  let request_size := msg_size in
  match t with
  | no_reply => (false, request_size, response_size)
  | reply data_length accepted =>
      (accepted, request_size, CN_UINT_wrap data_length)
  end.

(** The loop body of [complete_PLC_ScanList_TagInfos] for one tag.  The
    replies still to come are threaded through; a tag that is probed uses
    up the first one (none left counts as no reply). *)
Definition complete_TagInfo (info : TagInfo) (net : list Transfer)
  : TagInfo * bool * list Transfer :=
  if negb (cip_r_request_size info =? 0) || negb (cip_r_response_size info =? 0)
  then (info, false, net)                  (* don't look twice *)
  else
    let t := match net with t :: _ => t | [] => no_reply end in
    let '(data, r_req, r_resp) :=
      EIP_read_tag (tag info) t
        (cip_r_request_size info) (cip_r_response_size info) in
    let info' :=
      if data then
        (* Estimate write sizes from the request/response for read *)
        if r_resp <=? 4 then set_sizes info r_req r_resp 0 0
        else
          let type_and_data_len := size_t_wrap (r_resp - 4) in
          set_sizes info r_req r_resp
            (size_t_wrap (r_req + type_and_data_len)) 4
      else set_sizes info 0 0 0 0 in
    (info', data, tl net).

Fixpoint complete_TagInfos (infos : list TagInfo) (any_ok : bool)
    (net : list Transfer) : list TagInfo * bool * list Transfer :=
  match infos with
  | [] => ([], any_ok, net)
  | info :: rest =>
      let '(info', ok, net) := complete_TagInfo info net in
      let '(rest', any_ok, net) := complete_TagInfos rest (any_ok || ok) net in
      (info' :: rest', any_ok, net)
  end.

Fixpoint complete_ScanLists (lists : list ScanList) (any_ok : bool)
    (net : list Transfer) : list ScanList * bool * list Transfer :=
  match lists with
  | [] => ([], any_ok, net)
  | l :: rest =>
      let '(infos, any_ok, net) := complete_TagInfos (taginfos l) any_ok net in
      let '(rest', any_ok, net) := complete_ScanLists rest any_ok net in
      (set_taginfos l infos :: rest', any_ok, net)
  end.

(** After TagInfos are defined, fill the rest of each TagInfo: request
    and response sizes.  Returns whether any TagInfo could be filled. *)
Definition complete_PLC_ScanList_TagInfos (plc : PLC) (net : list Transfer)
  : PLC * bool :=
  let '(lists, any_ok, _) := complete_ScanLists (scanlists plc) false net in
  (set_scanlists plc lists, any_ok).

(* ----------------------------------------------------------------- *)
(** *** Disconnecting *)

Definition invalidate_TagInfo (info : TagInfo) : TagInfo :=
  match semTake (data_lock info) with
  | OK => set_valid_data_size info 0
  | ERROR => info
  end.

Definition invalidate_PLC_tags (plc : PLC) : PLC :=
  set_scanlists plc
    (map (fun l => set_taginfos l (map invalidate_TagInfo (taginfos l)))
         (scanlists plc)).

(** [EIP_shutdown]: the UnRegisterSession frame goes out through the
    transfer buffer, then [EIP_disconnect] closes the socket. *)
Definition EIP_shutdown (c : EIPConnection) : EIPConnection :=
  mkEIPConnection 0 (session c) (millisec_timeout c) (transfer_buffer_limit c).

Definition disconnect_PLC (plc : PLC) : PLC :=
  if sock (connection plc) =? 0 then plc
  else invalidate_PLC_tags (set_connection plc (EIP_shutdown (connection plc))).

(* ----------------------------------------------------------------- *)
(** *** The scan task: classification, requests, responses *)

(** What the scan task does with one tag while it holds the tag's data
    lock in [determine_MultiRequest_count]: latch a pending write, and
    pick the request and response sizes that the tag adds. *)
Definition classify (info : TagInfo) : TagInfo * Z * Z :=
  if do_write info
  then (set_is_writing info true,
        cip_w_request_size info, cip_w_response_size info)
  else (info, cip_r_request_size info, cip_r_response_size info).

(** The locals and out-parameters of [determine_MultiRequest_count]. *)
Record MultiCount : Type := mkMultiCount {
  count : Z;
  requests_size : Z;
  responses_size : Z;
  multi_request_size : Z;
  multi_response_size : Z
}.

(** The [for (; info; info = DLL_next (TagInfo, info))] loop.  The result
    is the returned count, the out-parameters, and the tags from [info]
    on as the loop leaves them. *)
Fixpoint determine_MultiRequest_count_loop (limit : Z) (info : list TagInfo)
    (st : MultiCount) : Z * MultiCount * list TagInfo :=
  match info with
  | [] => (count st, st, [])
  | i :: next =>
      if cip_r_request_size i <=? 0 then
        let '(n, st, next) := determine_MultiRequest_count_loop limit next st in
        (n, st, i :: next)
      else
        match semTake (data_lock i) with
        | ERROR => (0, st, i :: next)
        | OK =>
            let '(i, req, resp) := classify i in
            let try_req := size_t_wrap (requests_size st + req) in
            let try_resp := size_t_wrap (responses_size st + resp) in
            let mreq := CIP_MultiRequest_size (count st + 1) try_req in
            let mresp := CIP_MultiResponse_size (count st + 1) try_resp in
            if (mreq >? limit) || (mresp >? limit) then
              (* more won't fit *)
              (count st,
               mkMultiCount (count st) (requests_size st) (responses_size st)
                 (CIP_MultiRequest_size (count st) (requests_size st))
                 (CIP_MultiResponse_size (count st) (responses_size st)),
               i :: next)
            else
              let '(n, st, next) :=
                determine_MultiRequest_count_loop limit next
                  (mkMultiCount (size_t_wrap (count st + 1)) try_req try_resp
                     mreq mresp) in
              (n, st, i :: next)
        end
  end.

(** Given a transfer buffer limit, see how many requests and responses
    can be handled in one transfer, starting with the first tag of [info].
    [multi0] and [multi1] are what the caller's two multi-size variables
    hold on entry. *)
Definition determine_MultiRequest_count (limit : Z) (info : list TagInfo)
    (multi0 multi1 : Z) : Z * MultiCount * list TagInfo :=
  determine_MultiRequest_count_loop limit info
    (mkMultiCount 0 0 0 multi0 multi1).

(** [process_ScanList], first loop, for one tag that is part of the
    transfer: a latched write takes the data lock, builds the write
    request and clears [do_write]; a read builds the read request.
    [None] is the [return false] when the lock cannot be taken. *)
Definition request_item (info : TagInfo) : option TagInfo :=
  if is_writing info then
    match semTake (data_lock info) with
    | ERROR => None
    | OK => Some (set_do_write info false)
    end
  else Some info.

(** [process_ScanList], last loop, for one tag of the transfer, with the
    data lock taken.  [write_ok] is the result of
    [check_CIP_WriteData_Response]; [data] and [data_size] are what
    [check_CIP_ReadData_Response] delivered, and [alloc] what [malloc]
    gives should the tag's buffer have to grow. *)
Definition response_item (info : TagInfo) (write_ok : bool)
    (data : list Z) (data_size : Z) (alloc : malloc_result)
  : option TagInfo :=
  match semTake (data_lock info) with
  | ERROR => None
  | OK =>
      if is_writing info then
        let info := if write_ok then info else set_valid_data_size info 0 in
        Some (set_is_writing info false)
      else if do_write info then
        (* write requested in the middle of the read cycle: ignore the read *)
        Some info
      else if data_size >? 0 then
        let '(buf, ok) := EIP_reserve_buffer (tag_data info) data_size alloc in
        let info := set_tag_data info buf in
        if ok then
          let buf' :=
            mkGrowBuffer
              (option_map (fun old => copy_into old data data_size)
                          (gb_buffer buf))
              (gb_size buf) in
          Some (set_valid_data_size (set_tag_data info buf') data_size)
        else Some (set_valid_data_size info 0)
      else Some (set_valid_data_size info 0)
  end.

(** Modelled from the spec: the device support that asks for a write is
    not among the sources.  [schedule_write] sets [do_write] under the
    tag's data lock. *)
Definition schedule_write (info : TagInfo) : TagInfo :=
  set_do_write info true.

(** The operations on one tag that touch [do_write] and [is_writing]. *)
Inductive TagEvent : Type :=
  | ev_schedule_write
  | ev_classify
  | ev_request
  | ev_response (write_ok : bool) (data : list Z) (data_size : Z)
      (alloc : malloc_result).

(** One operation on a tag; an operation that cannot get the data lock
    leaves the tag as it is. *)
Definition tag_step (e : TagEvent) (info : TagInfo) : TagInfo :=
  match e with
  | ev_schedule_write => schedule_write info
  | ev_classify =>
      match semTake (data_lock info) with
      | OK => fst (fst (classify info))
      | ERROR => info
      end
  | ev_request => default info (request_item info)
  | ev_response write_ok data data_size alloc =>
      default info (response_item info write_ok data data_size alloc)
  end.

Definition tag_run (es : list TagEvent) (info : TagInfo) : TagInfo :=
  fold_left (fun i e => tag_step e i) es info.

(** The pair [(do_write, is_writing)]. *)
Definition write_state (info : TagInfo) : bool * bool :=
  (do_write info, is_writing info).

(* ================================================================= *)
(** * Vocabulary of the specification *)

(* ----------------------------------------------------------------- *)
(** ** Octets on the wire *)

(** The buffer [m] with the octets [l] put at offset [p]. *)
Definition write_at (m : list Z) (p : Z) (l : list Z) : list Z :=
  take (Z.to_nat p) m ++ l ++ drop (Z.to_nat p + length l)%nat m.

(** A number as 2 and as 4 little-endian octets. *)
Definition le_bytes16 (v : Z) : list Z :=
  [v mod 2 ^ 8; (v / 2 ^ 8) mod 2 ^ 8].

Definition le_bytes32 (v : Z) : list Z :=
  [v mod 2 ^ 8; (v / 2 ^ 8) mod 2 ^ 8; (v / 2 ^ 16) mod 2 ^ 8;
   (v / 2 ^ 24) mod 2 ^ 8].

(* ----------------------------------------------------------------- *)
(** ** The CIP path of a tag, as the specification words it *)

(** name segment: [0x91, len, bytes, pad-zero if len odd] *)
Definition name_segment (name : list ascii) : list Z :=
  [0x91; strlen name] ++ map char_code name
  ++ (if Z.odd (strlen name) then [0] else []).

(** index segment: [0x28, index], [0x29, 0x00, lo, hi] or
    [0x2A, 0x00] and 4 little-endian octets. *)
Definition index_segment (index : Z) : list Z :=
  if index <=? 0xFF then [0x28; index]
  else if index <=? 0xFFFF then [0x29; 0x00] ++ le_bytes16 index
  else [0x2A; 0x00] ++ le_bytes32 index.

Definition segment_bytes (e : TagElement) : list Z :=
  match e with
  | te_name name => name_segment name
  | te_element index => index_segment index
  end.

Definition wire_path (tag : ParsedTag) : list Z :=
  concat (map segment_bytes tag).

Definition wire_length (tag : ParsedTag) : Z :=
  Z.of_nat (length (wire_path tag)).

(** The ranges of the data model: a name of at most 255 octets, an
    index of 32 bits. *)
Definition segment_in_range (e : TagElement) : Prop :=
  match e with
  | te_name name => strlen name <= 255
  | te_element index => 0 <= index < 2 ^ 32
  end.

(* ----------------------------------------------------------------- *)
(** ** The tag grammar *)





(* ----------------------------------------------------------------- *)
(** ** CM_Unconnected_Send *)

Definition padded (message_size : Z) : Z := message_size + message_size mod 2.

(** service 0x52, path of 2 words to class 0x06 instance 1, tick time 10,
    240 ticks, the message size. *)
Definition unconnected_send_header (message_size : Z) : list Z :=
  [0x52; 0x02; 0x20; 0x06; 0x24; 0x01; 10; 240] ++ le_bytes16 message_size.

(** path size of 1 word, reserved octet, port 1, link 0 *)
Definition unconnected_send_trailer : list Z := [0x01; 0x00; 0x01; 0x00].

(* ----------------------------------------------------------------- *)
(** ** CIP_MultiRequest *)

Definition sum_sizes (l : list Z) : Z := fold_right Z.add 0 l.

(** service 0x0A, path of 2 words to class 0x02 instance 1 *)
Definition multi_request_header : list Z :=
  [0x0A; 0x02; 0x20; 0x02; 0x24; 0x01].

Definition table_bytes (T : list Z) : list Z := concat (map le_bytes16 T).

(** A MultiRequest for [N] items whose offset table holds [T]. *)
Definition multi_request_image (N : Z) (T : list Z) : list Z :=
  multi_request_header ++ le_bytes16 N ++ table_bytes T.

(** The table that [prepare_CIP_MultiRequest] leaves. *)
Definition initial_table (N : Z) : list Z :=
  (N + 1) * 2 :: replicate (Z.to_nat (N - 1)) 0.

(** [CIP_MultiRequest_item] called for [request_no], [request_no + 1],
    ... with the given sizes: the buffer after the calls and the
    pointers they returned. *)
Fixpoint deposit_items (m : list Z) (request : Z) (request_no : Z)
    (sizes : list Z) : list Z * list (option Z) :=
  match sizes with
  | [] => (m, [])
  | s :: rest =>
      let '(m, item) := CIP_MultiRequest_item m request request_no s in
      let '(m, items) := deposit_items m request (request_no + 1) rest in
      (m, item :: items)
  end.

(** [offset[i] = 2*(N+1) + sum of s_j for j < i] *)
Definition offset_of (sizes : list Z) (i : nat) : Z :=
  2 * (Z.of_nat (length sizes) + 1) + sum_sizes (take i sizes).

(** The offset table once the items [0 .. k-1] are deposited: the
    entries up to [k] are set, the others are still 0. *)
Definition table_after (sizes : list Z) (k : nat) : list Z :=
  map (fun i => if (i <=? k)%nat then offset_of sizes i else 0)
      (seq 0 (length sizes)).

(* ----------------------------------------------------------------- *)
(** ** Batching *)

(** A tag takes part in a transfer when its read request size is known. *)
Definition eligible (info : TagInfo) : bool :=
  negb (cip_r_request_size info =? 0).

Definition eligible_tags (infos : list TagInfo) : list TagInfo :=
  filter (fun i => eligible i = true) infos.

(** A tag whose [do_write] flag is set contributes its write sizes, any
    other tag its read sizes. *)
Definition request_share (info : TagInfo) : Z :=
  if do_write info then cip_w_request_size info else cip_r_request_size info.

Definition response_share (info : TagInfo) : Z :=
  if do_write info then cip_w_response_size info else cip_r_response_size info.



Definition sizes_in_range (info : TagInfo) : Prop :=
  0 <= cip_r_request_size info /\ 0 <= cip_r_response_size info /\
  0 <= cip_w_request_size info /\ 0 <= cip_w_response_size info.

Definition lock_free (info : TagInfo) : Prop := data_lock info = sem_free.

Definition returned_count (r : Z * MultiCount * list TagInfo) : Z :=
  fst (fst r).

(* ----------------------------------------------------------------- *)
(** ** The write protocol *)

(** The changes of [(do_write, is_writing)] that the operations on a tag
    make, each with the operation that makes it. *)
Inductive write_transition : TagEvent -> bool * bool -> bool * bool -> Prop :=
  | wt_schedule :
      write_transition ev_schedule_write (false, false) (true, false)
  | wt_latch :
      write_transition ev_classify (true, false) (true, true)
  | wt_sent :
      write_transition ev_request (true, true) (false, true)
  | wt_done ok data data_size alloc :
      write_transition (ev_response ok data data_size alloc)
        (false, true) (false, false)
  | wt_reschedule :
      write_transition ev_schedule_write (false, true) (true, true)
  | wt_done_rescheduled ok data data_size alloc :
      write_transition (ev_response ok data data_size alloc)
        (true, true) (true, false).

(** The changes that the four-state cycle with its re-entry allows. *)
Definition in_write_cycle (s s' : bool * bool) : Prop :=
  (s = (false, false) /\ s' = (true, false)) \/
  (s = (true, false) /\ s' = (true, true)) \/
  (s = (true, true) /\ s' = (false, true)) \/
  (s = (false, true) /\ s' = (false, false)) \/
  (s = (true, true) /\ s' = (true, true)).

(* ----------------------------------------------------------------- *)
(** ** Probing *)

Definition size_known (info : TagInfo) : Prop :=
  cip_r_request_size info <> 0 \/ cip_r_response_size info <> 0.


(** The probe of one tag: whether [EIP_read_tag] delivered data, and the
    tag afterwards. *)
Definition probe_success (info : TagInfo) (net : list Transfer) : bool :=
  snd (fst (complete_TagInfo info net)).

Definition probed_tag (info : TagInfo) (net : list Transfer) : TagInfo :=
  fst (fst (complete_TagInfo info net)).


(* ----------------------------------------------------------------- *)
(** ** Disconnecting *)

(** What a disconnect does to one tag: only [valid_data_size] can
    change; it is 0 when the data lock could be taken, and what it was
    when the lock is held elsewhere. *)
Definition invalidated (info info' : TagInfo) : Prop :=
  info' = set_valid_data_size info (valid_data_size info') /\
  (data_lock info = sem_free -> valid_data_size info' = 0) /\
  (data_lock info = sem_held -> valid_data_size info' = valid_data_size info).

(* ----------------------------------------------------------------- *)
(** ** Growing buffers *)

(** A buffer is well formed when its recorded size is the length of its
    block, and 0 for the null pointer. *)
Definition GrowBuffer_wf (b : GrowBuffer) : Prop :=
  0 <= gb_size b < 2 ^ 32 /\
  match gb_buffer b with
  | Some block => Z.of_nat (length block) = gb_size b
  | None => gb_size b = 0
  end.

(** [malloc (requested)] hands back a block of [requested] octets. *)
Definition malloc_wf (requested : Z) (alloc : malloc_result) : Prop :=
  match alloc with
  | Some fresh => Z.of_nat (length fresh) = requested
  | None => True
  end.

Definition contents (b : GrowBuffer) : list Z :=
  match gb_buffer b with
  | Some block => block
  | None => []
  end.

(* ================================================================= *)
(** * More of the two files

    The functions below are those that the functions above call, or
    that call them: the rest of the packing layer, the encapsulation
    commands, the CIP read and write requests and their responses, the
    registry of tags, and the transfer of single tags. *)

(** [unpack_UDINT]: the four octets are promoted to [int], shifted and
    or-ed together; the conversion to [CN_UDINT] reduces the result
    modulo 2^32. *)
Definition unpack_UDINT (m : list Z) (buffer : Z) : Z * Z :=
  (CN_UDINT_wrap
     (Z.lor (Z.lor (Z.lor (peek m buffer)
                          (Z.shiftl (peek m (buffer + 1)) 8))
                   (Z.shiftl (peek m (buffer + 2)) 16))
            (Z.shiftl (peek m (buffer + 3)) 24)),
   buffer + 4).

(** A [CN_REAL] is kept as the 32 bits of its representation.  Octet [k]
    of it, counted from the least significant one: on a little-endian
    host that is [p[k]], on a big-endian host [p[3-k]], so that both
    branches of [pack_REAL] and [unpack_REAL] move the same octets. *)
Definition REAL_octet (val : Z) (k : Z) : Z := Z.shiftr val (8 * k) mod 2 ^ 8.

Definition pack_REAL (m : list Z) (buffer : Z) (val : Z) : list Z * Z :=
  let m := poke m buffer (REAL_octet val 0) in
  let m := poke m (buffer + 1) (REAL_octet val 1) in
  let m := poke m (buffer + 2) (REAL_octet val 2) in
  let m := poke m (buffer + 3) (REAL_octet val 3) in
  (m, buffer + 4).

(** [unpack_REAL] moves [buffer] along while it copies the four octets
    and then returns [buffer + 4]. *)
Definition unpack_REAL (m : list Z) (buffer : Z) : Z * Z :=
  let val :=
    peek m buffer + Z.shiftl (peek m (buffer + 1)) 8
    + Z.shiftl (peek m (buffer + 2)) 16 + Z.shiftl (peek m (buffer + 3)) 24 in
  let buffer := buffer + 4 in
  (val, buffer + 4).

(** [unpack (buffer, format, ...)]: the result is the null pointer
    ([None]) or the advanced pointer together with the values stored
    through the variable arguments, in their order. *)
Fixpoint unpack (m : list Z) (buffer : Z) (format : list ascii)
  : option (Z * list Z) :=
  match format with
  | [] => Some (buffer, [])
  | c :: format' =>
      let continue (buffer' : Z) (stored : list Z) :=
        match unpack m buffer' format' with
        | Some (b, vs) => Some (b, stored ++ vs)
        | None => None
        end in
      if Ascii.eqb c "s" then continue (buffer + 1) [peek m buffer]
      else if Ascii.eqb c "S" then continue (buffer + 1) []
      else if Ascii.eqb c "i" then
        let '(v, b) := unpack_UINT m buffer in continue b [v]
      else if Ascii.eqb c "I" then continue (buffer + 2) []
      else if Ascii.eqb c "d" then
        let '(v, b) := unpack_UDINT m buffer in continue b [v]
      else if Ascii.eqb c "D" then continue (buffer + 4) []
      else if Ascii.eqb c "r" then
        let '(v, b) := unpack_REAL m buffer in continue b [v]
      else if Ascii.eqb c "R" then continue (buffer + 4) []
      else None
  end.

(** How far a format character moves the pointer; [None] for a
    character that [unpack] does not know. *)
Definition format_width (c : ascii) : option Z :=
  if Ascii.eqb c "s" || Ascii.eqb c "S" then Some 1
  else if Ascii.eqb c "i" || Ascii.eqb c "I" then Some 2
  else if Ascii.eqb c "d" || Ascii.eqb c "D" || Ascii.eqb c "R" then Some 4
  else if Ascii.eqb c "r" then Some 8
  else None.

Definition format_stores (c : ascii) : bool :=
  Ascii.eqb c "s" || Ascii.eqb c "i" || Ascii.eqb c "d" || Ascii.eqb c "r".

Definition format_total_width (format : list ascii) : Z :=
  fold_right (fun c w => default 0 (format_width c) + w) 0 format.

(* ================================================================= *)
(** ** Ethernet encapsulation *)

(** Modelled from the spec: the encapsulation commands and the sizes of
    the packed encapsulation structures are declared in ether_ip.h, which
    is not among the sources. *)
Definition EC_ListServices : Z := 0x04.
Definition EC_RegisterSession : Z := 0x65.
Definition EC_UnRegisterSession : Z := 0x66.
Definition EC_SendRRData : Z := 0x6F.
Definition sizeof_EncapsulationHeader : Z := 24.
Definition sizeof_RegisterSessionData : Z := 28.
Definition sizeof_EncapsulationRRData : Z := 40.

Record EncapsulationHeader : Type := mkEncapsulationHeader {
  eh_command : Z;
  eh_length : Z;
  eh_session : Z;
  eh_status : Z;
  eh_server_context : list Z;
  eh_options : Z
}.

Record EncapsulationRRData : Type := mkEncapsulationRRData {
  rr_header : EncapsulationHeader;
  rr_interface_handle : Z;
  rr_timeout : Z;
  rr_count : Z;
  rr_address_type : Z;
  rr_address_length : Z;
  rr_data_type : Z;
  rr_data_length : Z
}.

(** Fill the EncapsulationHeader of the connection and reserve enough
    space for the command data that follows.  [b] is the connection's
    buffer with its size; the result is the buffer and the location
    behind the header, or the null pointer when there is no memory.  (A
    buffer that holds 24 octets or more is not the null pointer.) *)
Definition make_EncapsulationHeader (c : EIPConnection) (b : GrowBuffer)
    (command length options : Z) (alloc : malloc_result)
  : GrowBuffer * option Z :=
  let length := CN_UINT_wrap length in
  let '(b, ok) :=
    EIP_reserve_buffer b (size_t_wrap (sizeof_EncapsulationHeader + length))
      alloc in
  if ok then
    match gb_buffer b with
    | Some m =>
        let buf := 0 in
        let '(m, buf) := pack_UINT m buf command in
        let '(m, buf) := pack_UINT m buf length in
        let '(m, buf) := pack_UDINT m buf (session c) in
        let '(m, buf) := pack_UDINT m buf 0 in
        let '(m, buf) := pack_USINT m buf (char_code "A") in
        let '(m, buf) := pack_USINT m buf (char_code "I") in
        let '(m, buf) := pack_USINT m buf (char_code "R") in
        let '(m, buf) := pack_USINT m buf (char_code "P") in
        let '(m, buf) := pack_USINT m buf (char_code "L") in
        let '(m, buf) := pack_USINT m buf (char_code "A") in
        let '(m, buf) := pack_USINT m buf (char_code "N") in
        let '(m, buf) := pack_USINT m buf (char_code "E") in
        let '(m, buf) := pack_UDINT m buf options in
        (mkGrowBuffer (Some m) (gb_size b), Some buf)
    | None => (b, None)
    end
  else (b, None).

(** Unpack from network buffer. *)
Definition unpack_EncapsulationHeader (m : list Z) (buf : Z)
  : option (Z * EncapsulationHeader) :=
  match unpack m buf (list_ascii_of_string "iiddssssssssd") with
  | Some (buf, [command; length; session; status;
                c0; c1; c2; c3; c4; c5; c6; c7; options]) =>
      Some (buf, mkEncapsulationHeader command length session status
                   [c0; c1; c2; c3; c4; c5; c6; c7] options)
  | _ => None
  end.

(** Setup encapsulation buffer for SendRRData; [length] is the total
    byte-size of the MR_Request.  Returns the location of the MR_Request
    to be completed. *)
Definition EIP_make_SendRRData (c : EIPConnection) (b : GrowBuffer)
    (length : Z) (alloc : malloc_result) : GrowBuffer * option Z :=
  match make_EncapsulationHeader c b EC_SendRRData
          (size_t_wrap (sizeof_EncapsulationRRData
                        - sizeof_EncapsulationHeader + length))
          0 alloc with
  | (b, None) => (b, None)
  | (b, Some buf) =>
      match gb_buffer b with
      | Some m =>
          let '(m, buf) := pack_UDINT m buf 0 in   (* interface_handle *)
          let '(m, buf) := pack_UINT m buf 0 in    (* timeout *)
          let '(m, buf) := pack_UINT m buf 2 in    (* count (addr., data) *)
          let '(m, buf) := pack_UINT m buf 0x00 in (* address_type UCMM *)
          let '(m, buf) := pack_UINT m buf 0 in    (* address_length *)
          let '(m, buf) := pack_UINT m buf 0xB2 in (* data_type *)
          let '(m, buf) := pack_UINT m buf length in
          (mkGrowBuffer (Some m) (gb_size b), Some buf)
      | None => (b, None)
      end
  end.

(** Unpack the response to SendRRData: the details, and the location of
    the raw MR_Response that is enclosed in the RRData. *)
Definition EIP_unpack_RRData (m : list Z) (buf : Z)
  : option (Z * EncapsulationRRData) :=
  match unpack_EncapsulationHeader m buf with
  | None => None
  | Some (buf, header) =>
      match unpack m buf (list_ascii_of_string "diiiiii") with
      | Some (buf, [interface_handle; timeout; count; address_type;
                    address_length; data_type; data_length]) =>
          Some (buf, mkEncapsulationRRData header interface_handle timeout
                       count address_type address_length data_type
                       data_length)
      | _ => None
      end
  end.

(** [EIP_send_connection_buffer]: the length of the frame is taken from
    the header in the buffer.  [send] is the socket: it is handed the
    octets to send and answers with the number it sent. *)
Definition EIP_send_connection_buffer (m : list Z) (send : list Z -> Z)
  : bool :=
  let '(length, _) := unpack_UINT m 2 in
  let len := int_wrap (sizeof_EncapsulationHeader + length) in
  send (take (Z.to_nat len) m) =? len.

(** A value in a packed structure, with the width it is packed in. *)
Inductive Field : Type :=
  | f_USINT (v : Z)
  | f_UINT (v : Z)
  | f_UDINT (v : Z).

Definition field_octets (f : Field) : list Z :=
  match f with
  | f_USINT v => [v mod 2 ^ 8]
  | f_UINT v => le_bytes16 v
  | f_UDINT v => le_bytes32 v
  end.

Definition field_format (f : Field) : ascii :=
  match f with
  | f_USINT _ => "s"%char
  | f_UINT _ => "i"%char
  | f_UDINT _ => "d"%char
  end.

Definition field_value (f : Field) : Z :=
  match f with
  | f_USINT v => v mod 2 ^ 8
  | f_UINT v => v mod 2 ^ 16
  | f_UDINT v => v mod 2 ^ 32
  end.

Definition packed (fs : list Field) : list Z := concat (map field_octets fs).

(** The 24 octets of an encapsulation header. *)
Definition encapsulation_header_fields (command length session options : Z)
  : list Field :=
  [f_UINT command; f_UINT length; f_UDINT session; f_UDINT 0;
   f_USINT 65; f_USINT 73; f_USINT 82; f_USINT 80;
   f_USINT 76; f_USINT 65; f_USINT 78; f_USINT 69; f_UDINT options].

(** The 16 octets of RRData behind the header. *)
Definition RRData_fields (data_length : Z) : list Field :=
  [f_UDINT 0; f_UINT 0; f_UINT 2; f_UINT 0; f_UINT 0; f_UINT 0xB2;
   f_UINT data_length].

Definition set_session (c : EIPConnection) (s : Z) : EIPConnection :=
  mkEIPConnection (sock c) s (millisec_timeout c) (transfer_buffer_limit c).

(** The [for (i=0; i<reply.count; ++i)] loop of [EIP_list_services]:
    every service entry is unpacked and checked for "CIP PDU" support,
    bit 5 of its flags.  [n] entries are still to come. *)
Fixpoint list_services_loop (m : list Z) (buf : Z) (n : nat) (ok : bool)
    {struct n} : bool :=
  match n with
  | O => ok
  | S n' =>
      match unpack m buf (list_ascii_of_string "iiiissssssssssssssss") with
      | Some (buf, type :: length :: version :: flags :: name) =>
          list_services_loop m buf n'
            (if Z.land flags (Z.shiftl 1 5) =? 0 then false else ok)
      | _ => ok
      end
  end.

(** Encapsulation command "ListServices": check if CIP is supported.
    [send] is the socket; [received] is what
    [EIP_read_connection_buffer] leaves in the connection's buffer, or
    [None] when it reports no response.  The result is the buffer and
    the returned flag. *)
Definition EIP_list_services (c : EIPConnection) (b : GrowBuffer)
    (alloc : malloc_result) (send : list Z -> Z) (received : option GrowBuffer)
  : GrowBuffer * bool :=
  match make_EncapsulationHeader c b EC_ListServices 0 0 alloc with
  | (b, None) => (b, false)
  | (b, Some _) =>
      if negb (EIP_send_connection_buffer (contents b) send) then (b, false)
      else
        match received with
        | None => (b, false)
        | Some b =>
            let m := contents b in
            match unpack_EncapsulationHeader m 0 with
            | None => (b, false)
            | Some (buf, header) =>
                if negb (eh_command header =? EC_ListServices)
                   || negb (eh_status header =? 0)
                then (b, false)
                else
                  let '(count, buf) := unpack_UINT m buf in
                  (b, list_services_loop m buf (Z.to_nat count) true)
            end
        end
  end.

(** Encapsulation command "Register Session".  On success the session
    ID that the target sent is kept in the connection. *)
Definition EIP_register_session (c : EIPConnection) (b : GrowBuffer)
    (alloc : malloc_result) (send : list Z -> Z) (received : option GrowBuffer)
  : EIPConnection * GrowBuffer * bool :=
  match make_EncapsulationHeader c b EC_RegisterSession
          (sizeof_RegisterSessionData - sizeof_EncapsulationHeader) 0 alloc with
  | (b, None) => (c, b, false)
  | (b, Some sbuf) =>
      let m := contents b in
      let '(m, sbuf) := pack_UINT m sbuf 1 in      (* protocol_version *)
      let '(m, _) := pack_UINT m sbuf 0 in         (* options *)
      let b := mkGrowBuffer (Some m) (gb_size b) in
      if negb (EIP_send_connection_buffer m send) then (c, b, false)
      else
        match received with
        | None => (c, b, false)
        | Some b =>
            match unpack_EncapsulationHeader (contents b) 0 with
            | None => (c, b, false)
            | Some (_, header) =>
                if negb (eh_command header =? EC_RegisterSession)
                   || negb (eh_status header =? 0)
                then (c, b, false)
                else (set_session c (eh_session header), b, true)
            end
        end
  end.

(** Encapsulation command "UnRegister Session". *)
Definition EIP_unregister_session (c : EIPConnection) (b : GrowBuffer)
    (alloc : malloc_result) (send : list Z -> Z) : GrowBuffer * bool :=
  match make_EncapsulationHeader c b EC_UnRegisterSession 0 0 alloc with
  | (b, None) => (b, false)
  | (b, Some _) => (b, EIP_send_connection_buffer (contents b) send)
  end.

(** One entry of a ListServices reply: type, length, version, flags and
    a name of 16 octets. *)
Record ServiceEntry : Type := mkServiceEntry {
  se_type : Z;
  se_length : Z;
  se_version : Z;
  se_flags : Z;
  se_name : list Z
}.

Definition service_fields (e : ServiceEntry) : list Field :=
  [f_UINT (se_type e); f_UINT (se_length e); f_UINT (se_version e);
   f_UINT (se_flags e)] ++ map f_USINT (se_name e).

(** "CIP PDU" encapsulation is bit 5 of the flags. *)
Definition supports_CIP_PDU (e : ServiceEntry) : bool :=
  Z.testbit (se_flags e mod 2 ^ 16) 5.

(** A frame whose header comes from the target: a command, a status, the
    session the target assigned, and the command data behind it. *)
Definition reply_frame (command session status : Z) (data : list Z) : list Z :=
  packed [f_UINT command; f_UINT (Z.of_nat (List.length data));
          f_UDINT session; f_UDINT status;
          f_USINT 65; f_USINT 73; f_USINT 82; f_USINT 80;
          f_USINT 76; f_USINT 65; f_USINT 78; f_USINT 69; f_UDINT 0]
  ++ data.

Definition list_services_reply (status : Z) (services : list ServiceEntry)
  : list Z :=
  reply_frame EC_ListServices 0 status
    (le_bytes16 (Z.of_nat (List.length services))
     ++ concat (map (fun e => packed (service_fields e)) services)).

Definition entry_wf (e : ServiceEntry) : Prop :=
  List.length (se_name e) = 16%nat.

(* ================================================================= *)
(** ** Logix 5000 data access: CIP_ReadData and CIP_WriteData *)

(** Modelled from the spec: the codes of [CIP_Type] are enumerated in
    ether_ip.h, which is not among the sources. *)
Definition T_CIP_BOOL : Z := 0x00C1.
Definition T_CIP_SINT : Z := 0x00C2.
Definition T_CIP_INT : Z := 0x00C3.
Definition T_CIP_DINT : Z := 0x00C4.
Definition T_CIP_REAL : Z := 0x00CA.
Definition T_CIP_BITS : Z := 0x00D3.

(** Determine byte size of CIP_Type *)
Definition CIP_Type_size (type : Z) : Z :=
  if type =? T_CIP_BOOL then 1
  else if type =? T_CIP_SINT then 1
  else if type =? T_CIP_INT then 2
  else if type =? T_CIP_DINT then 4
  else if type =? T_CIP_REAL then 4
  else if type =? T_CIP_BITS then 4
  else 0.

Definition make_CIP_ReadData (m : list Z) (request : Z) (tag : ParsedTag)
    (elements : Z) : list Z * Z :=
  let '(m, buf) := make_MR_Request m request S_CIP_ReadData (tag_path_size tag) in
  let '(m, buf) := make_tag_path m buf tag in
  pack_UINT m buf elements.

Definition CIP_WriteData_size (tag : ParsedTag) (data_size : Z) : Z :=
  size_t_wrap (2 + 2 * tag_path_size tag + 4 + data_size).

(** Fill buffer with CIP WriteData request for tag, type of CIP data,
    given number of elements.  Also copies the data into the buffer;
    [raw_data] is what lies at the data pointer, in network format. *)
Definition make_CIP_WriteData (m : list Z) (buf : Z) (tag : ParsedTag)
    (type elements : Z) (raw_data : list Z) : list Z * Z :=
  let data_size := size_t_wrap (CIP_Type_size type * elements) in
  let '(m, buf) := make_MR_Request m buf S_CIP_WriteData (tag_path_size tag) in
  let '(m, buf) := make_tag_path m buf tag in
  let '(m, buf) := pack_UINT m buf type in
  let '(m, buf) := pack_UINT m buf elements in
  let m := memcpy m buf (take (Z.to_nat data_size) raw_data) in
  (m, buf + data_size).

(* ----------------------------------------------------------------- *)
(** *** MR_Response *)

(** [EIP_raw_MR_Response_data]: the raw MR_Response has a fixed portion
    followed by (maybe) an extended status and then (maybe) data.  The
    result is the pointer to the data and what is filled into
    [*data_size]. *)
Definition EIP_raw_MR_Response_data (m : list Z) (response response_size : Z)
  : Z * Z :=
  let data := response + 4 in
  let data :=
    if peek m (response + 3) >? 0
    then data + 2 * peek m (response + 3)        (* word ptr *)
    else data in
  let non_data := size_t_wrap (data - response) in
  let data_size :=
    if response_size >? non_data then size_t_wrap (response_size - non_data)
    else 0 in
  (data, data_size).

Definition is_raw_MRResponse_ok (m : list Z) (response response_size : Z)
  : bool :=
  let general_status := peek m (response + 2) in
  general_status =? 0.

(** Test CIP_ReadData response: the data and its size if so, or the
    null pointer. *)
Definition check_CIP_ReadData_Response (m : list Z)
    (response response_size : Z) : option (Z * Z) :=
  let service := peek m response in
  if (Z.land service 0x7F =? S_CIP_ReadData)
     && is_raw_MRResponse_ok m response response_size
  then Some (EIP_raw_MR_Response_data m response response_size)
  else None.

Definition check_CIP_WriteData_Response (m : list Z)
    (response response_size : Z) : bool :=
  let service := peek m response in
  (Z.land service 0x7F =? S_CIP_WriteData)
  && is_raw_MRResponse_ok m response response_size.

(** Check if response is valid for a S_CIP_MultiRequest *)
Definition check_CIP_MultiRequest_Response (m : list Z) (response : Z) : bool :=
  let service := peek m response in
  let general_status := peek m (response + 2) in
  (service =? Z.lor S_CIP_MultiRequest 0x80) && (general_status =? 0).

(** Pick a single reply out of the multiple reply: its location and what
    is filled into [*reply_size], or the null pointer. *)
Definition get_CIP_MultiRequest_Response (m : list Z)
    (response response_size reply_no : Z) : option (Z * Z) :=
  let countp := fst (EIP_raw_MR_Response_data m response response_size) in
  let '(count, offsetp) := unpack_UINT m countp in
  if reply_no >=? count then None
  else
    let '(offset, _) := unpack_UINT m (offsetp + 2 * reply_no) in
    let mem := countp + offset in
    let reply_size :=
      if size_t_wrap (reply_no + 1) <? count then
        (* size: from this message to next message *)
        let '(offset2, _) := unpack_UINT m (offsetp + 2 * (reply_no + 1)) in
        size_t_wrap (offset2 - offset)
      else
        (* from last message to end *)
        size_t_wrap (response_size - (mem - response)) in
    Some (mem, reply_size).

(** A CIP_ReadData request: service, path size in words, the path of
    the tag, the number of elements. *)
Definition read_request_image (tag : ParsedTag) (elements : Z) : list Z :=
  [S_CIP_ReadData; tag_path_size tag] ++ wire_path tag ++ le_bytes16 elements.

(** A CIP_WriteData request: as for reading, then the type, the number
    of elements and the data. *)
Definition write_request_image (tag : ParsedTag) (type elements : Z)
    (data : list Z) : list Z :=
  [S_CIP_WriteData; tag_path_size tag] ++ wire_path tag
  ++ le_bytes16 type ++ le_bytes16 elements ++ data.

Definition octets (l : list Z) : Prop := Forall (fun v => 0 <= v < 2 ^ 8) l.

(** A raw MR_Response: service, a reserved octet, the general status,
    the number of extended status words, these words, and the data. *)
Definition mr_response_image (service status : Z) (ext : list Z)
    (data : list Z) : list Z :=
  [service; 0; status; Z.of_nat (List.length ext)] ++ table_bytes ext ++ data.

Definition reply_sizes (replies : list (list Z)) : list Z :=
  map (fun r => Z.of_nat (List.length r)) replies.

(** The data of a response to a CIP_MultiRequest: the count, the
    offsets of the replies from the count field, and the replies one
    behind the other. *)
Definition multi_response_data (replies : list (list Z)) : list Z :=
  le_bytes16 (Z.of_nat (List.length replies))
  ++ table_bytes (map (offset_of (reply_sizes replies))
                      (seq 0 (List.length replies)))
  ++ concat replies.

(* ----------------------------------------------------------------- *)
(** *** CIP data: type code and elements in raw format *)

Section CIP_data.

(** The conversions between a [CN_REAL], which is kept as the 32 bits of
    its representation, and a [CN_UDINT] are floating-point operations;
    they are left open. *)
Variable REAL_to_UDINT : Z -> Z.
Variable UDINT_to_REAL : Z -> Z.

(** [get_CIP_UDINT]: what is stored into [*result], or [None] for the
    result [false]. *)
Definition get_CIP_UDINT (m : list Z) (raw_type_and_data element : Z)
  : option Z :=
  let '(type, buf) := unpack_UINT m raw_type_and_data in
  let buf := buf + size_t_wrap (element * CIP_Type_size type) in
  if (type =? T_CIP_BOOL) || (type =? T_CIP_SINT) then Some (peek m buf)
  else if type =? T_CIP_INT then Some (fst (unpack_UINT m buf))
  else if (type =? T_CIP_DINT) || (type =? T_CIP_BITS) then
    Some (fst (unpack_UDINT m buf))
  else if type =? T_CIP_REAL then
    Some (CN_UDINT_wrap (REAL_to_UDINT (fst (unpack_REAL m buf))))
  else None.

(** [put_CIP_UDINT]: the buffer afterwards and the result. *)
Definition put_CIP_UDINT (m : list Z) (raw_type_and_data element value : Z)
  : list Z * bool :=
  let '(type, buf) := unpack_UINT m raw_type_and_data in
  (* buf now on first, skip to given element *)
  let buf :=
    if element >? 0 then buf + size_t_wrap (element * CIP_Type_size type)
    else buf in
  if (type =? T_CIP_BOOL) || (type =? T_CIP_SINT) then
    (fst (pack_USINT m buf value), true)
  else if type =? T_CIP_INT then (fst (pack_UINT m buf value), true)
  else if (type =? T_CIP_DINT) || (type =? T_CIP_BITS) then
    (fst (pack_UDINT m buf value), true)
  else if type =? T_CIP_REAL then
    (fst (pack_REAL m buf (UDINT_to_REAL value)), true)
  else (m, false).

End CIP_data.

(** The CIP types whose elements are unsigned numbers of 1, 2 or 4
    octets. *)
Definition integer_CIP_type (type : Z) : Prop :=
  type = T_CIP_BOOL \/ type = T_CIP_SINT \/ type = T_CIP_INT \/
  type = T_CIP_DINT \/ type = T_CIP_BITS.

Definition known_CIP_type (type : Z) : Prop :=
  integer_CIP_type type \/ type = T_CIP_REAL.





(* ----------------------------------------------------------------- *)
(** *** Connecting *)

(** Test if we are connected, if not try to connect to PLC.  [startup]
    is what [EIP_startup] makes of the connection and what it returns;
    [net] are the replies to the probes of
    [complete_PLC_ScanList_TagInfos]. *)
Definition assert_PLC_connect (plc : PLC) (startup : EIPConnection * bool)
    (net : list Transfer) : PLC * bool :=
  if negb (sock (connection plc) =? 0) then (plc, true)
  else
    let '(c, ok) := startup in
    let plc := set_connection plc c in
    if ok then complete_PLC_ScanList_TagInfos plc net
    else (plc, false).

(** The data buffer of a tag is well formed and holds at least the valid
    octets. *)
Definition tag_data_wf (info : TagInfo) : Prop :=
  GrowBuffer_wf (tag_data info) /\
  0 <= valid_data_size info <= gb_size (tag_data info).

(** A tag was probed with success: its sizes were not known before, and
    it has a read request size afterwards. *)
Definition probe_hit (before after : TagInfo) : bool :=
  (cip_r_request_size before =? 0) && (cip_r_response_size before =? 0)
  && eligible after.

(** The out-parameters of [determine_MultiRequest_count] describe a
    transfer of [n] tags within [limit]. *)
Definition sizes_for (limit n : Z) (st : MultiCount) : Prop :=
  multi_request_size st = CIP_MultiRequest_size n (requests_size st) /\
  multi_response_size st = CIP_MultiResponse_size n (responses_size st) /\
  multi_request_size st <= limit /\ multi_response_size st <= limit.

(** Some tag of [before] was probed with success. *)
Fixpoint any_hit (before after : list TagInfo) : bool :=
  match before, after with
  | a :: before, b :: after => probe_hit a b || any_hit before after
  | _, _ => false
  end.

(* ----------------------------------------------------------------- *)
(** *** The tags of a PLC *)

#[local] Instance ascii_eq_decision : EqDecision ascii := ascii_dec.

Definition set_elements (info : TagInfo) (n : Z) : TagInfo :=
  mkTagInfo (string_tag info) (tag info) n
    (cip_r_request_size info) (cip_r_response_size info)
    (cip_w_request_size info) (cip_w_response_size info)
    (data_lock info) (tag_data info) (valid_data_size info)
    (do_write info) (is_writing info).

(** [mem] is whether [calloc], [EIP_strdup] and [semMCreate] deliver.
    The structure comes zeroed from [calloc]. *)
Definition new_TagInfo (tag_name : list ascii) (n : Z) (mem : bool)
  : option TagInfo :=
  if negb mem then None
  else
    match EIP_parse_tag tag_name with
    | [] => None                             (* failed to parse tag *)
    | parsed =>
        Some (mkTagInfo tag_name parsed n 0 0 0 0 sem_free
                (mkGrowBuffer None 0) 0 false false)
    end.

(** Find tag by name: its place in the list and the tag, [None] for
    "not found". *)
Definition find_ScanList_Tag (scanlist : ScanList) (tag_name : list ascii)
  : option (nat * TagInfo) :=
  list_find (fun info => string_tag info = tag_name) (taginfos scanlist).

Definition remove_ScanList_TagInfo (scanlist : ScanList) (j : nat) : ScanList :=
  set_taginfos scanlist (delete j (taginfos scanlist)).

Definition add_ScanList_TagInfo (scanlist : ScanList) (info : TagInfo)
  : ScanList :=
  set_taginfos scanlist (taginfos scanlist ++ [info]).

(** Add new tag to taglist, compile tag. *)
Definition add_ScanList_Tag (scanlist : ScanList) (tag_name : list ascii)
    (n : Z) (mem : bool) : ScanList * option TagInfo :=
  match new_TagInfo tag_name n mem with
  | Some info => (add_ScanList_TagInfo scanlist info, Some info)
  | None => (scanlist, None)
  end.

(** [new_ScanList] followed by [reset_ScanList]. *)
Definition new_ScanList : ScanList := mkScanList true 0 0 [].

Section Periods.

(** The scan period is a [double]; the code compares periods with [==]
    and [>], which are left open here. *)
Variable Period : Type.
Variable period_eq period_gt : Period -> Period -> bool.

(** The scan lists of a PLC, each with its [period]. *)


(** get (or create) ScanList for given rate: the lists afterwards and the
    place of the list.  [mem] is whether [calloc] delivers. *)
Definition get_PLC_ScanList (lists : list (Period * ScanList)) (period : Period)
    (create mem : bool) : list (Period * ScanList) * option nat :=
  match list_find (fun pl => period_eq (fst pl) period = true) lists with
  | Some (k, _) => (lists, Some k)
  | None =>
      if negb create then (lists, None)
      else if mem then (lists ++ [(period, new_ScanList)], Some (length lists))
      else (lists, None)
  end.

(** Find ScanList and TagInfo for given tag. *)
Fixpoint find_PLC_tag (lists : list (Period * ScanList)) (tag_name : list ascii)
  : option (nat * nat * TagInfo) :=
  match lists with
  | [] => None
  | (_, scanlist) :: rest =>
      match find_ScanList_Tag scanlist tag_name with
      | Some (j, info) => Some (0%nat, j, info)
      | None =>
          match find_PLC_tag rest tag_name with
          | Some (i, j, info) => Some (S i, j, info)
          | None => None
          end
      end
  end.

(** [if (info->elements < elements) info->elements = elements;] *)
Definition maximize_elements (info : TagInfo) (n : Z) : TagInfo :=
  if elements info <? n then set_elements info n else info.

Definition on_list (f : ScanList -> ScanList) (pl : Period * ScanList)
  : Period * ScanList :=
  (fst pl, f (snd pl)).

(** After the PLC is defined, tags can be added.  [lists] are the scan
    lists of the PLC.  The tag that is moved to a faster list is one
    object, so that its new element count shows in the list it is on. *)
Definition drvEtherIP_add_tag (lists : list (Period * ScanList)) (period : Period)
    (tag_name : list ascii) (n : Z) (mem_list mem_tag : bool)
  : list (Period * ScanList) * option TagInfo :=
  match find_PLC_tag lists tag_name with
  | Some (i, j, info) =>
      let too_slow :=
        match lists !! i with
        | Some (list_period, _) => period_gt list_period period
        | None => false
        end in
      if too_slow then
        (* current scanlist is too slow *)
        let lists := alter (on_list (fun l => remove_ScanList_TagInfo l j)) i lists in
        match get_PLC_ScanList lists period true mem_list with
        | (lists, None) => (lists, None)
        | (lists, Some k) =>
            let info := maximize_elements info n in
            (alter (on_list (fun l => add_ScanList_TagInfo l info)) k lists,
             Some info)
        end
      else
        let info := maximize_elements info n in
        (alter (on_list (fun l =>
                  set_taginfos l
                    (alter (fun t => maximize_elements t n) j (taginfos l))))
           i lists,
         Some info)
  | None =>
      (* new tag *)
      match get_PLC_ScanList lists period true mem_list with
      | (lists, Some k) =>
          match lists !! k with
          | Some (_, scanlist) =>
              let '(scanlist, info) := add_ScanList_Tag scanlist tag_name n mem_tag in
              (alter (on_list (fun _ => scanlist)) k lists, info)
          | None => (lists, None)
          end
      | (lists, None) => (lists, None)
      end
  end.

(** Every tag of the lists, list by list. *)
Definition all_tags (lists : list (Period * ScanList)) : list TagInfo :=
  concat (map (fun pl => taginfos (snd pl)) lists).

Definition other_name (tag_name : list ascii) (info : TagInfo) : Prop :=
  string_tag info <> tag_name.

End Periods.

Arguments get_PLC_ScanList {Period}.
Arguments find_PLC_tag {Period}.
Arguments drvEtherIP_add_tag {Period}.
Arguments all_tags {Period}.
Arguments on_list {Period}.

(* ----------------------------------------------------------------- *)
(** *** One tag over the wire *)

(** [EIP_read_tag] and [EIP_write_tag] with the connection's buffer and
    its socket; the definition [EIP_read_tag] above keeps only the
    outcome of the transfer. *)
Module Wire.

(** Read a single tag in a single CIP_ReadData request.  [send] is the
    socket, [received] what [EIP_read_connection_buffer] leaves in the
    connection's buffer ([None]: no response).  The result is the buffer,
    the data pointer with [*data_size] (or the null pointer), and
    [*request_size] and [*response_size] after the call.  The formats of
    [EIP_unpack_RRData] are fixed, so that it always delivers. *)
Definition EIP_read_tag (c : EIPConnection) (b : GrowBuffer) (tag : ParsedTag)
    (elements : Z) (alloc : malloc_result) (send : list Z -> Z)
    (received : option GrowBuffer) (request_size response_size : Z)
  : GrowBuffer * option (Z * Z) * Z * Z :=
  let msg_size := CIP_ReadData_size tag in
  let send_size := CM_Unconnected_Send_size msg_size in
  let request_size := msg_size in
  match EIP_make_SendRRData c b send_size alloc with
  | (b, None) => (b, None, request_size, response_size)
  | (b, Some send_request) =>
      let '(m, msg_request) :=
        make_CM_Unconnected_Send (contents b) send_request msg_size in
      let '(m, _) := make_CIP_ReadData m msg_request tag elements in
      let b := mkGrowBuffer (Some m) (gb_size b) in
      if negb (EIP_send_connection_buffer m send)
      then (b, None, request_size, response_size)
      else
        match received with
        | None => (b, None, request_size, response_size)
        | Some b =>
            match EIP_unpack_RRData (contents b) 0 with
            | Some (response, rr_data) =>
                (b,
                 check_CIP_ReadData_Response (contents b) response
                   (rr_data_length rr_data),
                 request_size, rr_data_length rr_data)
            | None => (b, None, request_size, response_size)
            end
        end
  end.

(** Write a single tag in a single CIP_WriteData request; [data] is
    what lies at the data pointer.  [*response_size] is only filled in
    when the response is accepted. *)
Definition EIP_write_tag (c : EIPConnection) (b : GrowBuffer) (tag : ParsedTag)
    (type elements : Z) (data : list Z) (alloc : malloc_result)
    (send : list Z -> Z) (received : option GrowBuffer)
    (request_size response_size : Z)
  : GrowBuffer * bool * Z * Z :=
  let data_size := size_t_wrap (CIP_Type_size type * elements) in
  let msg_size := CIP_WriteData_size tag data_size in
  let send_size := CM_Unconnected_Send_size msg_size in
  let request_size := msg_size in
  match EIP_make_SendRRData c b send_size alloc with
  | (b, None) => (b, false, request_size, response_size)
  | (b, Some send_request) =>
      let '(m, msg_request) :=
        make_CM_Unconnected_Send (contents b) send_request msg_size in
      let '(m, _) := make_CIP_WriteData m msg_request tag type elements data in
      let b := mkGrowBuffer (Some m) (gb_size b) in
      if negb (EIP_send_connection_buffer m send)
      then (b, false, request_size, response_size)
      else
        match received with
        | None => (b, false, request_size, response_size)
        | Some b =>
            match EIP_unpack_RRData (contents b) 0 with
            | Some (response, rr_data) =>
                if negb (check_CIP_WriteData_Response (contents b) response
                           (rr_data_length rr_data))
                then (b, false, request_size, response_size)
                else (b, true, request_size, rr_data_length rr_data)
            | None => (b, false, request_size, response_size)
            end
        end
  end.

End Wire.

(** The frame of a tag read: encapsulation header and RRData, the
    Unconnected_Send request, the CIP_ReadData request inside it, and the
    path to the PLC. *)
Definition read_tag_frame (c : EIPConnection) (tag : ParsedTag)
    (elements : Z) : list Z :=
  let msg_size := 4 + wire_length tag in
  packed (encapsulation_header_fields EC_SendRRData (16 + (14 + msg_size))
            (session c) 0)
  ++ packed (RRData_fields (14 + msg_size))
  ++ unconnected_send_header msg_size
  ++ read_request_image tag elements
  ++ unconnected_send_trailer.

(** The frame of a tag write, for a message of [msg_size] octets.  A
    message of odd size is followed by one octet that the builders do not
    store: [pad] is what the buffer holds there. *)
Definition write_tag_frame (c : EIPConnection) (tag : ParsedTag)
    (type elements : Z) (data pad : list Z) : list Z :=
  let msg_size := 6 + wire_length tag + Z.of_nat (List.length data) in
  packed (encapsulation_header_fields EC_SendRRData
            (16 + (14 + padded msg_size)) (session c) 0)
  ++ packed (RRData_fields (14 + padded msg_size))
  ++ unconnected_send_header msg_size
  ++ write_request_image tag type elements data
  ++ pad
  ++ unconnected_send_trailer.

(* ----------------------------------------------------------------- *)
(** *** The responses of one transfer *)

(** How a loop over the tags ends: it runs to its end, it leaves with
    [return false], or it goes through the null pointer. *)
Inductive Outcome (A : Type) : Type :=
  | done (a : A)
  | failed
  | null_pointer.

Arguments done {A} a.
Arguments failed {A}.
Arguments null_pointer {A}.

Definition keep {A : Type} (x : A) (o : Outcome (list A)) : Outcome (list A) :=
  match o with
  | done l => done (x :: l)
  | failed => failed
  | null_pointer => null_pointer
  end.

(** [process_ScanList], last loop: handle the individual read/write
    responses of the [count] tags of the transfer, from the tag [info]
    on.  [allocs] is what [malloc] gives for each tag of the list, should
    its buffer have to grow.  [data_size] is the local of that name: it
    is set by [check_CIP_ReadData_Response] when the response is
    accepted, and keeps its value otherwise, while [data] is the null
    pointer then. *)
Fixpoint responses_loop (m : list Z) (response response_size : Z)
    (info : list TagInfo) (allocs : list malloc_result)
    (i count data_size : Z) : Outcome (list TagInfo) :=
  if negb (i <? count) then done info
  else
    match info with
    | [] => null_pointer
    | t :: next =>
        let alloc := hd None allocs in
        let allocs := tl allocs in
        if cip_r_request_size t <=? 0 then
          keep t (responses_loop m response response_size next allocs
                    i count data_size)
        else
          match get_CIP_MultiRequest_Response m response response_size i with
          | None => failed
          | Some (single_response, single_response_size) =>
              match semTake (data_lock t) with
              | ERROR => failed
              | OK =>
                  let continue (r : option TagInfo) (data_size : Z) :=
                    match r with
                    | Some t' =>
                        keep t' (responses_loop m response response_size
                                   next allocs (size_t_wrap (i + 1)) count
                                   data_size)
                    | None => failed
                    end in
                  if is_writing t then
                    let write_ok :=
                      check_CIP_WriteData_Response m single_response
                        single_response_size in
                    continue (response_item t write_ok [] data_size alloc)
                      data_size
                  else
                    (* not writing, reading *)
                    match check_CIP_ReadData_Response m single_response
                            single_response_size with
                    | Some (data, data_size) =>
                        continue
                          (response_item t false (region m data data_size)
                             data_size alloc)
                          data_size
                    | None =>
                        if negb (do_write t) && (data_size >? 0)
                           && snd (EIP_reserve_buffer (tag_data t) data_size
                                     alloc)
                        then null_pointer    (* memcpy (info->data, 0, ...) *)
                        else
                          continue (response_item t false [] data_size alloc)
                            data_size
                    end
              end
          end
    end.

(** The response to a read that the target accepted: service 0x4C with
    the reply bit, status 0, no extended status, and the data. *)
Definition read_reply (d : list Z) : list Z :=
  mr_response_image (Z.lor S_CIP_ReadData 0x80) 0 [] d.

(** A response to a CIP_MultiRequest that the target accepted, with the
    given replies. *)
Definition multi_reply (replies : list (list Z)) : list Z :=
  mr_response_image (Z.lor S_CIP_MultiRequest 0x80) 0 []
    (multi_response_data replies).

(** The tag [t'] is the tag [t] with the data [d] in its buffer. *)
Definition stored (t t' : TagInfo) (d : list Z) : Prop :=
  valid_data_size t' = Z.of_nat (List.length d) /\
  take (List.length d) (contents (tag_data t')) = d /\
  tag_data_wf t' /\
  write_state t' = write_state t.

(** A tag that is read, at rest and with its lock free, whose buffer can
    take the data [d]: it is large enough, or [malloc] delivers. *)
Definition ready_for (t : TagInfo) (d : list Z) (alloc : malloc_result)
  : Prop :=
  0 < cip_r_request_size t /\
  data_lock t = sem_free /\ is_writing t = false /\ do_write t = false /\
  tag_data_wf t /\
  d <> [] /\ Z.of_nat (List.length d) < 2 ^ 32 /\
  malloc_wf (Z.of_nat (List.length d)) alloc /\
  (gb_size (tag_data t) < Z.of_nat (List.length d) -> alloc <> None).

(** The tags of a transfer are ready for the data [ds] of their read
    replies; a tag without read request size is not part of the
    transfer. *)
Inductive transfer_ready
  : list TagInfo -> list (list Z) -> list malloc_result -> Prop :=
  | ready_done infos allocs : transfer_ready infos [] allocs
  | ready_skip t infos ds allocs :
      cip_r_request_size t = 0 ->
      transfer_ready infos ds (tl allocs) ->
      transfer_ready (t :: infos) ds allocs
  | ready_read t infos d ds allocs :
      ready_for t d (hd None allocs) ->
      transfer_ready infos ds (tl allocs) ->
      transfer_ready (t :: infos) (d :: ds) allocs.

(** The tags after the transfer: every tag of the transfer holds the
    data of its own reply, the other tags are as they were. *)
Inductive replies_stored
  : list TagInfo -> list (list Z) -> list TagInfo -> Prop :=
  | stored_done infos : replies_stored infos [] infos
  | stored_skip t infos ds infos' :
      cip_r_request_size t = 0 ->
      replies_stored infos ds infos' ->
      replies_stored (t :: infos) ds (t :: infos')
  | stored_read t t' infos d ds infos' :
      0 < cip_r_request_size t ->
      stored t t' d ->
      replies_stored infos ds infos' ->
      replies_stored (t :: infos) (d :: ds) (t' :: infos').

(* ================================================================= *)
(** * Buffers: what a sequence of stores leaves behind *)

Lemma poke_write_at m p v :
  0 <= p < Z.of_nat (length m) ->
  poke m p v = write_at m p [CN_USINT_wrap v].
Proof.
  intros H. unfold poke, write_at.
  rewrite insert_take_drop by lia.
  simpl. do 2 f_equal. f_equal. lia.
Qed.

Lemma write_at_length m p l :
  0 <= p -> p + Z.of_nat (length l) <= Z.of_nat (length m) ->
  length (write_at m p l) = length m.
Proof.
  intros Hp H. unfold write_at.
  rewrite !length_app, length_take, length_drop. lia.
Qed.

Lemma write_at_nil m p : write_at m p [] = m.
Proof.
  unfold write_at. simpl. rewrite Nat.add_0_r. apply take_drop.
Qed.

Lemma write_at_app m p l1 l2 :
  0 <= p ->
  p + Z.of_nat (length l1) + Z.of_nat (length l2) <= Z.of_nat (length m) ->
  write_at (write_at m p l1) (p + Z.of_nat (length l1)) l2
  = write_at m p (l1 ++ l2).
Proof.
  intros Hp H. unfold write_at.
  assert (Hlen : length (take (Z.to_nat p) m ++ l1)
                 = Z.to_nat (p + Z.of_nat (length l1))).
  { rewrite length_app, length_take. lia. }
  rewrite <- Hlen.
  rewrite (app_assoc (take (Z.to_nat p) m) l1).
  rewrite take_app_length, drop_app_add, drop_drop.
  rewrite <- !app_assoc. do 3 f_equal.
  rewrite length_app. f_equal. lia.
Qed.

Lemma write_at_app' m p q l1 l2 :
  q = p + Z.of_nat (length l1) -> 0 <= p ->
  q + Z.of_nat (length l2) <= Z.of_nat (length m) ->
  write_at (write_at m p l1) q l2 = write_at m p (l1 ++ l2).
Proof. intros -> Hp H. apply write_at_app; lia. Qed.

(** Storing over the middle of what was written. *)
Lemma write_at_overwrite m p q A X Y B :
  q = p + Z.of_nat (length A) -> 0 <= p -> length X = length Y ->
  p + Z.of_nat (length (A ++ X ++ B)) <= Z.of_nat (length m) ->
  write_at (write_at m p (A ++ X ++ B)) q Y = write_at m p (A ++ Y ++ B).
Proof.
  intros -> Hp HXY H. unfold write_at.
  rewrite !length_app in *.
  assert (Hl : length (take (Z.to_nat p) m ++ A)
               = Z.to_nat (p + Z.of_nat (length A)))
    by (rewrite length_app, length_take; lia).
  rewrite <- Hl. rewrite <- !app_assoc.
  rewrite !(app_assoc (take (Z.to_nat p) m) A).
  rewrite take_app_length, drop_app_add.
  rewrite <- HXY, drop_app_length.
  rewrite <- !app_assoc. reflexivity.
Qed.

Lemma peek_write_at m p l q :
  0 <= p -> p + Z.of_nat (length l) <= Z.of_nat (length m) ->
  p <= q < p + Z.of_nat (length l) ->
  peek (write_at m p l) q = default 0 (l !! Z.to_nat (q - p)).
Proof.
  intros Hp H Hq. unfold peek, write_at.
  rewrite lookup_app_r by (rewrite length_take; lia).
  rewrite length_take.
  rewrite lookup_app_l by lia.
  do 2 f_equal. lia.
Qed.

Lemma peek_write_at_mid m p q A x B :
  q = p + Z.of_nat (length A) -> 0 <= p ->
  p + Z.of_nat (length (A ++ x :: B)) <= Z.of_nat (length m) ->
  peek (write_at m p (A ++ x :: B)) q = x.
Proof.
  intros -> Hp H.
  rewrite peek_write_at by (rewrite ?length_app in *; simpl in *; lia).
  replace (Z.to_nat (p + Z.of_nat (length A) - p)) with (length A) by lia.
  rewrite list_lookup_middle by reflexivity. reflexivity.
Qed.

Lemma region_write_at m p l :
  0 <= p -> p + Z.of_nat (length l) <= Z.of_nat (length m) ->
  region (write_at m p l) p (Z.of_nat (length l)) = l.
Proof.
  intros Hp H. unfold region, write_at.
  rewrite drop_app_length' by (rewrite length_take; lia).
  rewrite Nat2Z.id. apply take_app_length.
Qed.

Lemma region_write_at_before m q l p n :
  0 <= p -> 0 <= n -> p + n <= q ->
  q + Z.of_nat (length l) <= Z.of_nat (length m) ->
  region (write_at m q l) p n = region m p n.
Proof.
  intros Hp Hn Hq H. unfold region, write_at.
  rewrite !take_drop_commute.
  rewrite take_app_le by (rewrite length_take; lia).
  rewrite take_take. do 2 f_equal. lia.
Qed.

Lemma region_write_at_after m q l p n :
  0 <= q -> q + Z.of_nat (length l) <= p ->
  q + Z.of_nat (length l) <= Z.of_nat (length m) ->
  region (write_at m q l) p n = region m p n.
Proof.
  intros Hq Hp H. unfold region, write_at. f_equal.
  rewrite app_assoc.
  rewrite drop_app_ge by (rewrite length_app, length_take; lia).
  rewrite drop_drop. f_equal.
  rewrite length_app, length_take. lia.
Qed.

Lemma length_poke m p v : length (poke m p v) = length m.
Proof. unfold poke. apply length_insert. Qed.

(** The next store right behind what was written so far. *)
Lemma poke_after_write m p l q v :
  q = p + Z.of_nat (length l) -> 0 <= p -> q < Z.of_nat (length m) ->
  poke (write_at m p l) q v = write_at m p (l ++ [CN_USINT_wrap v]).
Proof.
  intros -> Hp H.
  rewrite poke_write_at by (rewrite write_at_length; lia).
  apply write_at_app; simpl; lia.
Qed.

Lemma memcpy_after_write src : forall m p l q,
  q = p + Z.of_nat (length l) -> 0 <= p ->
  q + Z.of_nat (length src) <= Z.of_nat (length m) ->
  memcpy (write_at m p l) q src = write_at m p (l ++ map CN_USINT_wrap src).
Proof.
  induction src as [|v src IH]; intros m p l q Hq Hp H; simpl in *.
  - rewrite app_nil_r. reflexivity.
  - rewrite poke_after_write by lia.
    rewrite IH by (rewrite ?length_app; simpl; lia).
    rewrite <- app_assoc. reflexivity.
Qed.

(** A store that continues a run of stores; the side conditions are
    about lengths only. *)
Ltac next_poke :=
  rewrite poke_after_write by (rewrite ?length_app; simpl; lia).

(* ----------------------------------------------------------------- *)
(** ** Octets of a number *)

Lemma CN_USINT_wrap_small v : 0 <= v < 256 -> CN_USINT_wrap v = v.
Proof. intros H. unfold CN_USINT_wrap. apply Z.mod_small. lia. Qed.

Lemma wrap_octet v : CN_USINT_wrap (v mod 2 ^ 8) = v mod 2 ^ 8.
Proof. unfold CN_USINT_wrap. apply Z.mod_mod. lia. Qed.

Lemma size_t_wrap_small v : 0 <= v < 2 ^ 32 -> size_t_wrap v = v.
Proof.
  intros H. unfold size_t_wrap, SIZE_T_BITS. apply Z.mod_small. lia.
Qed.

Lemma land_low_octet v : Z.land v 0xFF = v mod 2 ^ 8.
Proof. change 0xFF with (Z.ones 8). apply Z.land_ones. lia. Qed.

Lemma land_shiftr_octet v k :
  0 <= k ->
  Z.shiftr (Z.land v (Z.shiftl 0xFF k)) k = (v / 2 ^ k) mod 2 ^ 8.
Proof.
  intros Hk.
  rewrite Z.shiftr_land, Z.shiftr_shiftl_l by lia.
  rewrite Z.sub_diag, Z.shiftl_0_r, land_low_octet.
  rewrite Z.shiftr_div_pow2 by lia. reflexivity.
Qed.

Lemma land_shiftr_octet1 v :
  Z.shiftr (Z.land v 0xFF00) 8 = (v / 2 ^ 8) mod 2 ^ 8.
Proof. apply (land_shiftr_octet v 8). lia. Qed.

Lemma land_shiftr_octet2 v :
  Z.shiftr (Z.land v 0xFF0000) 16 = (v / 2 ^ 16) mod 2 ^ 8.
Proof. apply (land_shiftr_octet v 16). lia. Qed.

Lemma land_shiftr_octet3 v :
  Z.shiftr (Z.land v 0xFF000000) 24 = (v / 2 ^ 24) mod 2 ^ 8.
Proof. apply (land_shiftr_octet v 24). lia. Qed.

Lemma le_bytes16_wrap v : le_bytes16 (CN_UINT_wrap v) = le_bytes16 v.
Proof.
  unfold le_bytes16, CN_UINT_wrap.
  change (2 ^ 16) with 65536. change (2 ^ 8) with 256.
  f_equal; [|f_equal]; Z.div_mod_to_equations; lia.
Qed.

Lemma le_bytes16_size_t_wrap v : le_bytes16 (size_t_wrap v) = le_bytes16 v.
Proof.
  unfold le_bytes16, size_t_wrap, SIZE_T_BITS.
  change (2 ^ 32) with 4294967296. change (2 ^ 8) with 256.
  f_equal; [|f_equal]; Z.div_mod_to_equations; lia.
Qed.

Lemma lor_shiftl_octets a b :
  0 <= a < 2 ^ 8 -> 0 <= b ->
  Z.lor a (Z.shiftl b 8) = a + b * 2 ^ 8.
Proof.
  intros Ha Hb.
  rewrite Z.shiftl_mul_pow2 by lia.
  rewrite <- Z.lxor_lor, <- Z.add_nocarry_lxor; try reflexivity.
  all: apply Z.bits_inj'; intros n Hn;
    rewrite Z.land_spec, Z.bits_0;
    destruct (Z.lt_ge_cases n 8) as [Hlt|Hge].
  all: try (rewrite Z.mul_pow2_bits_low by lia; apply andb_false_r).
  all: replace a with (a mod 2 ^ 8) by (apply Z.mod_small; lia);
    rewrite Z.mod_pow2_bits_high by lia; reflexivity.
Qed.

Lemma pack_UINT_write m buf v :
  0 <= buf -> buf + 2 <= Z.of_nat (length m) ->
  pack_UINT m buf v = (write_at m buf (le_bytes16 v), buf + 2).
Proof.
  intros H0 H. unfold pack_UINT.
  rewrite land_low_octet, land_shiftr_octet1.
  rewrite (poke_write_at m buf) by lia.
  next_poke.
  rewrite !wrap_octet. simpl.
  f_equal. f_equal. apply le_bytes16_wrap.
Qed.

Lemma pack_UINT_after_write m p l q v :
  q = p + Z.of_nat (length l) -> 0 <= p -> q + 2 <= Z.of_nat (length m) ->
  pack_UINT (write_at m p l) q v = (write_at m p (l ++ le_bytes16 v), q + 2).
Proof.
  intros Hq Hp H.
  rewrite pack_UINT_write; [|lia|rewrite write_at_length; lia].
  rewrite write_at_app' by (simpl; lia). reflexivity.
Qed.

Lemma pack_UINT_in_image m p q A X B v :
  q = p + Z.of_nat (length A) -> 0 <= p -> length X = 2%nat ->
  p + Z.of_nat (length (A ++ X ++ B)) <= Z.of_nat (length m) ->
  pack_UINT (write_at m p (A ++ X ++ B)) q v
  = (write_at m p (A ++ le_bytes16 v ++ B), q + 2).
Proof.
  intros Hq Hp HX H.
  rewrite pack_UINT_write;
    [|lia|rewrite write_at_length by lia; rewrite !length_app in H; lia].
  rewrite write_at_overwrite; auto.
Qed.

Lemma unpack_UINT_in_image m p q A v B :
  q = p + Z.of_nat (length A) -> 0 <= p ->
  p + Z.of_nat (length (A ++ le_bytes16 v ++ B)) <= Z.of_nat (length m) ->
  unpack_UINT (write_at m p (A ++ le_bytes16 v ++ B)) q
  = (CN_UINT_wrap v, q + 2).
Proof.
  intros Hq Hp H. unfold unpack_UINT.
  unfold le_bytes16 in *. cbn [app] in *.
  rewrite (peek_write_at_mid m p q A) by assumption.
  replace (A ++ v mod 2 ^ 8 :: (v `div` 2 ^ 8) mod 2 ^ 8 :: B)
    with ((A ++ [v mod 2 ^ 8]) ++ (v `div` 2 ^ 8) mod 2 ^ 8 :: B)
    by (rewrite <- app_assoc; reflexivity).
  rewrite peek_write_at_mid;
    [|rewrite length_app; simpl; lia|lia
     |rewrite <- app_assoc; simpl; rewrite length_app in *; simpl in *; lia].
  f_equal.
  rewrite lor_shiftl_octets.
  - unfold CN_UINT_wrap. change (2 ^ 16) with 65536. change (2 ^ 8) with 256.
    Z.div_mod_to_equations; lia.
  - apply Z.mod_pos_bound. lia.
  - apply Z.mod_pos_bound. lia.
Qed.

Lemma take_write_at m p l :
  0 <= p -> p + Z.of_nat (length l) <= Z.of_nat (length m) ->
  take (Z.to_nat p) (write_at m p l) = take (Z.to_nat p) m.
Proof.
  intros Hp H. unfold write_at.
  apply take_app_length'. rewrite length_take. lia.
Qed.

Lemma drop_write_at m p l :
  0 <= p -> p + Z.of_nat (length l) <= Z.of_nat (length m) ->
  drop (Z.to_nat (p + Z.of_nat (length l))) (write_at m p l)
  = drop (Z.to_nat (p + Z.of_nat (length l))) m.
Proof.
  intros Hp H. unfold write_at. rewrite app_assoc.
  rewrite drop_app_length' by (rewrite length_app, length_take; lia).
  f_equal. lia.
Qed.

(* ================================================================= *)
(** * The CIP path of a tag *)

Lemma char_code_range c : 0 <= char_code c < 256.
Proof.
  unfold char_code. pose proof (nat_ascii_bounded c). lia.
Qed.

Lemma map_wrap_char_code s :
  map CN_USINT_wrap (map char_code s) = map char_code s.
Proof.
  induction s as [|c s IH]; simpl; [reflexivity|].
  rewrite IH, CN_USINT_wrap_small by apply char_code_range. reflexivity.
Qed.

Lemma name_segment_length name :
  Z.of_nat (length (name_segment name)) = 2 + strlen name + strlen name mod 2.
Proof.
  unfold name_segment. rewrite !length_app, length_map. unfold strlen.
  rewrite Zmod_odd. destruct (Z.odd _); simpl; lia.
Qed.

Lemma index_segment_length index :
  Z.of_nat (length (index_segment index)) =
  if index <=? 0xFF then 2 else if index <=? 0xFFFF then 4 else 6.
Proof.
  unfold index_segment. destruct (index <=? 0xFF); [reflexivity|].
  destruct (index <=? 0xFFFF); reflexivity.
Qed.

Lemma segment_length_even e :
  Z.even (Z.of_nat (length (segment_bytes e))) = true.
Proof.
  destruct e as [name|index]; cbn [segment_bytes].
  - rewrite name_segment_length.
    rewrite Zmod_odd. rewrite <- Z.negb_even.
    destruct (Z.even (strlen name)) eqn:E; simpl.
    + rewrite Z.add_0_r, Z.even_add, E. reflexivity.
    + replace (2 + strlen name + 1) with (strlen name + 1 + 2) by lia.
      rewrite Z.even_add, Z.even_add, E. reflexivity.
  - rewrite index_segment_length.
    destruct (index <=? 0xFF); [reflexivity|].
    destruct (index <=? 0xFFFF); reflexivity.
Qed.

Lemma wire_length_cons e tag :
  wire_length (e :: tag)
  = Z.of_nat (length (segment_bytes e)) + wire_length tag.
Proof.
  unfold wire_length, wire_path. simpl. rewrite length_app. lia.
Qed.

Lemma wire_length_nonneg tag : 0 <= wire_length tag.
Proof. unfold wire_length. lia. Qed.

Lemma wire_length_even tag : Z.even (wire_length tag) = true.
Proof.
  induction tag as [|e tag IH].
  - reflexivity.
  - rewrite wire_length_cons, Z.even_add, IH, segment_length_even.
    reflexivity.
Qed.

Lemma tag_path_bytes_length tag : forall bytes,
  0 <= bytes -> bytes + wire_length tag < 2 ^ 32 ->
  tag_path_bytes tag bytes = bytes + wire_length tag.
Proof.
  induction tag as [|e tag IH]; intros bytes Hb H.
  - simpl. unfold wire_length. simpl. lia.
  - rewrite wire_length_cons in H |- *.
    pose proof (wire_length_nonneg tag).
    destruct e as [name|index]; simpl tag_path_bytes.
    + cbn [segment_bytes] in H |- *. rewrite name_segment_length in H |- *.
      assert (0 <= strlen name) by (unfold strlen; lia).
      assert (0 <= strlen name mod 2 < 2) by (apply Z.mod_pos_bound; lia).
      rewrite size_t_wrap_small by lia.
      rewrite IH by lia. lia.
    + cbn [segment_bytes] in H |- *. rewrite index_segment_length in H |- *.
      destruct (index <=? 0xFF); [|destruct (index <=? 0xFFFF)];
        rewrite size_t_wrap_small by lia; rewrite IH by lia; lia.
Qed.

Lemma tag_path_size_words tag :
  wire_length tag < 2 ^ 32 -> wire_length tag = 2 * tag_path_size tag.
Proof.
  intros H. unfold tag_path_size.
  pose proof (wire_length_nonneg tag).
  rewrite tag_path_bytes_length by lia. rewrite Z.add_0_l.
  pose proof (wire_length_even tag) as He.
  apply Z.even_spec in He. destruct He as [k Hk]. rewrite Hk.
  rewrite Z.mul_comm, Z.div_mul by lia. lia.
Qed.

(** The loop of [make_tag_path], continuing a run of stores that began
    at [p0]. *)
Lemma make_tag_path_write tag : forall m path l0 p0,
  Forall segment_in_range tag ->
  path = p0 + Z.of_nat (length l0) -> 0 <= p0 ->
  path + wire_length tag <= Z.of_nat (length m) ->
  make_tag_path (write_at m p0 l0) path tag
  = (write_at m p0 (l0 ++ wire_path tag), path + wire_length tag).
Proof.
  induction tag as [|e tag IH]; intros m path l0 p0 Hr Hpath Hp0 Hlen.
  - simpl. unfold wire_length, wire_path. simpl.
    rewrite app_nil_r, Z.add_0_r. reflexivity.
  - apply Forall_cons in Hr. destruct Hr as [He Hr].
    rewrite wire_length_cons in Hlen |- *.
    pose proof (wire_length_nonneg tag).
    destruct e as [name|index]; simpl make_tag_path.
    + cbn [segment_bytes segment_in_range] in He, Hlen.
      rewrite name_segment_length in Hlen.
      assert (0 <= strlen name) by (unfold strlen; lia).
      assert (0 <= strlen name mod 2 < 2) by (apply Z.mod_pos_bound; lia).
      rewrite poke_after_write by lia.
      next_poke.
      rewrite memcpy_after_write
        by (rewrite ?length_app, ?length_map; simpl; unfold strlen in *; lia).
      rewrite map_wrap_char_code.
      rewrite !CN_USINT_wrap_small by lia.
      assert (Hpad :
        (if strlen name mod 2 =? 0
         then write_at m p0
                (((l0 ++ [145]) ++ [strlen name]) ++ map char_code name)
         else poke (write_at m p0
                      (((l0 ++ [145]) ++ [strlen name]) ++ map char_code name))
                (path + (2 + strlen name)) 0)
        = write_at m p0 (l0 ++ name_segment name)).
      { unfold name_segment. rewrite Zmod_odd in *.
        destruct (Z.odd (strlen name)) eqn:E; simpl (_ =? _).
        - rewrite poke_after_write
            by (rewrite ?length_app, ?length_map; simpl;
                unfold strlen in *; lia).
          rewrite CN_USINT_wrap_small by lia.
          f_equal. rewrite <- !app_assoc. reflexivity.
        - f_equal. rewrite <- !app_assoc, app_nil_r. reflexivity. }
      rewrite Hpad.
      rewrite IH; try assumption.
      * unfold wire_path. cbn [map concat segment_bytes].
        rewrite <- app_assoc.
        f_equal. rewrite name_segment_length. lia.
      * rewrite length_app, Nat2Z.inj_add, name_segment_length. lia.
      * lia.
    + cbn [segment_bytes segment_in_range] in He, Hlen.
      rewrite index_segment_length in Hlen.
      cbn [segment_bytes]. rewrite index_segment_length.
      unfold wire_path. cbn [map concat segment_bytes]. unfold index_segment.
      destruct (index <=? 0xFF) eqn:E1; [|destruct (index <=? 0xFFFF) eqn:E2].
      * rewrite poke_after_write by lia.
        next_poke.
        rewrite !CN_USINT_wrap_small by lia.
        rewrite IH; try assumption;
          [|rewrite ?length_app; simpl; lia|lia].
        rewrite <- !app_assoc. simpl. f_equal. lia.
      * rewrite land_low_octet, land_shiftr_octet1.
        rewrite poke_after_write by lia.
        do 3 next_poke.
        rewrite !wrap_octet. rewrite !CN_USINT_wrap_small by lia.
        rewrite IH; try assumption;
          [|rewrite ?length_app; simpl; lia|lia].
        rewrite <- !app_assoc. simpl. f_equal. lia.
      * rewrite land_low_octet, land_shiftr_octet1, land_shiftr_octet2,
          land_shiftr_octet3.
        rewrite poke_after_write by lia.
        do 5 next_poke.
        rewrite !wrap_octet. rewrite !CN_USINT_wrap_small by lia.
        rewrite IH; try assumption;
          [|rewrite ?length_app; simpl; lia|lia].
        rewrite <- !app_assoc. simpl. f_equal. lia.
Qed.

(** C4: for every ParsedTag within the ranges of the data model,
    [make_tag_path] emits, segment by segment, [0x91, len, name] with one
    zero pad octet iff len is odd for a name, and [0x28, index],
    [0x29, 0x00, index as 2 little-endian octets] or
    [0x2A, 0x00, index as 4 little-endian octets] for an index up to
    0xFF, up to 0xFFFF, or beyond; nothing else in the buffer changes; the
    number of octets emitted is even and is [2 * tag_path_size tag], the
    path length in 16-bit words. *)
Theorem make_tag_path_emits_wire_path (tag : ParsedTag) (m : list Z) (path : Z) :
  Forall segment_in_range tag ->
  0 <= path ->
  path + wire_length tag <= Z.of_nat (length m) ->
  wire_length tag < 2 ^ 32 ->
  let m' := fst (make_tag_path m path tag) in
  let path' := snd (make_tag_path m path tag) in
  region m' path (path' - path) = wire_path tag /\
  take (Z.to_nat path) m' = take (Z.to_nat path) m /\
  drop (Z.to_nat path') m' = drop (Z.to_nat path') m /\
  Z.even (path' - path) = true /\
  path' - path = 2 * tag_path_size tag.
Proof.
  intros Hr Hp Hlen Hfit m' path'. subst m' path'.
  pose proof (make_tag_path_write tag m path [] path Hr) as Hw.
  rewrite write_at_nil in Hw. rewrite Hw by (simpl; lia).
  cbn [fst snd app].
  replace (path + wire_length tag - path) with (wire_length tag) by lia.
  unfold wire_length in *.
  split; [apply region_write_at; lia|].
  split; [apply take_write_at; lia|].
  split; [apply drop_write_at; lia|].
  split; [apply wire_length_even|].
  apply tag_path_size_words. exact Hfit.
Qed.

(** A tag with two names and the three sizes of index, as parsed from
    [Fred[5].abc[300][70000]]. *)
Definition sample_tag : ParsedTag :=
  [te_name (list_ascii_of_string "Fred"); te_element 5;
   te_name (list_ascii_of_string "abc"); te_element 300; te_element 70000].

Lemma make_tag_path_emits_wire_path_witness :
  let m := replicate 40 0 in
  (Forall segment_in_range sample_tag /\ wire_length sample_tag = 24) /\
  region (fst (make_tag_path m 2 sample_tag)) 2
    (snd (make_tag_path m 2 sample_tag) - 2)
  = [0x91; 4; 70; 114; 101; 100; 0x28; 5; 0x91; 3; 97; 98; 99; 0;
     0x29; 0; 44; 1; 0x2A; 0; 112; 17; 1; 0] /\
  snd (make_tag_path m 2 sample_tag) - 2 = 2 * tag_path_size sample_tag.
Proof.
  intros m.
  assert (Hr : Forall segment_in_range sample_tag)
    by (repeat constructor; cbv; congruence).
  split; [split; [exact Hr|reflexivity]|].
  destruct (make_tag_path_emits_wire_path sample_tag m 2 Hr)
    as (Hreg & _ & _ & _ & Hsize).
  - lia.
  - vm_compute. congruence.
  - vm_compute. reflexivity.
  - split; [exact Hreg|exact Hsize].
Defined.

(* ================================================================= *)
(** * Parsing a tag *)






































(* ================================================================= *)
(** * Connection Manager: tick time and CM_Unconnected_Send *)

Lemma calc_tick_time_loop_step millisec tick_time :
  calc_tick_time_loop millisec tick_time =
  if millisec >? 0xFF
  then calc_tick_time_loop (Z.shiftr millisec 1) (CN_USINT_wrap (tick_time + 1))
  else (tick_time, CN_USINT_wrap millisec).
Proof.
  rewrite calc_tick_time_loop_equation_1.
  destruct (Z_gt_dec millisec 255) as [H|H].
  - replace (millisec >? 255) with true by lia. reflexivity.
  - replace (millisec >? 255) with false by lia. reflexivity.
Qed.

(** A budget of at most [255 * 2 ^ n] needs at most [n] halvings. *)
Lemma calc_tick_time_loop_spec (n : nat) : forall millisec tick_time,
  0 <= millisec <= 255 * 2 ^ Z.of_nat n ->
  0 <= tick_time -> tick_time + Z.of_nat n <= 255 ->
  exists k, 0 <= k <= Z.of_nat n /\
    calc_tick_time_loop millisec tick_time
      = (tick_time + k, Z.shiftr millisec k) /\
    Z.shiftr millisec k <= 255 /\
    forall j, 0 <= j < k -> Z.shiftr millisec j > 255.
Proof.
  induction n as [|n IH]; intros millisec tick_time Hm Ht Hn.
  - exists 0. rewrite calc_tick_time_loop_step.
    change (2 ^ Z.of_nat 0) with 1 in Hm.
    replace (millisec >? 255) with false by lia.
    rewrite Z.shiftr_0_r, Z.add_0_r, CN_USINT_wrap_small by lia.
    repeat split; try lia.
  - rewrite calc_tick_time_loop_step.
    destruct (millisec >? 255) eqn:E.
    + assert (Hs : Z.shiftr millisec 1 = millisec / 2)
        by (rewrite Z.shiftr_div_pow2 by lia; reflexivity).
      rewrite Nat2Z.inj_succ, Z.pow_succ_r in Hm by lia.
      rewrite CN_USINT_wrap_small by lia.
      destruct (IH (Z.shiftr millisec 1) (tick_time + 1))
        as (k & Hk & Heq & Hle & Hmin).
      * rewrite Hs. split; [apply Z.div_pos; lia|].
        apply Z.div_le_upper_bound; lia.
      * lia.
      * lia.
      * exists (k + 1). rewrite Z.shiftr_shiftr in * by lia.
        rewrite (Z.add_comm k 1).
        repeat split; try lia.
        -- rewrite Heq. f_equal. lia.
        -- intros j Hj. destruct (Z.eq_dec j 0) as [->|Hj0].
           ++ rewrite Z.shiftr_0_r. lia.
           ++ replace j with (1 + (j - 1)) by lia.
              rewrite <- Z.shiftr_shiftr by lia. apply Hmin. lia.
    + exists 0.
      rewrite Z.shiftr_0_r, Z.add_0_r, CN_USINT_wrap_small by lia.
      repeat split; try lia.
Qed.

Lemma calc_tick_time_default : calc_tick_time 245760 = Some (10, 240).
Proof.
  unfold calc_tick_time. simpl (_ >? _). cbv iota.
  do 11 (rewrite calc_tick_time_loop_step; simpl).
  reflexivity.
Qed.

Lemma make_CM_Unconnected_Send_write m request message_size :
  0 <= request -> 0 <= message_size ->
  request + 14 + padded message_size <= Z.of_nat (length m) ->
  make_CM_Unconnected_Send m request message_size =
  (write_at (write_at m request (unconnected_send_header message_size))
            (request + 10 + padded message_size) unconnected_send_trailer,
   request + 10).
Proof.
  intros Hr Hs Hlen. unfold padded in *.
  assert (0 <= message_size mod 2 < 2) by (apply Z.mod_pos_bound; lia).
  unfold make_CM_Unconnected_Send. rewrite calc_tick_time_default.
  unfold make_MR_Request, make_CIA_path, pack_USINT, make_port_path,
    port_path_size, CIA_path_size, S_CM_Unconnected_Send, C_ConnectionManager.
  change (CN_USINT_wrap 0 =? 0) with true. cbv iota beta.
  rewrite (poke_write_at m request) by lia.
  do 7 next_poke.
  rewrite pack_UINT_after_write by (simpl; lia).
  cbv iota beta.
  f_equal; [|lia].
  change (write_at m request _)
    with (write_at m request (unconnected_send_header message_size)).
  set (M := write_at m request _).
  assert (HM : length M = length m)
    by (apply write_at_length; simpl; lia).
  rewrite (poke_write_at M) by lia.
  do 3 next_poke.
  simpl. f_equal. lia.
Qed.

Lemma CM_Unconnected_Send_size_value message_size :
  0 <= message_size -> 14 + padded message_size < 2 ^ 32 ->
  CM_Unconnected_Send_size message_size = 14 + padded message_size.
Proof.
  intros Hs H. unfold padded in *.
  assert (0 <= message_size mod 2 < 2) by (apply Z.mod_pos_bound; lia).
  unfold CM_Unconnected_Send_size, MR_Request_size, CIA_path_size.
  change (CN_USINT_wrap 0 =? 0) with true. cbv iota.
  change (size_t_wrap (2 * 1 + 2 * 2)) with 6.
  rewrite size_t_wrap_small by lia. lia.
Qed.

(** C8: for every millisecond budget for which [calc_tick_time]
    succeeds, [ticks = millisec >> tick_time] and [ticks <= 255], with
    [tick_time] the smallest shift that achieves the bound (so that the
    tick unit is [1 << tick_time] milliseconds); and the two octets that
    [make_CM_Unconnected_Send] stores behind the path are the pair that
    [calc_tick_time] gives for 245760 ms. *)
Theorem calc_tick_time_ticks (millisec tick_time ticks : Z) :
  0 <= millisec ->
  calc_tick_time millisec = Some (tick_time, ticks) ->
  (ticks = Z.shiftr millisec tick_time /\
   0 <= ticks <= 255 /\
   0 <= tick_time <= 15 /\
   forall t, 0 <= t < tick_time -> Z.shiftr millisec t > 255) /\
  (forall m request message_size,
     0 <= request -> 0 <= message_size ->
     request + 14 + padded message_size <= Z.of_nat (length m) ->
     let m' := fst (make_CM_Unconnected_Send m request message_size) in
     calc_tick_time 245760
     = Some (peek m' (request + 6), peek m' (request + 7))).
Proof.
  intros Hm Hc. split.
  - unfold calc_tick_time in Hc.
    destruct (millisec >? 8355840) eqn:E; [discriminate|].
    injection Hc as Hc.
    destruct (calc_tick_time_loop_spec 15 millisec 0)
      as (k & Hk & Heq & Hle & Hmin); try lia.
    rewrite Heq in Hc. injection Hc as <- <-.
    rewrite Z.add_0_l.
    repeat split; try lia.
    + apply Z.shiftr_nonneg. lia.
    + exact Hmin.
  - intros m request message_size Hr Hs Hlen m'. subst m'.
    rewrite make_CM_Unconnected_Send_write by assumption. cbn [fst].
    pose proof (Z.mod_pos_bound message_size 2 ltac:(lia)) as Hmod.
    unfold padded in Hlen.
    assert (Hin : forall q,
      request <= q < request + 10 ->
      peek (write_at (write_at m request (unconnected_send_header message_size))
              (request + 10 + padded message_size) unconnected_send_trailer) q
      = default 0 (unconnected_send_header message_size !! Z.to_nat (q - request))).
    { intros q Hq. unfold peek at 1, write_at at 1, padded.
      rewrite lookup_app_l
        by (rewrite length_take, write_at_length; simpl; lia).
      rewrite lookup_take_lt by lia.
      fold (peek (write_at m request (unconnected_send_header message_size)) q).
      apply peek_write_at; simpl; lia. }
    rewrite calc_tick_time_default, !Hin by lia.
    replace (Z.to_nat (request + 6 - request)) with 6%nat by lia.
    replace (Z.to_nat (request + 7 - request)) with 7%nat by lia.
    reflexivity.
Qed.

Lemma calc_tick_time_ticks_witness :
  let m' := fst (make_CM_Unconnected_Send (replicate 40 0) 0 12) in
  calc_tick_time 245760 = Some (10, 240) /\
  240 = Z.shiftr 245760 10 /\
  calc_tick_time 245760 = Some (peek m' 6, peek m' 7).
Proof.
  intros m'.
  destruct (calc_tick_time_ticks 245760 10 240) as [(Ht & _) Hsend].
  - lia.
  - exact calc_tick_time_default.
  - split; [exact calc_tick_time_default|]. split; [exact Ht|].
    apply (Hsend (replicate 40 0) 0 12); [lia|lia|vm_compute; congruence].
Defined.

(** C7 (as the code has it): for every inner message size,
    [make_CM_Unconnected_Send] builds an MR request with service 0x52
    addressed to the ConnectionManager (class 0x06, instance 1) whose body
    carries the tick-time octet, the ticks octet and the inner message
    size as 16 bits; it leaves room for the inner message padded to even
    length, which it returns and does not touch, and ends with the four
    octets 01 00 01 00: a path size of one word, a reserved octet, port 1
    and link 0.  [CM_Unconnected_Send_size] is the number of octets from
    the start of the request to the end of that path, and nothing outside
    them changes. *)
Theorem make_CM_Unconnected_Send_layout (m : list Z) (request message_size : Z) :
  0 <= request -> 0 <= message_size ->
  14 + padded message_size < 2 ^ 32 ->
  request + 14 + padded message_size <= Z.of_nat (length m) ->
  let m' := fst (make_CM_Unconnected_Send m request message_size) in
  let nested := snd (make_CM_Unconnected_Send m request message_size) in
  let size := CM_Unconnected_Send_size message_size in
  region m' request 10 = unconnected_send_header message_size /\
  nested = request + 10 /\
  region m' nested (padded message_size)
    = region m nested (padded message_size) /\
  region m' (nested + padded message_size) 4 = unconnected_send_trailer /\
  size = 10 + padded message_size + 4 /\
  take (Z.to_nat request) m' = take (Z.to_nat request) m /\
  drop (Z.to_nat (request + size)) m' = drop (Z.to_nat (request + size)) m.
Proof.
  intros Hr Hs Hfit Hlen m' nested size. subst m' nested size.
  rewrite make_CM_Unconnected_Send_write by assumption. cbn [fst snd].
  rewrite CM_Unconnected_Send_size_value by assumption.
  assert (Hpad : 0 <= padded message_size).
  { unfold padded. pose proof (Z.mod_pos_bound message_size 2). lia. }
  set (hdr := unconnected_send_header message_size).
  assert (Hhdr : Z.of_nat (length hdr) = 10) by reflexivity.
  assert (HM : length (write_at m request hdr) = length m)
    by (apply write_at_length; lia).
  split; [|split; [reflexivity|split; [|split; [|split; [lia|split]]]]].
  - rewrite region_write_at_before by (simpl; lia).
    rewrite <- Hhdr. apply region_write_at; lia.
  - rewrite region_write_at_before by (simpl; lia).
    apply region_write_at_after; lia.
  - change 4 with (Z.of_nat (length unconnected_send_trailer)).
    apply region_write_at; simpl; lia.
  - unfold write_at at 1.
    rewrite take_app_le by (rewrite length_take; lia).
    rewrite take_take.
    replace (Z.to_nat request `min` Z.to_nat (request + 10 + padded message_size))%nat
      with (Z.to_nat request) by lia.
    apply take_write_at; lia.
  - replace (request + (14 + padded message_size))
      with (request + 10 + padded message_size
            + Z.of_nat (length unconnected_send_trailer)) by (simpl; lia).
    rewrite drop_write_at by (simpl; lia).
    unfold write_at. rewrite app_assoc.
    rewrite drop_app_ge by (rewrite length_app, length_take; simpl; lia).
    rewrite drop_drop. f_equal.
    rewrite length_app, length_take. simpl. lia.
Qed.

Lemma make_CM_Unconnected_Send_layout_witness :
  let m' := fst (make_CM_Unconnected_Send (replicate 40 0) 2 12) in
  region m' 2 10 = [0x52; 0x02; 0x20; 0x06; 0x24; 0x01; 10; 240; 12; 0] /\
  region m' 24 4 = [0x01; 0x00; 0x01; 0x00] /\
  CM_Unconnected_Send_size 12 = 26.
Proof.
  intros m'.
  destruct (make_CM_Unconnected_Send_layout (replicate 40 0) 2 12)
    as (Hh & Hn & _ & Ht & Hsz & _); try (vm_compute; congruence).
  split; [exact Hh|]. split; [|exact Hsz].
  rewrite Hn in Ht. exact Ht.
Defined.

(** C7, where the claim fails: behind the (padded) inner message the
    builder stores four octets, 01 00 01 00, and not the six octets
    01 00 20 02 24 01; no class or instance segment follows the port. *)
Lemma make_CM_Unconnected_Send_route_path :
  let m' := fst (make_CM_Unconnected_Send (replicate 40 0) 0 12) in
  CM_Unconnected_Send_size 12 = 26 /\
  region m' 22 (CM_Unconnected_Send_size 12 - 22) = [0x01; 0x00; 0x01; 0x00] /\
  region m' 22 (CM_Unconnected_Send_size 12 - 22)
    <> [0x01; 0x00; 0x20; 0x02; 0x24; 0x01] /\
  region m' 20 6 <> [0x01; 0x00; 0x20; 0x02; 0x24; 0x01].
Proof.
  intros m'. subst m'.
  rewrite make_CM_Unconnected_Send_write by (vm_compute; congruence).
  split; [reflexivity|].
  split; [reflexivity|].
  split; discriminate.
Qed.

(* ================================================================= *)
(** * CIP_MultiRequest: the offset table *)

Lemma table_bytes_length T : length (table_bytes T) = (2 * length T)%nat.
Proof.
  unfold table_bytes. induction T as [|t T IH]; simpl; [reflexivity|].
  rewrite IH. lia.
Qed.

Lemma table_bytes_app T1 T2 : table_bytes (T1 ++ T2) = table_bytes T1 ++ table_bytes T2.
Proof. unfold table_bytes. rewrite map_app, concat_app. reflexivity. Qed.

Lemma multi_request_image_length N T :
  Z.of_nat (length (multi_request_image N T)) = 8 + 2 * Z.of_nat (length T).
Proof.
  unfold multi_request_image. rewrite !length_app, table_bytes_length.
  simpl. lia.
Qed.

Lemma zero_offsets_write n : forall m p l q,
  q = p + Z.of_nat (length l) -> 0 <= p ->
  q + 2 * Z.of_nat n <= Z.of_nat (length m) ->
  zero_offsets n (write_at m p l) q
  = (write_at m p (l ++ table_bytes (replicate n 0)), q + 2 * Z.of_nat n).
Proof.
  induction n as [|n IH]; intros m p l q Hq Hp H.
  - simpl. rewrite app_nil_r. f_equal. lia.
  - cbn [zero_offsets].
    rewrite pack_UINT_after_write by lia.
    rewrite IH by (rewrite ?length_app; simpl; lia).
    rewrite <- app_assoc. f_equal. lia.
Qed.

Lemma prepare_CIP_MultiRequest_write m request N :
  0 <= request -> 1 <= N ->
  request + 8 + 2 * N <= Z.of_nat (length m) ->
  prepare_CIP_MultiRequest m request N
  = (write_at m request (multi_request_image N (initial_table N)), true).
Proof.
  intros Hr HN Hlen.
  unfold prepare_CIP_MultiRequest, make_MR_Request, make_CIA_path,
    pack_USINT, CIA_path_size, S_CIP_MultiRequest, C_MessageRouter.
  change (CN_USINT_wrap 0 =? 0) with true. cbv iota beta.
  rewrite (poke_write_at m request) by lia.
  do 5 (rewrite poke_after_write by (simpl; lia)).
  do 2 (rewrite pack_UINT_after_write by (simpl; lia)).
  rewrite zero_offsets_write by (simpl; lia).
  f_equal. f_equal.
  rewrite le_bytes16_size_t_wrap.
  unfold multi_request_image, initial_table, table_bytes.
  cbn [map concat]. rewrite <- !app_assoc. reflexivity.
Qed.

(** One call of [CIP_MultiRequest_item] on a request whose offset table
    holds [T]. *)
Lemma CIP_MultiRequest_item_image m request N T i s off :
  0 <= request -> 1 <= N <= 0xFFFF -> Z.of_nat (length T) = N ->
  request + 8 + 2 * N <= Z.of_nat (length m) ->
  0 <= i < N -> T !! Z.to_nat i = Some off -> 0 < off <= 0xFFFF ->
  CIP_MultiRequest_item (write_at m request (multi_request_image N T))
    request i s
  = (write_at m request
       (multi_request_image N
          (if i + 1 <? N then <[Z.to_nat (i + 1) := off + s]> T else T)),
     Some (request + 6 + off)).
Proof.
  intros Hr HN HT Hlen Hi Hoff Hrange.
  pose proof (multi_request_image_length N T) as HL.
  unfold CIP_MultiRequest_item, raw_MR_Request_data.
  assert (Hp1 : peek (write_at m request (multi_request_image N T)) (request + 1) = 2).
  { change (multi_request_image N T)
      with ([10] ++ 2 :: [32; 2; 36; 1] ++ le_bytes16 N ++ table_bytes T).
    apply peek_write_at_mid; [reflexivity|lia|].
    change ([10] ++ 2 :: [32; 2; 36; 1] ++ le_bytes16 N ++ table_bytes T)
      with (multi_request_image N T). lia. }
  rewrite Hp1. change (2 * 2) with 4.
  assert (Hcount : unpack_UINT (write_at m request (multi_request_image N T))
                     (request + 2 + 4) = (N, request + 2 + 4 + 2)).
  { unfold multi_request_image.
    rewrite unpack_UINT_in_image.
    - unfold CN_UINT_wrap. rewrite Z.mod_small by lia. reflexivity.
    - simpl. lia.
    - lia.
    - fold (multi_request_image N T). lia. }
  rewrite Hcount.
  replace (i >=? N) with false by lia.
  (* the entry read *)
  pose proof (take_drop_middle T (Z.to_nat i) off Hoff) as Hsplit.
  assert (Hi_len : length (take (Z.to_nat i) T) = Z.to_nat i)
    by (rewrite length_take; lia).
  assert (Himg : multi_request_image N T =
    (multi_request_header ++ le_bytes16 N ++ table_bytes (take (Z.to_nat i) T))
    ++ le_bytes16 off ++ table_bytes (drop (S (Z.to_nat i)) T)).
  { unfold multi_request_image. rewrite <- Hsplit at 1.
    rewrite table_bytes_app. unfold table_bytes at 2. cbn [map concat].
    rewrite <- !app_assoc. reflexivity. }
  assert (Hread : unpack_UINT (write_at m request (multi_request_image N T))
                    (request + 2 + 4 + 2 + 2 * i) = (off, request + 2 + 4 + 2 + 2 * i + 2)).
  { rewrite Himg. rewrite unpack_UINT_in_image.
    - unfold CN_UINT_wrap. rewrite Z.mod_small by lia. reflexivity.
    - rewrite !length_app, table_bytes_length, Hi_len. simpl. lia.
    - lia.
    - rewrite <- Himg. lia. }
  rewrite Hread.
  replace (off =? 0) with false by lia.
  replace (CN_UINT_wrap (i + 1)) with (i + 1)
    by (unfold CN_UINT_wrap; rewrite Z.mod_small; lia).
  f_equal; [|f_equal; lia].
  destruct (i + 1 <? N) eqn:Enext; [|reflexivity].
  (* the entry written *)
  assert (Hlookup : is_Some (T !! Z.to_nat (i + 1)))
    by (apply lookup_lt_is_Some; lia).
  destruct Hlookup as [old Hold].
  pose proof (take_drop_middle T (Z.to_nat (i + 1)) old Hold) as Hsplit'.
  assert (Hi_len' : length (take (Z.to_nat (i + 1)) T) = Z.to_nat (i + 1))
    by (rewrite length_take; lia).
  assert (Himg' : multi_request_image N T =
    (multi_request_header ++ le_bytes16 N ++ table_bytes (take (Z.to_nat (i + 1)) T))
    ++ le_bytes16 old ++ table_bytes (drop (S (Z.to_nat (i + 1))) T)).
  { unfold multi_request_image. rewrite <- Hsplit' at 1.
    rewrite table_bytes_app. unfold table_bytes at 2. cbn [map concat].
    rewrite <- !app_assoc. reflexivity. }
  rewrite Himg' at 1.
  rewrite pack_UINT_in_image.
  - cbn [fst]. f_equal.
    unfold multi_request_image.
    rewrite insert_take_drop by lia.
    rewrite table_bytes_app. unfold table_bytes at 4. cbn [map concat].
    rewrite <- !app_assoc. reflexivity.
  - rewrite !length_app, table_bytes_length, Hi_len'. simpl. lia.
  - lia.
  - reflexivity.
  - rewrite <- Himg'. lia.
Qed.

Lemma sum_sizes_app l1 l2 : sum_sizes (l1 ++ l2) = sum_sizes l1 + sum_sizes l2.
Proof. induction l1 as [|x l1 IH]; simpl; lia. Qed.

Lemma sum_sizes_nonneg l : Forall (fun s => 0 <= s) l -> 0 <= sum_sizes l.
Proof. induction 1; simpl; lia. Qed.

Lemma sum_sizes_take_le l i :
  Forall (fun s => 0 <= s) l -> 0 <= sum_sizes (take i l) <= sum_sizes l.
Proof.
  intros H. rewrite <- (take_drop i l) at 3. rewrite sum_sizes_app.
  pose proof (sum_sizes_nonneg (take i l) (Forall_take _ i _ H)).
  pose proof (sum_sizes_nonneg (drop i l) (Forall_drop _ i _ H)).
  lia.
Qed.

Lemma offset_of_succ sizes i s :
  sizes !! i = Some s -> offset_of sizes (S i) = offset_of sizes i + s.
Proof.
  intros H. unfold offset_of.
  rewrite (take_S_r _ _ _ H), sum_sizes_app. simpl. lia.
Qed.

Lemma offset_of_range sizes i :
  Forall (fun s => 0 <= s) sizes ->
  offset_of sizes (length sizes) <= 0xFFFF ->
  0 < offset_of sizes i <= 0xFFFF.
Proof.
  intros Hs H. unfold offset_of in *.
  rewrite firstn_all in H.
  pose proof (sum_sizes_take_le sizes i Hs). lia.
Qed.

Lemma table_after_length sizes k : length (table_after sizes k) = length sizes.
Proof. unfold table_after. rewrite length_map, length_seq. reflexivity. Qed.

Lemma table_after_lookup sizes k i :
  (i < length sizes)%nat ->
  table_after sizes k !! i = Some (if (i <=? k)%nat then offset_of sizes i else 0).
Proof.
  intros H. unfold table_after.
  rewrite list_lookup_fmap, lookup_seq_lt by assumption. reflexivity.
Qed.

Lemma initial_table_after sizes :
  (1 <= length sizes)%nat ->
  initial_table (Z.of_nat (length sizes)) = table_after sizes 0.
Proof.
  intros H. apply list_eq. intros i.
  destruct (decide (i < length sizes)%nat) as [Hi|Hi].
  - rewrite table_after_lookup by assumption.
    unfold initial_table. destruct i as [|i].
    + change (Some ((Z.of_nat (length sizes) + 1) * 2) = Some (offset_of sizes 0)).
      unfold offset_of. rewrite take_0. cbn [sum_sizes fold_right]. f_equal. lia.
    + change (replicate (Z.to_nat (Z.of_nat (length sizes) - 1)) 0 !! i = Some 0).
      rewrite lookup_replicate_2 by lia. reflexivity.
  - rewrite !lookup_ge_None_2; [reflexivity| |].
    + rewrite table_after_length. lia.
    + unfold initial_table. simpl. rewrite length_replicate. lia.
Qed.

Lemma table_after_step sizes k s :
  sizes !! k = Some s ->
  (if Z.of_nat k + 1 <? Z.of_nat (length sizes)
   then <[Z.to_nat (Z.of_nat k + 1) := offset_of sizes k + s]> (table_after sizes k)
   else table_after sizes k)
  = table_after sizes (S k).
Proof.
  intros Hs. pose proof (lookup_lt_Some _ _ _ Hs) as Hk.
  apply list_eq. intros i.
  destruct (decide (i < length sizes)%nat) as [Hi|Hi].
  - rewrite (table_after_lookup sizes (S k)) by assumption.
    destruct (Z.of_nat k + 1 <? Z.of_nat (length sizes)) eqn:E.
    + replace (Z.to_nat (Z.of_nat k + 1)) with (S k) by lia.
      destruct (decide (i = S k)) as [->|Hne].
      * rewrite list_lookup_insert_eq by (rewrite table_after_length; lia).
        rewrite Nat.leb_refl. f_equal. symmetry. apply offset_of_succ. assumption.
      * rewrite list_lookup_insert_ne by lia.
        rewrite table_after_lookup by assumption.
        destruct (Nat.leb_spec i k); destruct (Nat.leb_spec i (S k));
          try reflexivity; lia.
    + rewrite table_after_lookup by assumption.
      destruct (Nat.leb_spec i k); destruct (Nat.leb_spec i (S k));
        try reflexivity; lia.
  - rewrite !lookup_ge_None_2; [reflexivity| |].
    + rewrite table_after_length. lia.
    + destruct (_ <? _); rewrite ?length_insert, table_after_length; lia.
Qed.


(** Reading an entry of the offset table back. *)
Lemma unpack_table_entry m request N T i off :
  0 <= request -> Z.of_nat (length T) = N ->
  request + 8 + 2 * N <= Z.of_nat (length m) ->
  T !! i = Some off -> 0 <= off <= 0xFFFF ->
  unpack_UINT (write_at m request (multi_request_image N T))
    (request + 8 + 2 * Z.of_nat i)
  = (off, request + 8 + 2 * Z.of_nat i + 2).
Proof.
  intros Hr HT Hlen Hoff Hrange.
  pose proof (multi_request_image_length N T) as HL.
  pose proof (lookup_lt_Some _ _ _ Hoff) as Hi.
  pose proof (take_drop_middle T i off Hoff) as Hsplit.
  assert (Hi_len : length (take i T) = i) by (rewrite length_take; lia).
  assert (Himg : multi_request_image N T =
    (multi_request_header ++ le_bytes16 N ++ table_bytes (take i T))
    ++ le_bytes16 off ++ table_bytes (drop (S i) T)).
  { unfold multi_request_image. rewrite <- Hsplit at 1.
    rewrite table_bytes_app. unfold table_bytes at 2. cbn [map concat].
    rewrite <- !app_assoc. reflexivity. }
  rewrite Himg. rewrite unpack_UINT_in_image.
  - unfold CN_UINT_wrap. rewrite Z.mod_small by lia. reflexivity.
  - rewrite !length_app, table_bytes_length, Hi_len. simpl. lia.
  - lia.
  - rewrite <- Himg. lia.
Qed.

Lemma multi_request_count m request N T :
  0 <= request -> 0 <= N <= 0xFFFF -> Z.of_nat (length T) = N ->
  request + 8 + 2 * N <= Z.of_nat (length m) ->
  let M := write_at m request (multi_request_image N T) in
  unpack_UINT M (raw_MR_Request_data M request) = (N, request + 8).
Proof.
  intros Hr HN HT Hlen M. subst M.
  pose proof (multi_request_image_length N T) as HL.
  unfold raw_MR_Request_data.
  assert (Hp1 : peek (write_at m request (multi_request_image N T))
                  (request + 1) = 2).
  { change (multi_request_image N T)
      with ([10] ++ 2 :: [32; 2; 36; 1] ++ le_bytes16 N ++ table_bytes T).
    apply peek_write_at_mid; [reflexivity|lia|].
    change ([10] ++ 2 :: [32; 2; 36; 1] ++ le_bytes16 N ++ table_bytes T)
      with (multi_request_image N T). lia. }
  rewrite Hp1. unfold multi_request_image.
  rewrite unpack_UINT_in_image.
  - unfold CN_UINT_wrap. rewrite Z.mod_small by lia. f_equal. lia.
  - simpl. lia.
  - lia.
  - fold (multi_request_image N T). lia.
Qed.

(** An index that is not below the count is refused. *)
Lemma CIP_MultiRequest_item_beyond m request N T i s :
  0 <= request -> 0 <= N <= 0xFFFF -> Z.of_nat (length T) = N ->
  request + 8 + 2 * N <= Z.of_nat (length m) ->
  N <= i ->
  snd (CIP_MultiRequest_item (write_at m request (multi_request_image N T))
         request i s) = None.
Proof.
  intros Hr HN HT Hlen Hi. unfold CIP_MultiRequest_item.
  rewrite multi_request_count by assumption.
  replace (i >=? N) with true by lia. reflexivity.
Qed.

(** An index whose table entry is still 0 is refused. *)
Lemma CIP_MultiRequest_item_ahead m request N T i s :
  0 <= request -> 0 <= N <= 0xFFFF -> Z.of_nat (length T) = N ->
  request + 8 + 2 * N <= Z.of_nat (length m) ->
  0 <= i -> T !! Z.to_nat i = Some 0 ->
  snd (CIP_MultiRequest_item (write_at m request (multi_request_image N T))
         request i s) = None.
Proof.
  intros Hr HN HT Hlen Hi Hz. unfold CIP_MultiRequest_item.
  rewrite multi_request_count by assumption.
  destruct (i >=? N); [reflexivity|].
  replace (request + 8 + 2 * i) with (request + 8 + 2 * Z.of_nat (Z.to_nat i))
    by lia.
  rewrite (unpack_table_entry m request N T (Z.to_nat i) 0) by (auto; lia).
  reflexivity.
Qed.

Section MultiRequestLayout.

Variable m : list Z.
Variable request : Z.
Variable sizes : list Z.

Let N : Z := Z.of_nat (length sizes).

Hypothesis request_nonneg : 0 <= request.
Hypothesis sizes_nonneg : Forall (fun s => 0 <= s) sizes.
Hypothesis at_least_one : (1 <= length sizes)%nat.
Hypothesis offsets_fit : offset_of sizes (length sizes) <= 0xFFFF.
Hypothesis buffer_holds :
  request + CIP_MultiRequest_size N (sum_sizes sizes) <= Z.of_nat (length m).

Let image (k : nat) : list Z :=
  write_at m request (multi_request_image N (table_after sizes k)).

Lemma N_range : 1 <= N <= 0xFFFF.
Proof.
  unfold N. split; [lia|].
  unfold offset_of in offsets_fit. rewrite firstn_all in offsets_fit.
  pose proof (sum_sizes_nonneg sizes sizes_nonneg). lia.
Qed.

Lemma packed_size : CIP_MultiRequest_size N (sum_sizes sizes)
                    = 6 + offset_of sizes (length sizes).
Proof.
  pose proof N_range. pose proof (sum_sizes_nonneg sizes sizes_nonneg).
  unfold offset_of in *. rewrite firstn_all in *. fold N in offsets_fit |- *.
  unfold CIP_MultiRequest_size, CIA_path_size.
  change (CN_USINT_wrap 0 =? 0) with true. cbv iota.
  rewrite size_t_wrap_small by lia. lia.
Qed.

Lemma table_holds : request + 8 + 2 * N <= Z.of_nat (length m).
Proof.
  pose proof packed_size as Hs. pose proof N_range.
  pose proof (sum_sizes_nonneg sizes sizes_nonneg).
  unfold offset_of in Hs. rewrite firstn_all in Hs. fold N in Hs. lia.
Qed.

Lemma prepared_image :
  prepare_CIP_MultiRequest m request N = (image 0, true).
Proof.
  pose proof N_range. pose proof table_holds.
  rewrite prepare_CIP_MultiRequest_write by lia.
  unfold image, N. rewrite initial_table_after by assumption. reflexivity.
Qed.

Lemma item_in_order k s :
  sizes !! k = Some s ->
  CIP_MultiRequest_item (image k) request (Z.of_nat k) s
  = (image (S k), Some (request + 6 + offset_of sizes k)).
Proof.
  intros Hs. pose proof (lookup_lt_Some _ _ _ Hs) as Hk.
  unfold image.
  rewrite (CIP_MultiRequest_item_image m request N _ _ _ (offset_of sizes k)).
  - rewrite <- (table_after_step sizes k s Hs). reflexivity.
  - assumption.
  - apply N_range.
  - rewrite table_after_length. reflexivity.
  - apply table_holds.
  - unfold N. lia.
  - rewrite Nat2Z.id, table_after_lookup by assumption.
    rewrite Nat.leb_refl. reflexivity.
  - apply offset_of_range; assumption.
Qed.

Lemma deposit_items_in_order n : forall k,
  (k + n <= length sizes)%nat ->
  deposit_items (image k) request (Z.of_nat k) (take n (drop k sizes))
  = (image (k + n),
     map (fun i => Some (request + 6 + offset_of sizes i)) (seq k n)).
Proof.
  induction n as [|n IH]; intros k Hk.
  - simpl. rewrite Nat.add_0_r. reflexivity.
  - assert (Hlook : is_Some (sizes !! k)) by (apply lookup_lt_is_Some; lia).
    destruct Hlook as [s Hs].
    rewrite (drop_S _ _ _ Hs). cbn [take deposit_items].
    rewrite (item_in_order k s Hs).
    replace (Z.of_nat k + 1) with (Z.of_nat (S k)) by lia.
    rewrite IH by lia.
    replace (S k + n)%nat with (k + S n)%nat by lia. reflexivity.
Qed.

Lemma deposited_image k :
  (k <= length sizes)%nat ->
  deposit_items (image 0) request 0 (take k sizes)
  = (image k, map (fun i => Some (request + 6 + offset_of sizes i)) (seq 0 k)).
Proof.
  intros Hk. apply (deposit_items_in_order k 0). lia.
Qed.

(** C3 (as the code has it): let [N >= 1] sizes be given, with
    [2*(N+1)] plus their sum within 16 bits, in a buffer that holds the
    request.  After [prepare_CIP_MultiRequest (request, N)] and the [N]
    calls [CIP_MultiRequest_item (request, i, s_i)] for [i = 0 .. N-1] in
    that order, the call for [i] returned the count-field address
    ([request + 6]) plus [offset[i]], the table holds
    [offset[i] = 2*(N+1) + sum of s_j for j < i], and the packed request
    ends [CIP_MultiRequest_size (N, sum of all s_i)] octets after its
    start.  At any point of that sequence, a call with [i >= N], or with
    an index ahead of the items deposited so far, returns the null
    pointer; a call with an index that was already deposited, or with
    the one that is due, returns the position of that item. *)
Theorem CIP_MultiRequest_layout :
  let prepared := prepare_CIP_MultiRequest m request N in
  let deposited := deposit_items (fst prepared) request 0 sizes in
  snd prepared = true /\
  snd deposited
    = map (fun i => Some (request + 6 + offset_of sizes i))
          (seq 0 (length sizes)) /\
  (forall i, (i < length sizes)%nat ->
     fst (unpack_UINT (fst deposited) (request + 8 + 2 * Z.of_nat i))
     = offset_of sizes i) /\
  request + 6 + offset_of sizes (length sizes)
    = request + CIP_MultiRequest_size N (sum_sizes sizes) /\
  (forall (k : nat) (i s : Z),
     (k <= length sizes)%nat -> N <= i \/ Z.of_nat k < i ->
     snd (CIP_MultiRequest_item
            (fst (deposit_items (fst prepared) request 0 (take k sizes)))
            request i s) = None) /\
  (forall (k i : nat) (s : Z),
     (k <= length sizes)%nat -> (i <= k)%nat -> (i < length sizes)%nat ->
     snd (CIP_MultiRequest_item
            (fst (deposit_items (fst prepared) request 0 (take k sizes)))
            request (Z.of_nat i) s)
     = Some (request + 6 + offset_of sizes i)).
Proof.
  intros prepared deposited. subst prepared deposited.
  pose proof N_range as HN. pose proof table_holds as Htab.
  rewrite prepared_image. cbn [fst snd].
  split; [reflexivity|].
  pose proof (deposited_image (length sizes) (Nat.le_refl _)) as Hall.
  rewrite firstn_all in Hall. rewrite Hall. cbn [fst snd].
  split; [reflexivity|]. split; [|split; [|split]].
  - intros i Hi. unfold image.
    rewrite (unpack_table_entry m request N _ i (offset_of sizes i)).
    + reflexivity.
    + assumption.
    + rewrite table_after_length. reflexivity.
    + assumption.
    + rewrite table_after_lookup by assumption.
      replace (i <=? length sizes)%nat with true
        by (symmetry; apply Nat.leb_le; lia).
      reflexivity.
    + pose proof (offset_of_range sizes i sizes_nonneg offsets_fit). lia.
  - rewrite packed_size. lia.
  - intros k i s Hk Hi. rewrite deposited_image by assumption. cbn [fst].
    unfold image.
    destruct (Z_le_gt_dec N i) as [Hge|Hlt].
    + apply CIP_MultiRequest_item_beyond; try assumption; try lia.
      rewrite table_after_length. reflexivity.
    + destruct Hi as [Hi|Hi]; [lia|].
      apply CIP_MultiRequest_item_ahead; try assumption; try lia.
      * rewrite table_after_length. reflexivity.
      * rewrite table_after_lookup by (unfold N in Hlt; lia).
        replace (Z.to_nat i <=? k)%nat with false
          by (symmetry; apply Nat.leb_gt; lia).
        reflexivity.
  - intros k i s Hk Hik Hi. rewrite deposited_image by assumption. cbn [fst].
    unfold image.
    rewrite (CIP_MultiRequest_item_image m request N _ _ _ (offset_of sizes i)).
    + reflexivity.
    + assumption.
    + assumption.
    + rewrite table_after_length. reflexivity.
    + assumption.
    + unfold N. lia.
    + rewrite Nat2Z.id, table_after_lookup by assumption.
      replace (i <=? k)%nat with true by (symmetry; apply Nat.leb_le; lia).
      reflexivity.
    + apply offset_of_range; assumption.
Qed.

End MultiRequestLayout.

Lemma CIP_MultiRequest_layout_witness :
  let m := replicate 64 0 in
  let prepared := prepare_CIP_MultiRequest m 2 3 in
  let deposited := deposit_items (fst prepared) 2 0 [10; 12; 8] in
  snd deposited = [Some 16; Some 26; Some 38] /\
  2 + 6 + 38 = 2 + CIP_MultiRequest_size 3 30 /\
  snd (CIP_MultiRequest_item (fst prepared) 2 1 12) = None.
Proof.
  intros m prepared deposited.
  destruct (CIP_MultiRequest_layout m 2 [10; 12; 8])
    as (_ & Hitems & _ & Hsize & Herr & _).
  - lia.
  - repeat constructor; lia.
  - simpl. lia.
  - vm_compute. congruence.
  - vm_compute. congruence.
  - split; [exact Hitems|]. split; [exact Hsize|].
    apply (Herr 0%nat 1 12); [simpl; lia|right; lia].
Defined.

(** C3, where the claim fails: a call out of ascending order is refused
    only when it runs ahead.  After the items 0 and 1 of a request for
    two items are deposited, a further call for item 0 returns its buffer
    position again. *)
Lemma CIP_MultiRequest_item_repeat_accepted :
  let m0 := fst (prepare_CIP_MultiRequest (replicate 64 0) 0 2) in
  let m2 := fst (deposit_items m0 0 0 [10; 10]) in
  snd (deposit_items m0 0 0 [10; 10]) = [Some 12; Some 22] /\
  snd (CIP_MultiRequest_item m2 0 0 10) = Some 12 /\
  snd (CIP_MultiRequest_item m2 0 0 10) <> None.
Proof.
  vm_compute. split; [reflexivity|]. split; [reflexivity|]. discriminate.
Qed.

(* ================================================================= *)
(** * Batching: how many tags go into one transfer *)

Lemma Forall_eligible_tags (P : TagInfo -> Prop) infos :
  Forall P infos -> Forall P (eligible_tags infos).
Proof.
  intros H. apply Forall_forall. intros x Hx.
  apply list_elem_of_filter in Hx. destruct Hx as [_ Hx].
  rewrite Forall_forall in H. auto.
Qed.

Lemma eligible_tags_cons i infos :
  eligible_tags (i :: infos)
  = if eligible i then i :: eligible_tags infos else eligible_tags infos.
Proof.
  unfold eligible_tags. rewrite filter_cons.
  destruct (eligible i); destruct (decide _); congruence.
Qed.

Lemma CIP_MultiRequest_size_value c r :
  0 <= 8 + 2 * c + r < 2 ^ 32 -> CIP_MultiRequest_size c r = 8 + 2 * c + r.
Proof.
  intros H. unfold CIP_MultiRequest_size, CIA_path_size.
  change (CN_USINT_wrap 0 =? 0) with true. cbv iota.
  rewrite size_t_wrap_small by lia. lia.
Qed.

Lemma CIP_MultiResponse_size_value c r :
  0 <= 6 + 2 * c + r < 2 ^ 32 -> CIP_MultiResponse_size c r = 6 + 2 * c + r.
Proof.
  intros H. unfold CIP_MultiResponse_size.
  rewrite size_t_wrap_small by lia. lia.
Qed.

Lemma share_nonneg info :
  sizes_in_range info -> 0 <= request_share info /\ 0 <= response_share info.
Proof.
  intros (? & ? & ? & ?). unfold request_share, response_share.
  destruct (do_write info); lia.
Qed.

Lemma shares_nonneg tags :
  Forall sizes_in_range tags ->
  Forall (fun s => 0 <= s) (map request_share tags) /\
  Forall (fun s => 0 <= s) (map response_share tags).
Proof.
  induction 1 as [|i tags Hi Ht [IH1 IH2]]; simpl; [split; constructor|].
  destruct (share_nonneg i Hi). split; constructor; assumption.
Qed.

Lemma eligible_test info :
  sizes_in_range info -> (cip_r_request_size info <=? 0) = negb (eligible info).
Proof.
  intros (? & _). unfold eligible. rewrite negb_involutive.
  destruct (Z.eqb_spec (cip_r_request_size info) 0); lia.
Qed.

Lemma classify_shares info :
  snd (fst (classify info)) = request_share info /\
  snd (classify info) = response_share info.
Proof.
  unfold classify, request_share, response_share.
  destruct (do_write info); split; reflexivity.
Qed.

Lemma sum_sizes_cons x l : sum_sizes (x :: l) = x + sum_sizes l.
Proof. reflexivity. Qed.









(** A tag [T] with the given cached sizes, lock state, valid size and
    flags; its buffer is not yet allocated. *)
Definition sample_info (r_req r_resp w_req w_resp : Z) (lock : SEM_ID)
    (valid : Z) (dw iw : bool) : TagInfo :=
  mkTagInfo (list_ascii_of_string "T") [te_name (list_ascii_of_string "T")] 1
    r_req r_resp w_req w_resp lock (mkGrowBuffer None 0) valid dw iw.

(** Three tags to read, each with 30 octets of request and of response. *)
Definition three_reads : list TagInfo :=
  [sample_info 30 30 56 4 sem_free 0 false false;
   sample_info 30 30 56 4 sem_free 0 false false;
   sample_info 30 30 56 4 sem_free 0 false false].



(* ================================================================= *)
(** * The write protocol: [do_write] and [is_writing] *)

(** A tag at rest: no write asked for, none under way, lock free. *)
Definition idle_tag : TagInfo := sample_info 30 30 56 4 sem_free 0 false false.

Ltac split_branches :=
  repeat match goal with
  | |- context [match ?c with _ => _ end] =>
      match type of c with
      | bool => destruct c
      | STATUS => destruct c
      | SEM_ID => destruct c
      | (_ * _)%type => destruct c
      | option _ => destruct c
      end; cbn
  end.

Lemma tag_step_write_state (e : TagEvent) (info : TagInfo) :
  write_state (tag_step e info) = write_state info \/
  write_transition e (write_state info) (write_state (tag_step e info)).
Proof.
  destruct info as [st tg el a b c d lock buf v dw iw].
  destruct e as [ | | |ok data dsz alloc]; unfold write_state, tag_step;
    destruct lock, dw, iw; cbn;
    try (left; reflexivity); try (right; constructor).
  all: unfold response_item, request_item; cbn; split_branches;
    try (left; reflexivity); try (right; constructor).
Qed.

Lemma write_transition_reachable e s s' :
  write_transition e s s' ->
  exists es,
    write_state (tag_run es idle_tag) = s /\
    write_state (tag_step e (tag_run es idle_tag)) = s'.
Proof.
  intros H. destruct H.
  - exists []. split; reflexivity.
  - exists [ev_schedule_write]. split; reflexivity.
  - exists [ev_schedule_write; ev_classify]. split; reflexivity.
  - exists [ev_schedule_write; ev_classify; ev_request].
    split; [reflexivity|destruct ok; reflexivity].
  - exists [ev_schedule_write; ev_classify; ev_request]. split; reflexivity.
  - exists [ev_schedule_write; ev_classify; ev_request; ev_schedule_write].
    split; [reflexivity|destruct ok; reflexivity].
Qed.

Lemma determine_loop_classifies limit infos : forall st,
  Forall2 (fun a b => b = a \/ b = tag_step ev_classify a)
    infos (snd (determine_MultiRequest_count_loop limit infos st)).
Proof.
  induction infos as [|i next IH]; intros st; cbn [determine_MultiRequest_count_loop].
  - constructor.
  - destruct (cip_r_request_size i <=? 0).
    + specialize (IH st).
      destruct (determine_MultiRequest_count_loop limit next st) as [[n st'] next'].
      cbn [snd] in *. constructor; [left; reflexivity|exact IH].
    + destruct (semTake (data_lock i)) eqn:Elock.
      * assert (Hc : fst (fst (classify i)) = i \/
                     fst (fst (classify i)) = tag_step ev_classify i).
        { right. unfold tag_step. rewrite Elock. reflexivity. }
        destruct (classify i) as [[i' req] resp]. cbn [fst] in Hc.
        destruct (_ || _).
        -- cbn [snd]. constructor; [exact Hc|].
           apply Forall2_same_length_lookup. split; [reflexivity|].
           intros k x y Hx Hy. left. congruence.
        -- match goal with |- context [determine_MultiRequest_count_loop limit next ?s] =>
             specialize (IH s);
             destruct (determine_MultiRequest_count_loop limit next s) as [[n st'] next']
           end.
           cbn [snd] in *. constructor; [exact Hc|exact IH].
      * cbn [snd]. apply Forall2_same_length_lookup. split; [reflexivity|].
        intros k x y Hx Hy. left. congruence.
Qed.

Lemma determine_MultiRequest_count_classifies limit infos multi0 multi1 :
  Forall2 (fun a b => b = a \/ b = tag_step ev_classify a)
    infos (snd (determine_MultiRequest_count limit infos multi0 multi1)).
Proof. apply determine_loop_classifies. Qed.

(** C2 (as the code has it): under the consumer operation (set
    [do_write]) and the scan task's classification, request and response
    steps, every change of the pair [(do_write, is_writing)] is one of
    (0,0)->(1,0) by the consumer, (1,0)->(1,1) by classification,
    (1,1)->(0,1) when the write request is built, (0,1)->(0,0) by the
    response, (0,1)->(1,1) by the consumer while the write is under way,
    and (1,1)->(1,0) by the response to that earlier write; each of the six
    is reached from the idle state.  [is_writing] is set only by the
    classification of a tag whose [do_write] is 1, which is what
    [determine_MultiRequest_count] does to the tags it looks at;
    [do_write] is cleared only when the request of a latched write is
    built, with the tag lock taken; and [is_writing] is cleared only by
    the handling of a response. *)
Theorem write_protocol_transitions :
  (forall e info,
     write_state (tag_step e info) = write_state info \/
     write_transition e (write_state info) (write_state (tag_step e info))) /\
  (forall e s s',
     write_transition e s s' ->
     exists es,
       write_state (tag_run es idle_tag) = s /\
       write_state (tag_step e (tag_run es idle_tag)) = s') /\
  (forall e info,
     is_writing info = false -> is_writing (tag_step e info) = true ->
     e = ev_classify /\ do_write info = true) /\
  (forall e info,
     do_write info = true -> do_write (tag_step e info) = false ->
     e = ev_request /\ is_writing info = true /\
     semTake (data_lock info) = OK) /\
  (forall e info,
     is_writing info = true -> is_writing (tag_step e info) = false ->
     exists ok data data_size alloc, e = ev_response ok data data_size alloc) /\
  (forall limit infos multi0 multi1,
     Forall2 (fun a b => b = a \/ b = tag_step ev_classify a)
       infos (snd (determine_MultiRequest_count limit infos multi0 multi1))).
Proof.
  split; [exact tag_step_write_state|].
  split; [exact write_transition_reachable|].
  split; [|split; [|split]].
  - intros e info Hiw Hiw'.
    destruct info as [st tg el a b c d lock buf v dw iw]. cbn in Hiw. subst iw.
    destruct e as [ | | |ok data dsz alloc]; unfold tag_step in Hiw';
      destruct lock, dw; cbn in *; try discriminate; auto.
    all: revert Hiw'; unfold response_item; cbn; split_branches;
      cbn; discriminate.
  - intros e info Hdw Hdw'.
    destruct info as [st tg el a b c d lock buf v dw iw]. cbn in Hdw. subst dw.
    destruct e as [ | | |ok data dsz alloc]; unfold tag_step in Hdw';
      destruct lock, iw; cbn in *; try discriminate; auto.
    all: revert Hdw'; unfold response_item; cbn; split_branches;
      cbn; discriminate.
  - intros e info Hiw Hiw'.
    destruct info as [st tg el a b c d lock buf v dw iw]. cbn in Hiw. subst iw.
    destruct e as [ | | |ok data dsz alloc]; unfold tag_step in Hiw';
      destruct lock, dw; cbn in *; try discriminate; eauto.
  - intros limit infos multi0 multi1.
    apply determine_MultiRequest_count_classifies.
Qed.

(** C2, where the claim fails: once the write request is built the tag
    is in (0,1); a consumer that asks for the next write before the
    response arrives takes it to (1,1), and the response to the first
    write then takes it to (1,0).  Neither step belongs to the four-state
    cycle with its re-entry (1,1)->(1,1). *)
Lemma write_state_leaves_cycle :
  let t3 := tag_run [ev_schedule_write; ev_classify; ev_request] idle_tag in
  let t4 := tag_step ev_schedule_write t3 in
  let t5 := tag_step (ev_response true [] 0 None) t4 in
  write_state t3 = (false, true) /\
  write_state t4 = (true, true) /\
  write_state t5 = (true, false) /\
  ~ in_write_cycle (write_state t3) (write_state t4) /\
  ~ in_write_cycle (write_state t4) (write_state t5).
Proof.
  cbv zeta.
  change (write_state
            (tag_run [ev_schedule_write; ev_classify; ev_request] idle_tag))
    with (false, true).
  change (write_state
            (tag_step ev_schedule_write
               (tag_run [ev_schedule_write; ev_classify; ev_request] idle_tag)))
    with (true, true).
  change (write_state
            (tag_step (ev_response true [] 0 None)
               (tag_step ev_schedule_write
                  (tag_run [ev_schedule_write; ev_classify; ev_request]
                     idle_tag))))
    with (true, false).
  repeat split; try reflexivity.
  - unfold in_write_cycle. intros H.
    repeat (destruct H as [[H1 H2] | H]; [discriminate|]).
    destruct H as [H1 H2]. discriminate.
  - unfold in_write_cycle. intros H.
    repeat (destruct H as [[H1 H2] | H]; [discriminate|]).
    destruct H as [H1 H2]. discriminate.
Qed.

(* ================================================================= *)
(** * Probing the tags of a PLC *)

Lemma tag_path_bytes_nonneg tag : forall bytes,
  0 <= bytes -> 0 <= tag_path_bytes tag bytes.
Proof.
  assert (Hw : forall v, 0 <= size_t_wrap v).
  { intros v. unfold size_t_wrap, SIZE_T_BITS.
    apply Z.mod_pos_bound. lia. }
  induction tag as [|e tag IH]; intros bytes Hb; simpl; [assumption|].
  destruct e as [n|index]; [apply IH, Hw|].
  destruct (index <=? 255); [apply IH, Hw|].
  destruct (index <=? 65535); apply IH, Hw.
Qed.

Lemma CIP_ReadData_size_range tag :
  tag_path_size tag <= 255 -> 4 <= CIP_ReadData_size tag <= 514.
Proof.
  intros H. unfold CIP_ReadData_size.
  assert (0 <= tag_path_size tag).
  { unfold tag_path_size. apply Z.div_pos; [|lia].
    apply tag_path_bytes_nonneg. lia. }
  rewrite size_t_wrap_small by lia. lia.
Qed.


Lemma complete_TagInfo_known info net :
  size_known info -> complete_TagInfo info net = (info, false, net).
Proof.
  intros Hk. unfold complete_TagInfo, size_known in *.
  destruct (Z.eqb_spec (cip_r_request_size info) 0);
    destruct (Z.eqb_spec (cip_r_response_size info) 0);
    cbn; try reflexivity. lia.
Qed.

(** The result of a probe is the data pointer of [EIP_read_tag]. *)
Lemma probe_success_read info net :
  ~ size_known info ->
  probe_success info net
  = fst (fst (EIP_read_tag (tag info)
                (match net with t :: _ => t | [] => no_reply end) 0 0)).
Proof.
  intros Hunknown. unfold probe_success, complete_TagInfo, size_known in *.
  assert (Hr : cip_r_request_size info = 0) by lia.
  assert (Hp : cip_r_response_size info = 0) by lia.
  rewrite Hr, Hp. cbn [Z.eqb negb orb].
  destruct (EIP_read_tag _ _ 0 0) as [[data r_req] r_resp]. reflexivity.
Qed.

Lemma complete_TagInfos_pointwise infos : forall any_ok net,
  Forall2 (fun a b => exists net', b = probed_tag a net')
    infos (fst (fst (complete_TagInfos infos any_ok net))).
Proof.
  induction infos as [|i rest IH]; intros any_ok net; cbn [complete_TagInfos].
  - constructor.
  - assert (Hi : probed_tag i net = fst (fst (complete_TagInfo i net)))
      by reflexivity.
    destruct (complete_TagInfo i net) as [[i' ok] net1]. cbn [fst] in Hi.
    specialize (IH (any_ok || ok) net1).
    destruct (complete_TagInfos rest (any_ok || ok) net1) as [[rest' any'] net2].
    cbn [fst] in *. constructor; [exists net; congruence|exact IH].
Qed.



(** A connected PLC with two scan lists: two tags that were never
    probed (the lock of the second is held by another task, and it still
    shows 8 valid octets), and one tag with known sizes. *)
Definition sample_plc : PLC :=
  mkPLC (list_ascii_of_string "plc1") 0 0 0
    [mkScanList true 0 0
       [sample_info 0 0 0 0 sem_free 0 false false;
        sample_info 0 0 0 0 sem_held 8 false false];
     mkScanList true 0 0 [sample_info 30 30 56 4 sem_free 0 false false]]
    (mkEIPConnection 7 1 5000 500).

Definition cached_sizes (info : TagInfo) : Z * Z * Z * Z :=
  (cip_r_request_size info, cip_r_response_size info,
   cip_w_request_size info, cip_w_response_size info).


(* ================================================================= *)
(** * Disconnecting a PLC *)

Lemma invalidate_TagInfo_invalidated info :
  invalidated info (invalidate_TagInfo info).
Proof.
  destruct info as [st tg el a b c d lock buf v dw iw].
  unfold invalidated, invalidate_TagInfo.
  destruct lock; cbn;
    (split; [reflexivity|split; intros H; (reflexivity || discriminate)]).
Qed.

Lemma invalidate_PLC_tags_pointwise plc :
  Forall2 invalidated (PLC_tags plc) (PLC_tags (invalidate_PLC_tags plc)).
Proof.
  unfold PLC_tags, invalidate_PLC_tags. cbn [scanlists set_scanlists].
  induction (scanlists plc) as [|l ls IH]; cbn [map concat]; [constructor|].
  apply Forall2_app; [|exact IH].
  cbn [taginfos set_taginfos].
  induction (taginfos l) as [|i rest IHi]; cbn [map]; constructor.
  - apply invalidate_TagInfo_invalidated.
  - exact IHi.
Qed.

(** C9 (as the code has it): after [disconnect_PLC] on a connected PLC
    the connection is closed ([sock] is 0) and every tag, on every scan
    list, whose data lock could be taken has [valid_data_size == 0]; a
    tag whose lock is held by another task keeps its [valid_data_size],
    and nothing else in a tag changes; so when all locks are free every
    tag has [valid_data_size == 0].  On a PLC that is not connected
    [disconnect_PLC] changes nothing. *)
Theorem disconnect_PLC_invalidates (plc : PLC) :
  (sock (connection plc) <> 0 ->
   sock (connection (disconnect_PLC plc)) = 0 /\
   Forall2 invalidated (PLC_tags plc) (PLC_tags (disconnect_PLC plc)) /\
   (Forall lock_free (PLC_tags plc) ->
    Forall (fun info => valid_data_size info = 0)
      (PLC_tags (disconnect_PLC plc)))) /\
  (sock (connection plc) = 0 -> disconnect_PLC plc = plc).
Proof.
  unfold disconnect_PLC. split.
  - intros Hsock.
    destruct (Z.eqb_spec (sock (connection plc)) 0) as [|_]; [contradiction|].
    pose proof (invalidate_PLC_tags_pointwise
                  (set_connection plc (EIP_shutdown (connection plc)))) as H.
    change (PLC_tags (set_connection plc (EIP_shutdown (connection plc))))
      with (PLC_tags plc) in H.
    split; [reflexivity|]. split; [exact H|].
    intros Hfree. revert H Hfree.
    generalize (PLC_tags plc) as tags.
    generalize (PLC_tags (invalidate_PLC_tags
                  (set_connection plc (EIP_shutdown (connection plc))))) as tags'.
    intros tags' tags H.
    induction H as [|a b tags tags' (_ & Hab & _) H IH]; intros Hfree;
      [constructor|].
    apply Forall_cons in Hfree. destruct Hfree as [Ha Hfree].
    constructor; [apply Hab, Ha|apply IH, Hfree].
  - intros Hsock. rewrite Hsock. reflexivity.
Qed.

Lemma disconnect_PLC_invalidates_witness :
  sock (connection (disconnect_PLC sample_plc)) = 0 /\
  Forall2 invalidated (PLC_tags sample_plc)
    (PLC_tags (disconnect_PLC sample_plc)).
Proof.
  destruct (proj1 (disconnect_PLC_invalidates sample_plc)) as (Hs & Ht & _).
  - discriminate.
  - split; [exact Hs|exact Ht].
Defined.

(** C9, where the claim fails: a tag whose data lock is held by another
    task for longer than the timeout keeps its [valid_data_size] through
    the disconnect. *)
Lemma disconnect_PLC_skips_locked_tag :
  sock (connection sample_plc) <> 0 /\
  sock (connection (disconnect_PLC sample_plc)) = 0 /\
  map valid_data_size (PLC_tags sample_plc) = [0; 8; 0] /\
  map valid_data_size (PLC_tags (disconnect_PLC sample_plc)) = [0; 8; 0].
Proof.
  split; [discriminate|]. repeat split; reflexivity.
Qed.

(* ================================================================= *)
(** * Buffers that grow *)

Lemma size_t_int_round_trip v :
  0 <= v < 2 ^ 32 -> size_t_wrap (int_wrap v) = v.
Proof.
  intros H. unfold size_t_wrap, int_wrap, SIZE_T_BITS.
  change (2 ^ 32) with 4294967296 in *. change (2 ^ 31) with 2147483648.
  Z.div_mod_to_equations. lia.
Qed.

(** C10: for every well-formed buffer and every requested capacity,
    [EIP_reserve_buffer] on success leaves the size at the maximum of the
    current size and the request, so the buffer never shrinks, and keeps
    the first old-size octets of the contents; it fails exactly when a
    larger buffer is needed and [malloc] gives none, and then the buffer
    pointer, its size and its contents are unchanged. *)
Theorem EIP_reserve_buffer_grows (b : GrowBuffer) (requested : Z)
    (alloc : malloc_result) :
  GrowBuffer_wf b -> malloc_wf requested alloc ->
  let b' := fst (EIP_reserve_buffer b requested alloc) in
  let ok := snd (EIP_reserve_buffer b requested alloc) in
  (ok = true ->
   gb_size b' = Z.max (gb_size b) requested /\
   take (Z.to_nat (gb_size b)) (contents b') = contents b /\
   match gb_buffer b' with
   | Some block => Z.of_nat (length block) = gb_size b'
   | None => gb_size b' = 0
   end) /\
  (ok = false -> b' = b) /\
  (ok = false <-> gb_size b < requested /\ alloc = None).
Proof.
  intros (Hsize & Hblock) Halloc b' ok. subst b' ok.
  unfold EIP_reserve_buffer.
  destruct b as [buffer size]. cbn [gb_size gb_buffer] in *.
  destruct (size >=? requested) eqn:E; cbn [fst snd gb_size gb_buffer].
  - split; [intros _|split; [discriminate|]].
    + split; [lia|]. split; [|exact Hblock].
      unfold contents. cbn [gb_buffer].
      destruct buffer as [block|]; [apply take_ge; lia|apply take_nil].
    + split; [discriminate|]. intros [Hlt _]. lia.
  - rewrite size_t_int_round_trip by assumption.
    destruct alloc as [fresh|]; cbn [malloc_wf] in Halloc.
    + destruct buffer as [old|];
        cbn [fst snd gb_size gb_buffer]; unfold contents; cbn [gb_buffer].
      * split; [intros _|split; [discriminate|]].
        -- split; [lia|]. unfold copy_into.
           rewrite (take_ge old) by lia.
           split; [apply take_app_length'; lia|].
           rewrite length_app, length_drop. lia.
        -- split; [discriminate|]. intros [_ Hnone]. discriminate.
      * split; [intros _|split; [discriminate|]].
        -- split; [lia|]. subst size. split; [apply take_0|exact Halloc].
        -- split; [discriminate|]. intros [_ Hnone]. discriminate.
    + cbn [fst snd]. split; [discriminate|]. split; [reflexivity|].
      split; [intros _; split; [lia|reflexivity]|reflexivity].
Qed.

(** A buffer of three octets. *)
Definition sample_buffer : GrowBuffer := mkGrowBuffer (Some [1; 2; 3]) 3.

Lemma EIP_reserve_buffer_grows_witness :
  GrowBuffer_wf sample_buffer /\
  fst (EIP_reserve_buffer sample_buffer 5 (Some [9; 9; 9; 9; 9]))
    = mkGrowBuffer (Some [1; 2; 3; 9; 9]) 5 /\
  gb_size (fst (EIP_reserve_buffer sample_buffer 5 (Some [9; 9; 9; 9; 9])))
    = Z.max 3 5 /\
  fst (EIP_reserve_buffer sample_buffer 5 None) = sample_buffer.
Proof.
  assert (Hwf : GrowBuffer_wf sample_buffer)
    by (split; [cbn; lia|reflexivity]).
  split; [exact Hwf|]. split; [reflexivity|]. split.
  - apply (proj1 (EIP_reserve_buffer_grows sample_buffer 5
                    (Some [9; 9; 9; 9; 9]) Hwf eq_refl)).
    reflexivity.
  - apply (proj1 (proj2 (EIP_reserve_buffer_grows sample_buffer 5 None Hwf I))).
    reflexivity.
Defined.

(* ================================================================= *)
(** * Further properties of the code *)

Lemma lor_shiftl_disjoint a b k :
  0 <= k -> 0 <= a < 2 ^ k -> 0 <= b ->
  Z.lor a (Z.shiftl b k) = a + b * 2 ^ k.
Proof.
  intros Hk Ha Hb.
  rewrite Z.shiftl_mul_pow2 by lia.
  rewrite <- Z.lxor_lor, <- Z.add_nocarry_lxor; try reflexivity.
  all: apply Z.bits_inj'; intros n Hn;
    rewrite Z.land_spec, Z.bits_0;
    destruct (Z.lt_ge_cases n k) as [Hlt|Hge].
  all: try (rewrite Z.mul_pow2_bits_low by lia; apply andb_false_r).
  all: replace a with (a mod 2 ^ k) by (apply Z.mod_small; lia);
    rewrite Z.mod_pow2_bits_high by lia; reflexivity.
Qed.


Lemma unpack_UINT_octets m p :
  0 <= peek m p < 2 ^ 8 -> 0 <= peek m (p + 1) < 2 ^ 8 ->
  unpack_UINT m p = (peek m p + peek m (p + 1) * 2 ^ 8, p + 2).
Proof.
  intros Ha Hb. unfold unpack_UINT.
  rewrite lor_shiftl_disjoint by lia.
  unfold CN_UINT_wrap. rewrite Z.mod_small; [reflexivity|].
  change (2 ^ 8) with 256 in *. change (2 ^ 16) with 65536. lia.
Qed.

Lemma unpack_UDINT_octets m p :
  0 <= peek m p < 2 ^ 8 -> 0 <= peek m (p + 1) < 2 ^ 8 ->
  0 <= peek m (p + 2) < 2 ^ 8 -> 0 <= peek m (p + 3) < 2 ^ 8 ->
  unpack_UDINT m p
  = (peek m p + peek m (p + 1) * 2 ^ 8 + peek m (p + 2) * 2 ^ 16
     + peek m (p + 3) * 2 ^ 24, p + 4).
Proof.
  intros Ha Hb Hc Hd. unfold unpack_UDINT.
  change (2 ^ 8) with 256 in *.
  rewrite (lor_shiftl_disjoint (peek m p)) by (change (2 ^ 8) with 256; lia).
  rewrite (lor_shiftl_disjoint _ _ 16)
    by (change (2 ^ 8) with 256; change (2 ^ 16) with 65536; lia).
  rewrite (lor_shiftl_disjoint _ _ 24)
    by (change (2 ^ 8) with 256; change (2 ^ 16) with 65536;
        change (2 ^ 24) with 16777216; lia).
  unfold CN_UDINT_wrap. rewrite Z.mod_small; [reflexivity|].
  change (2 ^ 8) with 256. change (2 ^ 16) with 65536.
  change (2 ^ 24) with 16777216. change (2 ^ 32) with 4294967296. lia.
Qed.

Lemma le_bytes16_value v :
  v mod 2 ^ 8 + (v / 2 ^ 8) mod 2 ^ 8 * 2 ^ 8 = v mod 2 ^ 16.
Proof.
  change (2 ^ 8) with 256. change (2 ^ 16) with 65536.
  Z.div_mod_to_equations. lia.
Qed.

Lemma le_bytes32_value v :
  v mod 2 ^ 8 + (v / 2 ^ 8) mod 2 ^ 8 * 2 ^ 8
  + (v / 2 ^ 16) mod 2 ^ 8 * 2 ^ 16 + (v / 2 ^ 24) mod 2 ^ 8 * 2 ^ 24
  = v mod 2 ^ 32.
Proof.
  change (2 ^ 8) with 256. change (2 ^ 16) with 65536.
  change (2 ^ 24) with 16777216. change (2 ^ 32) with 4294967296.
  Z.div_mod_to_equations. lia.
Qed.

Lemma le_bytes32_wrap v : le_bytes32 (CN_UDINT_wrap v) = le_bytes32 v.
Proof.
  unfold le_bytes32, CN_UDINT_wrap.
  change (2 ^ 8) with 256. change (2 ^ 16) with 65536.
  change (2 ^ 24) with 16777216. change (2 ^ 32) with 4294967296.
  f_equal; [|f_equal; [|f_equal; [|f_equal]]]; Z.div_mod_to_equations; lia.
Qed.

Lemma pack_UDINT_write m buf v :
  0 <= buf -> buf + 4 <= Z.of_nat (length m) ->
  pack_UDINT m buf v = (write_at m buf (le_bytes32 v), buf + 4).
Proof.
  intros H0 H. unfold pack_UDINT.
  rewrite land_low_octet, land_shiftr_octet1, land_shiftr_octet2,
    land_shiftr_octet3.
  rewrite (poke_write_at m buf) by lia.
  do 3 next_poke.
  rewrite !wrap_octet. simpl.
  f_equal. f_equal. apply le_bytes32_wrap.
Qed.

Lemma pack_UDINT_after_write m p l q v :
  q = p + Z.of_nat (length l) -> 0 <= p -> q + 4 <= Z.of_nat (length m) ->
  pack_UDINT (write_at m p l) q v = (write_at m p (l ++ le_bytes32 v), q + 4).
Proof.
  intros Hq Hp H.
  rewrite pack_UDINT_write; [|lia|rewrite write_at_length; lia].
  rewrite write_at_app' by (simpl; lia). reflexivity.
Qed.

(** What [peek] finds inside octets that were written. *)
Lemma peek_in_image m p l k x :
  0 <= p -> p + Z.of_nat (length l) <= Z.of_nat (length m) ->
  l !! k = Some x -> peek (write_at m p l) (p + Z.of_nat k) = x.
Proof.
  intros Hp H Hk. pose proof (lookup_lt_Some _ _ _ Hk).
  rewrite peek_write_at by lia.
  replace (Z.to_nat (p + Z.of_nat k - p)) with k by lia.
  rewrite Hk. reflexivity.
Qed.

Lemma octet_range v : 0 <= v mod 2 ^ 8 < 2 ^ 8.
Proof. apply Z.mod_pos_bound. lia. Qed.

(** X1: [pack_UINT] stores the low 16 bits of a value, low octet first:
    the octet at [buffer] is the value modulo 2^8 and the octet at
    [buffer + 1] holds the eight bits above them.  [unpack_UINT] at the
    same place reads the value modulo 2^16 back, both move the pointer
    by 2, and the buffer is unchanged before and behind the two
    octets. *)
Theorem pack_UINT_round_trip (m : list Z) (buffer val : Z) :
  0 <= buffer -> buffer + 2 <= Z.of_nat (length m) ->
  let m' := fst (pack_UINT m buffer val) in
  peek m' buffer = val mod 2 ^ 8 /\
  peek m' (buffer + 1) = (val / 2 ^ 8) mod 2 ^ 8 /\
  unpack_UINT m' buffer = (val mod 2 ^ 16, snd (pack_UINT m buffer val)) /\
  snd (pack_UINT m buffer val) = buffer + 2 /\
  take (Z.to_nat buffer) m' = take (Z.to_nat buffer) m /\
  drop (Z.to_nat (buffer + 2)) m' = drop (Z.to_nat (buffer + 2)) m.
Proof.
  intros Hb Hlen m'. subst m'.
  rewrite pack_UINT_write by assumption. cbn [fst snd].
  split; [|split; [|split; [|split; [reflexivity|split]]]].
  - replace buffer with (buffer + Z.of_nat 0) at 2 by lia.
    apply peek_in_image; [lia|simpl; lia|reflexivity].
  - apply (peek_in_image m buffer _ 1); [lia|simpl; lia|reflexivity].
  - pose proof (unpack_UINT_in_image m buffer buffer [] val []) as H.
    cbn [app length] in H. rewrite app_nil_r in H.
    apply H; [lia|lia|simpl; lia].
  - apply take_write_at; simpl; lia.
  - apply (drop_write_at m buffer (le_bytes16 val)); simpl; lia.
Qed.

Lemma pack_UINT_round_trip_witness :
  let m' := fst (pack_UINT (replicate 8 0) 3 0x1234ABCD) in
  peek m' 3 = 0xCD /\ peek m' 4 = 0xAB /\ unpack_UINT m' 3 = (0xABCD, 5).
Proof.
  destruct (pack_UINT_round_trip (replicate 8 0) 3 0x1234ABCD
              ltac:(lia) ltac:(simpl; lia)) as (H0 & H1 & Hu & _).
  split; [exact H0|]. split; [exact H1|exact Hu].
Defined.

Lemma unpack_UDINT_image m p v :
  0 <= p -> p + 4 <= Z.of_nat (length m) ->
  unpack_UDINT (write_at m p (le_bytes32 v)) p = (v mod 2 ^ 32, p + 4).
Proof.
  intros Hp H.
  assert (H0 : peek (write_at m p (le_bytes32 v)) p = v mod 2 ^ 8).
  { replace p with (p + Z.of_nat 0) at 2 by lia.
    apply peek_in_image; [lia|simpl; lia|reflexivity]. }
  assert (H1 : peek (write_at m p (le_bytes32 v)) (p + 1) = (v / 2 ^ 8) mod 2 ^ 8).
  { apply (peek_in_image m p _ 1); [lia|simpl; lia|reflexivity]. }
  assert (H2 : peek (write_at m p (le_bytes32 v)) (p + 2) = (v / 2 ^ 16) mod 2 ^ 8).
  { apply (peek_in_image m p _ 2); [lia|simpl; lia|reflexivity]. }
  assert (H3 : peek (write_at m p (le_bytes32 v)) (p + 3) = (v / 2 ^ 24) mod 2 ^ 8).
  { apply (peek_in_image m p _ 3); [lia|simpl; lia|reflexivity]. }
  rewrite unpack_UDINT_octets; rewrite ?H0, ?H1, ?H2, ?H3;
    try apply octet_range.
  rewrite le_bytes32_value. reflexivity.
Qed.

(** X2: [pack_UDINT] stores the low 32 bits of a value, low octet first:
    the octet at [buffer] is the value modulo 2^8, and the octets at
    [buffer + 1], [buffer + 2] and [buffer + 3] hold the bits 8 to 15, 16
    to 23 and 24 to 31.  [unpack_UDINT] at the same place reads the value
    modulo 2^32 back, both move the pointer by 4, and the buffer is
    unchanged before and behind the four octets. *)
Theorem pack_UDINT_round_trip (m : list Z) (buffer val : Z) :
  0 <= buffer -> buffer + 4 <= Z.of_nat (length m) ->
  let m' := fst (pack_UDINT m buffer val) in
  peek m' buffer = val mod 2 ^ 8 /\
  peek m' (buffer + 1) = (val / 2 ^ 8) mod 2 ^ 8 /\
  peek m' (buffer + 2) = (val / 2 ^ 16) mod 2 ^ 8 /\
  peek m' (buffer + 3) = (val / 2 ^ 24) mod 2 ^ 8 /\
  unpack_UDINT m' buffer = (val mod 2 ^ 32, snd (pack_UDINT m buffer val)) /\
  snd (pack_UDINT m buffer val) = buffer + 4 /\
  take (Z.to_nat buffer) m' = take (Z.to_nat buffer) m /\
  drop (Z.to_nat (buffer + 4)) m' = drop (Z.to_nat (buffer + 4)) m.
Proof.
  intros Hb Hlen m'. subst m'.
  rewrite pack_UDINT_write by assumption. cbn [fst snd].
  split; [|split; [|split; [|split; [|split; [|split; [reflexivity|split]]]]]].
  - replace buffer with (buffer + Z.of_nat 0) at 2 by lia.
    apply peek_in_image; [lia|simpl; lia|reflexivity].
  - apply (peek_in_image m buffer _ 1); [lia|simpl; lia|reflexivity].
  - apply (peek_in_image m buffer _ 2); [lia|simpl; lia|reflexivity].
  - apply (peek_in_image m buffer _ 3); [lia|simpl; lia|reflexivity].
  - apply unpack_UDINT_image; assumption.
  - apply take_write_at; simpl; lia.
  - apply (drop_write_at m buffer (le_bytes32 val)); simpl; lia.
Qed.

Lemma pack_UDINT_round_trip_witness :
  let m' := fst (pack_UDINT (replicate 8 0) 2 0x1F234ABCD) in
  peek m' 2 = 0xCD /\ peek m' 3 = 0xAB /\ peek m' 4 = 0x34 /\
  peek m' 5 = 0xF2 /\ unpack_UDINT m' 2 = (0xF234ABCD, 6).
Proof.
  destruct (pack_UDINT_round_trip (replicate 8 0) 2 0x1F234ABCD
              ltac:(lia) ltac:(simpl; lia)) as (H0 & H1 & H2 & H3 & Hu & _).
  split; [exact H0|]. split; [exact H1|]. split; [exact H2|].
  split; [exact H3|exact Hu].
Defined.

Lemma format_width_cases c :
  (c = "s"%char \/ c = "S"%char \/ c = "i"%char \/ c = "I"%char \/
   c = "d"%char \/ c = "D"%char \/ c = "r"%char \/ c = "R"%char) \/
  (format_width c = None /\ forall m buffer f, unpack m buffer (c :: f) = None).
Proof.
  unfold format_width. cbn [unpack].
  destruct (Ascii.eqb_spec c "s"); [tauto|].
  destruct (Ascii.eqb_spec c "S"); [tauto|].
  destruct (Ascii.eqb_spec c "i"); [tauto|].
  destruct (Ascii.eqb_spec c "I"); [tauto|].
  destruct (Ascii.eqb_spec c "d"); [tauto|].
  destruct (Ascii.eqb_spec c "D"); [tauto|].
  destruct (Ascii.eqb_spec c "r"); [tauto|].
  destruct (Ascii.eqb_spec c "R"); [tauto|].
  right. split; [reflexivity|]. intros; reflexivity.
Qed.

(** X3: [unpack] returns the null pointer exactly when the format holds a
    character other than s, S, i, I, d, D, r, R; otherwise it delivers one
    value per lower-case character and moves the pointer by 1 for s and
    S, 2 for i and I, 4 for d, D and R, and 8 for r. *)
Theorem unpack_format (m : list Z) (buffer : Z) (format : list ascii) :
  (Forall (fun c => format_width c <> None) format ->
   exists vs,
     unpack m buffer format = Some (buffer + format_total_width format, vs) /\
     length vs = length (filter (fun c => format_stores c = true) format)) /\
  (Exists (fun c => format_width c = None) format ->
   unpack m buffer format = None).
Proof.
  revert buffer. induction format as [|c f IH]; intros buffer.
  - split.
    + intros _. exists []. cbn. rewrite Z.add_0_r. split; reflexivity.
    + intros H. inversion H.
  - destruct (format_width_cases c) as [Hc | [Hnone Hfail]].
    + assert (Hstep : exists w stored,
                format_width c = Some w /\
                length stored = (if format_stores c then 1 else 0)%nat /\
                unpack m buffer (c :: f) =
                match unpack m (buffer + w) f with
                | Some (b, vs) => Some (b, stored ++ vs)
                | None => None
                end).
      { destruct Hc as [-> | [-> | [-> | [-> | [-> | [-> | [-> | ->]]]]]]];
          cbn [unpack Ascii.eqb Bool.eqb andb orb format_width format_stores];
          unfold unpack_UINT, unpack_UDINT, unpack_REAL.
        - exists 1, [peek m buffer]. auto.
        - exists 1, []. auto.
        - eexists 2, [_]. split; [reflexivity|]. split; reflexivity.
        - exists 2, []. auto.
        - eexists 4, [_]. split; [reflexivity|]. split; reflexivity.
        - exists 4, []. auto.
        - eexists 8, [_]. split; [reflexivity|]. split; [reflexivity|].
          replace (buffer + 4 + 4) with (buffer + 8) by lia. reflexivity.
        - exists 4, []. auto. }
      destruct Hstep as (w & stored & Hw & Hstored & Hstep).
      rewrite Hstep. split.
      * intros Hall. apply Forall_cons in Hall. destruct Hall as [_ Hall].
        destruct (proj1 (IH (buffer + w)) Hall) as (vs & Hvs & Hlen).
        rewrite Hvs. exists (stored ++ vs). split.
        -- cbn [format_total_width fold_right]. rewrite Hw. cbn [default].
           fold (format_total_width f). unfold id.
           replace (buffer + (w + format_total_width f))
             with (buffer + w + format_total_width f) by lia.
           reflexivity.
        -- rewrite length_app, Hlen, Hstored, filter_cons.
           destruct (format_stores c); destruct (decide _);
             try congruence; reflexivity.
      * intros Hex. apply Exists_cons in Hex. destruct Hex as [Hbad | Hex].
        -- congruence.
        -- rewrite (proj2 (IH (buffer + w)) Hex). reflexivity.
    + split.
      * intros Hall. apply Forall_cons in Hall. destruct Hall as [Hc _].
        contradiction.
      * intros _. apply Hfail.
Qed.

Lemma unpack_format_witness :
  (exists vs,
     unpack [1; 2; 3; 4; 5; 6; 7; 8] 0 (list_ascii_of_string "iSd")
     = Some (7, vs) /\ length vs = 2%nat) /\
  unpack [1; 2; 3; 4] 0 (list_ascii_of_string "ix") = None.
Proof.
  split.
  - apply (proj1 (unpack_format [1; 2; 3; 4; 5; 6; 7; 8] 0
                    (list_ascii_of_string "iSd"))).
    repeat constructor; discriminate.
  - apply (proj2 (unpack_format [1; 2; 3; 4] 0 (list_ascii_of_string "ix"))).
    right. left. reflexivity.
Defined.

Lemma peek_in_image_mid m p A X B k x :
  0 <= p -> p + Z.of_nat (length (A ++ X ++ B)) <= Z.of_nat (length m) ->
  X !! k = Some x ->
  peek (write_at m p (A ++ X ++ B)) (p + Z.of_nat (length A) + Z.of_nat k) = x.
Proof.
  intros Hp H Hk.
  replace (p + Z.of_nat (length A) + Z.of_nat k)
    with (p + Z.of_nat (length A + k)) by lia.
  apply peek_in_image; [assumption|assumption|].
  rewrite lookup_app_r by lia.
  replace (length A + k - length A)%nat with k by lia.
  apply lookup_app_l_Some. assumption.
Qed.

Lemma unpack_UDINT_in_image m p q A v B :
  q = p + Z.of_nat (length A) -> 0 <= p ->
  p + Z.of_nat (length (A ++ le_bytes32 v ++ B)) <= Z.of_nat (length m) ->
  unpack_UDINT (write_at m p (A ++ le_bytes32 v ++ B)) q
  = (v mod 2 ^ 32, q + 4).
Proof.
  intros -> Hp H.
  set (M := write_at m p (A ++ le_bytes32 v ++ B)).
  assert (H0 : peek M (p + Z.of_nat (length A)) = v mod 2 ^ 8).
  { replace (p + Z.of_nat (length A))
      with (p + Z.of_nat (length A) + Z.of_nat 0) by lia.
    apply peek_in_image_mid; [assumption|assumption|reflexivity]. }
  assert (H1 : peek M (p + Z.of_nat (length A) + 1) = (v / 2 ^ 8) mod 2 ^ 8).
  { apply (peek_in_image_mid m p A _ B 1); [assumption|assumption|reflexivity]. }
  assert (H2 : peek M (p + Z.of_nat (length A) + 2) = (v / 2 ^ 16) mod 2 ^ 8).
  { apply (peek_in_image_mid m p A _ B 2); [assumption|assumption|reflexivity]. }
  assert (H3 : peek M (p + Z.of_nat (length A) + 3) = (v / 2 ^ 24) mod 2 ^ 8).
  { apply (peek_in_image_mid m p A _ B 3); [assumption|assumption|reflexivity]. }
  rewrite unpack_UDINT_octets; rewrite ?H0, ?H1, ?H2, ?H3;
    try apply octet_range.
  rewrite le_bytes32_value. reflexivity.
Qed.

Lemma field_octets_length f :
  Z.of_nat (length (field_octets f)) = default 0 (format_width (field_format f)).
Proof. destruct f; reflexivity. Qed.

(** Reading back a run of packed values. *)
Lemma unpack_packed fs : forall m p A B q,
  q = p + Z.of_nat (length A) -> 0 <= p ->
  p + Z.of_nat (length (A ++ packed fs ++ B)) <= Z.of_nat (length m) ->
  unpack (write_at m p (A ++ packed fs ++ B)) q (map field_format fs)
  = Some (q + Z.of_nat (length (packed fs)), map field_value fs).
Proof.
  induction fs as [|f fs IH]; intros m p A B q Hq Hp H.
  - cbn. rewrite Z.add_0_r. reflexivity.
  - unfold packed in *. cbn [map concat] in *.
    assert (Hshift : A ++ (field_octets f ++ concat (map field_octets fs)) ++ B
                     = (A ++ field_octets f) ++ concat (map field_octets fs) ++ B)
      by (rewrite <- !app_assoc; reflexivity).
    assert (Hnext : unpack (write_at m p
                      (A ++ (field_octets f ++ concat (map field_octets fs)) ++ B))
                      (q + Z.of_nat (length (field_octets f)))
                      (map field_format fs)
                    = Some (q + Z.of_nat (length (field_octets f))
                              + Z.of_nat (length (concat (map field_octets fs))),
                            map field_value fs)).
    { rewrite Hshift. apply IH.
      - rewrite length_app. lia.
      - assumption.
      - rewrite <- Hshift. assumption. }
    rewrite length_app, Nat2Z.inj_add, Z.add_assoc.
    rewrite <- app_assoc in H |- *.
    destruct f as [v|v|v]; cbn [field_format field_octets field_value unpack
                                Ascii.eqb Bool.eqb andb] in *.
    + rewrite <- app_assoc in Hnext. cbn [app length] in Hnext |- *.
      replace (q + 1) with (q + Z.of_nat 1) by lia.
      rewrite Hnext.
      rewrite (peek_write_at_mid m p q A) by (cbn [app] in H; assumption).
      reflexivity.
    + rewrite <- app_assoc in Hnext.
      rewrite unpack_UINT_in_image by assumption.
      change (Z.of_nat (length (le_bytes16 v))) with 2 in Hnext |- *.
      rewrite Hnext. reflexivity.
    + rewrite <- app_assoc in Hnext.
      rewrite unpack_UDINT_in_image by assumption.
      change (Z.of_nat (length (le_bytes32 v))) with 4 in Hnext |- *.
      rewrite Hnext. reflexivity.
Qed.

Lemma EIP_reserve_buffer_ok b requested alloc :
  GrowBuffer_wf b -> malloc_wf requested alloc -> 0 <= requested < 2 ^ 32 ->
  snd (EIP_reserve_buffer b requested alloc) = true ->
  GrowBuffer_wf (fst (EIP_reserve_buffer b requested alloc)) /\
  requested <= gb_size (fst (EIP_reserve_buffer b requested alloc)).
Proof.
  intros (Hsize & Hblock) Halloc Hreq. unfold EIP_reserve_buffer.
  destruct b as [buffer size]. cbn [gb_size gb_buffer] in *.
  destruct (size >=? requested) eqn:E; cbn [fst snd].
  - intros _. split; [split; assumption|cbn; lia].
  - rewrite size_t_int_round_trip by assumption.
    destruct alloc as [fresh|]; cbn [malloc_wf] in Halloc.
    + destruct buffer as [old|]; cbn [fst snd]; intros _;
        unfold GrowBuffer_wf; cbn [fst gb_size gb_buffer].
      * split; [split; [lia|]|lia].
        unfold copy_into. rewrite length_app, length_take, length_drop.
        assert (size < requested) by lia. lia.
      * split; [split; [lia|assumption]|lia].
    + discriminate.
Qed.

Lemma EIP_reserve_buffer_max b requested alloc :
  snd (EIP_reserve_buffer b requested alloc) = true ->
  gb_size (fst (EIP_reserve_buffer b requested alloc))
  = Z.max (gb_size b) requested.
Proof.
  unfold EIP_reserve_buffer.
  destruct (gb_size b >=? requested) eqn:E; cbn [fst snd]; [lia|].
  destruct alloc as [fresh|]; [|discriminate].
  destruct (gb_buffer b); cbn [fst snd gb_size]; lia.
Qed.

Lemma EIP_reserve_buffer_fails b requested alloc :
  snd (EIP_reserve_buffer b requested alloc) = false ->
  fst (EIP_reserve_buffer b requested alloc) = b /\
  gb_size b < requested /\ alloc = None.
Proof.
  unfold EIP_reserve_buffer.
  destruct (gb_size b >=? requested) eqn:E; cbn [fst snd]; [discriminate|].
  destruct alloc as [fresh|].
  - destruct (gb_buffer b); discriminate.
  - intros _. destruct b. cbn in *. split; [reflexivity|]. split; [lia|reflexivity].
Qed.

(** A header goes into a buffer that is large enough, or into a fresh
    one. *)
Lemma make_EncapsulationHeader_write c b command length options alloc :
  GrowBuffer_wf b -> malloc_wf (24 + length mod 2 ^ 16) alloc ->
  snd (EIP_reserve_buffer b (24 + length mod 2 ^ 16) alloc) = true ->
  exists m,
    gb_buffer (fst (EIP_reserve_buffer b (24 + length mod 2 ^ 16) alloc))
      = Some m /\
    24 + length mod 2 ^ 16 <= Z.of_nat (List.length m) /\
    make_EncapsulationHeader c b command length options alloc
    = (mkGrowBuffer
         (Some (write_at m 0
                  (packed (encapsulation_header_fields command length
                             (session c) options))))
         (Z.of_nat (List.length m)),
       Some 24).
Proof.
  intros Hwf Halloc Hok.
  pose proof (Z.mod_pos_bound length (2 ^ 16) ltac:(lia)) as Hl.
  change (2 ^ 16) with 65536 in *.
  destruct (EIP_reserve_buffer_ok b (24 + length mod 65536) alloc Hwf Halloc)
    as [[Hsize Hblock] Hroom]; [lia|assumption|].
  unfold make_EncapsulationHeader, sizeof_EncapsulationHeader, CN_UINT_wrap.
  change (2 ^ 16) with 65536.
  rewrite size_t_wrap_small by lia.
  destruct (EIP_reserve_buffer b (24 + length mod 65536) alloc) as [b' ok].
  cbn [fst snd] in *. subst ok.
  destruct b' as [[m|] size]; cbn [gb_buffer gb_size] in *; [|lia].
  exists m. split; [reflexivity|]. split; [lia|].
  rewrite pack_UINT_write by lia. cbv iota beta.
  rewrite pack_UINT_after_write by (simpl; lia). cbv iota beta.
  rewrite pack_UDINT_after_write by (simpl; lia). cbv iota beta.
  rewrite pack_UDINT_after_write by (simpl; lia). cbv iota beta.
  unfold pack_USINT.
  do 8 next_poke.
  rewrite pack_UDINT_after_write by (simpl; lia).
  rewrite Hblock.
  replace (length mod 65536) with (length mod 2 ^ 16) by reflexivity.
  unfold packed, encapsulation_header_fields. cbn [map concat field_octets].
  rewrite <- (le_bytes16_wrap length). unfold CN_UINT_wrap.
  reflexivity.
Qed.

Lemma header_fields_length command length session options :
  List.length (packed (encapsulation_header_fields command length session options))
  = 24%nat.
Proof. reflexivity. Qed.

(** X4: [make_EncapsulationHeader] fails exactly when the buffer is
    smaller than the 24 octets of the header plus the announced length
    and [malloc] gives nothing, and the buffer is as it was then.
    Otherwise it returns the place behind the header, the buffer has room
    for the frame, and [unpack_EncapsulationHeader] reads back the
    command and the length (modulo 2^16), the session of the connection,
    status 0, the context "AIRPLANE" and the options. *)
Theorem make_EncapsulationHeader_round_trip (c : EIPConnection)
    (b : GrowBuffer) (command length options : Z) (alloc : malloc_result) :
  GrowBuffer_wf b -> malloc_wf (24 + length mod 2 ^ 16) alloc ->
  let r := make_EncapsulationHeader c b command length options alloc in
  (snd r <> None ->
   snd r = Some 24 /\
   24 + length mod 2 ^ 16 <= gb_size (fst r) /\
   GrowBuffer_wf (fst r) /\
   unpack_EncapsulationHeader (contents (fst r)) 0
   = Some (24, mkEncapsulationHeader (command mod 2 ^ 16) (length mod 2 ^ 16)
                 (session c mod 2 ^ 32) 0 [65; 73; 82; 80; 76; 65; 78; 69]
                 (options mod 2 ^ 32))) /\
  (snd r = None <-> gb_size b < 24 + length mod 2 ^ 16 /\ alloc = None) /\
  (snd r = None -> fst r = b).
Proof.
  intros Hwf Halloc r. subst r.
  pose proof (Z.mod_pos_bound length (2 ^ 16) ltac:(lia)) as Hl.
  destruct (snd (EIP_reserve_buffer b (24 + length mod 2 ^ 16) alloc)) eqn:Hok.
  - destruct (make_EncapsulationHeader_write c b command length options alloc
                Hwf Halloc Hok) as (m & Hm & Hroom & Heq).
    rewrite Heq. cbn [fst snd gb_size].
    split; [intros _|split; [split; [discriminate|]|discriminate]].
    + split; [reflexivity|]. split; [assumption|]. split.
      * split; cbn [gb_size gb_buffer].
        -- destruct (EIP_reserve_buffer_ok b (24 + length mod 2 ^ 16) alloc
                       Hwf Halloc) as [[Hs Hb] _];
             [change (2 ^ 16) with 65536 in *; lia|assumption|].
           rewrite Hm in Hb. lia.
        -- rewrite write_at_length; [reflexivity|lia|].
           rewrite header_fields_length. lia.
      * unfold contents, unpack_EncapsulationHeader. cbn [gb_buffer].
        pose proof (unpack_packed
                      (encapsulation_header_fields command length (session c)
                         options) m 0 [] [] 0) as Hu.
        cbn [app List.length] in Hu. rewrite app_nil_r in Hu.
        change (map field_format
                  (encapsulation_header_fields command length (session c) options))
          with (list_ascii_of_string "iiddssssssssd") in Hu.
        rewrite Hu; [reflexivity|lia|lia|].
        rewrite header_fields_length. lia.
    + intros [Hlt Hnone]. subst alloc.
      unfold EIP_reserve_buffer in Hok.
      destruct (gb_size b >=? 24 + length mod 2 ^ 16) eqn:E; [lia|].
      discriminate.
  - destruct (EIP_reserve_buffer_fails _ _ _ Hok) as (Hb & Hlt & Hnone).
    unfold make_EncapsulationHeader, sizeof_EncapsulationHeader, CN_UINT_wrap.
    rewrite size_t_wrap_small by (change (2 ^ 16) with 65536 in *; lia).
    destruct (EIP_reserve_buffer b (24 + length mod 2 ^ 16) alloc) as [b' ok].
    cbn [fst snd] in *. subst ok b'.
    split; [intros H; contradiction H; reflexivity|].
    split; [split; auto|reflexivity].
Qed.

(** A connection with session 0x11223344 and an empty buffer. *)
Definition sample_connection : EIPConnection :=
  mkEIPConnection 7 0x11223344 5000 500.

Lemma make_EncapsulationHeader_round_trip_witness :
  let r := make_EncapsulationHeader sample_connection (mkGrowBuffer None 0)
             EC_RegisterSession 4 0 (Some (replicate 28 0)) in
  unpack_EncapsulationHeader (contents (fst r)) 0
  = Some (24, mkEncapsulationHeader 0x65 4 0x11223344 0
                [65; 73; 82; 80; 76; 65; 78; 69] 0).
Proof.
  intros r.
  assert (Hwf : GrowBuffer_wf (mkGrowBuffer None 0))
    by (split; [cbn; lia|reflexivity]).
  destruct (make_EncapsulationHeader_round_trip sample_connection
              (mkGrowBuffer None 0) EC_RegisterSession 4 0
              (Some (replicate 28 0)) Hwf eq_refl) as [Hok _].
  destruct Hok as (_ & _ & _ & Hu); [discriminate|exact Hu].
Defined.

Lemma int_wrap_small v : 0 <= v < 2 ^ 31 -> int_wrap v = v.
Proof.
  intros H. unfold int_wrap.
  change (2 ^ 31) with 2147483648 in *. change (2 ^ 32) with 4294967296.
  Z.div_mod_to_equations. lia.
Qed.

(** The frame that [EIP_make_SendRRData] sets up. *)
Lemma EIP_make_SendRRData_in c b length alloc :
  GrowBuffer_wf b -> malloc_wf (40 + length) alloc ->
  0 <= length -> 16 + length <= 0xFFFF ->
  snd (EIP_reserve_buffer b (40 + length) alloc) = true ->
  exists m,
    gb_buffer (fst (EIP_reserve_buffer b (40 + length) alloc)) = Some m /\
    40 + length <= Z.of_nat (List.length m) /\
    EIP_make_SendRRData c b length alloc
    = (mkGrowBuffer
         (Some (write_at m 0
                  (packed (encapsulation_header_fields EC_SendRRData
                             (16 + length) (session c) 0)
                   ++ packed (RRData_fields length))))
         (Z.of_nat (List.length m)),
       Some 40).
Proof.
  intros Hwf Halloc Hl Hfit Hok.
  assert (Hmod : (16 + length) mod 2 ^ 16 = 16 + length)
    by (apply Z.mod_small; change (2 ^ 16) with 65536; lia).
  assert (Hreq : 24 + (16 + length) mod 2 ^ 16 = 40 + length) by lia.
  unfold EIP_make_SendRRData, sizeof_EncapsulationRRData,
    sizeof_EncapsulationHeader.
  replace (40 - 24 + length) with (16 + length) by lia.
  rewrite size_t_wrap_small by lia.
  destruct (make_EncapsulationHeader_write c b EC_SendRRData (16 + length) 0 alloc)
    as (m & Hm & Hroom & Heq);
    [assumption|rewrite Hreq; assumption|rewrite Hreq; assumption|].
  rewrite Heq. cbn [gb_buffer gb_size].
  exists m. split; [rewrite <- Hreq; exact Hm|]. split; [lia|].
  assert (Hh : forall l, Z.of_nat (List.length
             (packed (encapsulation_header_fields EC_SendRRData (16 + length)
                        (session c) 0) ++ l)) = 24 + Z.of_nat (List.length l)).
  { intros l. rewrite length_app, header_fields_length. lia. }
  rewrite <- (app_nil_r (packed _)) at 1.
  rewrite pack_UDINT_after_write by (rewrite ?Hh; simpl; lia). cbv iota beta.
  rewrite <- app_assoc.
  do 6 (rewrite pack_UINT_after_write
          by (rewrite ?Hh; simpl; lia); cbv iota beta; rewrite <- app_assoc).
  reflexivity.
Qed.

Lemma EIP_make_SendRRData_write c b length alloc :
  GrowBuffer_wf b -> malloc_wf (40 + length) alloc ->
  0 <= length -> 16 + length <= 0xFFFF ->
  snd (EIP_reserve_buffer b (40 + length) alloc) = true ->
  exists m,
    40 + length <= Z.of_nat (List.length m) /\
    EIP_make_SendRRData c b length alloc
    = (mkGrowBuffer
         (Some (write_at m 0
                  (packed (encapsulation_header_fields EC_SendRRData
                             (16 + length) (session c) 0)
                   ++ packed (RRData_fields length))))
         (Z.of_nat (List.length m)),
       Some 40).
Proof.
  intros Hwf Halloc Hl Hfit Hok.
  destruct (EIP_make_SendRRData_in c b length alloc Hwf Halloc Hl Hfit Hok)
    as (m & _ & Hroom & Heq).
  exists m. split; assumption.
Qed.

(** X5: [EIP_make_SendRRData] for a request of [length] octets, with
    [16 + length] within 16 bits, fails exactly when the buffer is smaller
    than [40 + length] and [malloc] gives nothing.  Otherwise it returns
    the place 40, [EIP_unpack_RRData] reads back a SendRRData header of
    length [16 + length] with the session of the connection, interface
    handle 0, timeout 0, two items, an empty address item and a data
    item of type 0xB2 and [length] octets, and
    [EIP_send_connection_buffer] hands the first [40 + length] octets of
    the buffer to the socket and succeeds when the socket takes them
    all. *)
Theorem EIP_make_SendRRData_round_trip (c : EIPConnection) (b : GrowBuffer)
    (length : Z) (alloc : malloc_result) :
  GrowBuffer_wf b -> malloc_wf (40 + length) alloc ->
  0 <= length -> 16 + length <= 0xFFFF ->
  let r := EIP_make_SendRRData c b length alloc in
  (snd r <> None ->
   snd r = Some 40 /\
   40 + length <= gb_size (fst r) /\
   EIP_unpack_RRData (contents (fst r)) 0
   = Some (40, mkEncapsulationRRData
                 (mkEncapsulationHeader EC_SendRRData (16 + length)
                    (session c mod 2 ^ 32) 0
                    [65; 73; 82; 80; 76; 65; 78; 69] 0)
                 0 0 2 0 0 0xB2 length) /\
   forall send,
     EIP_send_connection_buffer (contents (fst r)) send
     = (send (take (Z.to_nat (40 + length)) (contents (fst r)))
        =? 40 + length)) /\
  (snd r = None <-> gb_size b < 40 + length /\ alloc = None).
Proof.
  intros Hwf Halloc Hl Hfit r. subst r.
  assert (Hmod : (16 + length) mod 2 ^ 16 = 16 + length)
    by (apply Z.mod_small; change (2 ^ 16) with 65536; lia).
  assert (Hreq : 24 + (16 + length) mod 2 ^ 16 = 40 + length) by lia.
  destruct (snd (EIP_reserve_buffer b (40 + length) alloc)) eqn:Hok.
  - destruct (EIP_make_SendRRData_write c b length alloc Hwf Halloc Hl Hfit Hok)
      as (m & Hroom & Heq).
    rewrite Heq. cbn [fst snd gb_size gb_buffer]. unfold contents.
    cbn [gb_buffer].
    set (hdr := encapsulation_header_fields EC_SendRRData (16 + length)
                  (session c) 0).
    assert (Hlen : Z.of_nat (List.length (packed hdr ++ packed (RRData_fields length)))
                   = 40) by reflexivity.
    split; [intros _|split; [discriminate|]].
    + split; [reflexivity|]. split; [lia|]. split.
      * unfold EIP_unpack_RRData, unpack_EncapsulationHeader.
        pose proof (unpack_packed hdr m 0 [] (packed (RRData_fields length)) 0)
          as Hu.
        cbn [app List.length] in Hu.
        change (map field_format hdr)
          with (list_ascii_of_string "iiddssssssssd") in Hu.
        rewrite Hu by (rewrite ?Hlen; lia).
        cbn [map hdr encapsulation_header_fields field_value].
        pose proof (unpack_packed (RRData_fields length) m 0 (packed hdr) [] 24)
          as Hr.
        rewrite app_nil_r in Hr.
        change (map field_format (RRData_fields length))
          with (list_ascii_of_string "diiiiii") in Hr.
        change (0 + Z.of_nat (List.length (packed hdr))) with 24.
        rewrite Hr by (rewrite ?Hlen; reflexivity || lia).
        cbn [map RRData_fields field_value].
        change (Z.of_nat (List.length (packed (RRData_fields length)))) with 16.
        rewrite Hmod.
        replace (length mod 2 ^ 16) with length
          by (symmetry; apply Z.mod_small; change (2 ^ 16) with 65536; lia).
        reflexivity.
      * intros send. unfold EIP_send_connection_buffer.
        pose proof (unpack_UINT_in_image m 0 2 (le_bytes16 EC_SendRRData)
                      (16 + length)
                      (le_bytes32 (session c) ++ le_bytes32 0
                       ++ [65; 73; 82; 80; 76; 65; 78; 69] ++ le_bytes32 0
                       ++ packed (RRData_fields length))) as Hu.
        change (le_bytes16 EC_SendRRData ++ le_bytes16 (16 + length)
                ++ le_bytes32 (session c) ++ le_bytes32 0
                ++ [65; 73; 82; 80; 76; 65; 78; 69] ++ le_bytes32 0
                ++ packed (RRData_fields length))
          with (packed hdr ++ packed (RRData_fields length)) in Hu.
        rewrite Hu by (rewrite ?Hlen; reflexivity || lia).
        unfold CN_UINT_wrap, sizeof_EncapsulationHeader. rewrite Hmod.
        rewrite int_wrap_small by lia.
        replace (24 + (16 + length)) with (40 + length) by lia.
        reflexivity.
    + intros [Hlt Hnone]. subst alloc.
      unfold EIP_reserve_buffer in Hok.
      destruct (gb_size b >=? 40 + length) eqn:E; [lia|discriminate].
  - destruct (EIP_reserve_buffer_fails _ _ _ Hok) as (Hb & Hlt & Hnone).
    unfold EIP_make_SendRRData, make_EncapsulationHeader,
      sizeof_EncapsulationRRData, sizeof_EncapsulationHeader, CN_UINT_wrap.
    replace (40 - 24 + length) with (16 + length) by lia.
    rewrite (size_t_wrap_small (16 + length)) by lia.
    rewrite Hreq. rewrite size_t_wrap_small by lia.
    destruct (EIP_reserve_buffer b (40 + length) alloc) as [b' ok].
    cbn [fst snd] in *. subst ok b'.
    split; [intros H; contradiction H; reflexivity|].
    split; auto.
Qed.

Lemma EIP_make_SendRRData_round_trip_witness :
  let r := EIP_make_SendRRData sample_connection (mkGrowBuffer None 0) 12
             (Some (replicate 52 0)) in
  snd r = Some 40 /\
  region (contents (fst r)) 0 40
  = [0x6F; 0; 28; 0; 0x44; 0x33; 0x22; 0x11; 0; 0; 0; 0;
     65; 73; 82; 80; 76; 65; 78; 69; 0; 0; 0; 0;
     0; 0; 0; 0; 0; 0; 2; 0; 0; 0; 0; 0; 0xB2; 0; 12; 0] /\
  forall send,
    EIP_send_connection_buffer (contents (fst r)) send
    = (send (take 52 (contents (fst r))) =? 52).
Proof.
  intros r.
  assert (Hwf : GrowBuffer_wf (mkGrowBuffer None 0))
    by (split; [cbn; lia|reflexivity]).
  destruct (EIP_make_SendRRData_round_trip sample_connection
              (mkGrowBuffer None 0) 12 (Some (replicate 52 0)) Hwf eq_refl)
    as [Hok _]; [lia|lia|].
  destruct Hok as (Hp & _ & _ & Hsend); [discriminate|].
  split; [exact Hp|]. split; [reflexivity|exact Hsend].
Defined.

Lemma land_bit5 f :
  (Z.land f (Z.shiftl 1 5) =? 0) = negb (Z.testbit f 5).
Proof.
  change (Z.shiftl 1 5) with (2 ^ 5).
  destruct (Z.testbit f 5) eqn:E; cbn [negb].
  - apply Z.eqb_neq. intros H.
    apply (f_equal (fun x => Z.testbit x 5)) in H.
    rewrite Z.land_spec, E, Z.pow2_bits_true, Z.bits_0 in H by lia.
    discriminate.
  - apply Z.eqb_eq. apply Z.bits_inj'. intros n Hn.
    rewrite Z.land_spec, Z.bits_0, Z.pow2_bits_eqb by lia.
    destruct (Z.eqb_spec 5 n) as [<-|]; [rewrite E; reflexivity|].
    apply andb_false_r.
Qed.

Lemma service_fields_format e :
  entry_wf e ->
  map field_format (service_fields e)
  = list_ascii_of_string "iiiissssssssssssssss".
Proof.
  unfold entry_wf, service_fields. destruct e as [t l v f name]. cbn [se_name].
  intros H.
  do 16 (destruct name as [|? name]; [discriminate H|]).
  destruct name; [reflexivity|discriminate H].
Qed.

Lemma service_fields_length e :
  entry_wf e -> List.length (packed (service_fields e)) = 24%nat.
Proof.
  unfold entry_wf, service_fields. destruct e as [t l v f name]. cbn [se_name].
  intros H.
  do 16 (destruct name as [|? name]; [discriminate H|]).
  destruct name; [reflexivity|discriminate H].
Qed.

Lemma list_services_loop_image services : forall m p A B buf ok,
  Forall entry_wf services ->
  buf = p + Z.of_nat (List.length A) -> 0 <= p ->
  p + Z.of_nat (List.length
                  (A ++ concat (map (fun e => packed (service_fields e)) services)
                   ++ B)) <= Z.of_nat (List.length m) ->
  list_services_loop
    (write_at m p
       (A ++ concat (map (fun e => packed (service_fields e)) services) ++ B))
    buf (List.length services) ok
  = ok && forallb supports_CIP_PDU services.
Proof.
  induction services as [|e services IH]; intros m p A B buf ok Hwf Hbuf Hp Hlen.
  - cbn. rewrite andb_true_r. reflexivity.
  - apply Forall_cons in Hwf. destruct Hwf as [He Hwf].
    cbn [map concat List.length list_services_loop forallb] in *.
    rewrite <- (service_fields_format e He).
    rewrite <- app_assoc in Hlen |- *.
    rewrite (unpack_packed (service_fields e) m p A _ buf Hbuf Hp Hlen).
    unfold service_fields at 1. cbn [map app field_value].
    assert (Hshift :
      A ++ packed (service_fields e)
        ++ concat (map (fun e => packed (service_fields e)) services) ++ B
      = (A ++ packed (service_fields e))
        ++ concat (map (fun e => packed (service_fields e)) services) ++ B)
      by (rewrite <- !app_assoc; reflexivity).
    rewrite Hshift in Hlen |- *.
    rewrite IH; [|assumption|rewrite length_app; lia|assumption|assumption].
    rewrite land_bit5. unfold supports_CIP_PDU.
    destruct (Z.testbit (se_flags e mod 2 ^ 16) 5); cbn [negb andb];
      [reflexivity|].
    rewrite andb_false_r. reflexivity.
Qed.

Lemma write_at_prefix l rest : write_at (l ++ rest) 0 l = l ++ rest.
Proof.
  unfold write_at. change (Z.to_nat 0) with 0%nat.
  rewrite take_0, Nat.add_0_l, drop_app_length. reflexivity.
Qed.

Lemma write_at_self l : write_at l 0 l = l.
Proof.
  pose proof (write_at_prefix l []) as H. rewrite app_nil_r in H. exact H.
Qed.

Lemma EIP_reserve_buffer_succeeds b requested alloc :
  (gb_size b < requested -> alloc <> None) ->
  snd (EIP_reserve_buffer b requested alloc) = true.
Proof.
  intros H. unfold EIP_reserve_buffer.
  destruct (gb_size b >=? requested) eqn:E; [reflexivity|].
  destruct alloc as [fresh|]; [destruct (gb_buffer b); reflexivity|].
  exfalso. apply H; [lia|reflexivity].
Qed.

(** The header that a reply begins with, as [unpack_EncapsulationHeader]
    reads it. *)
Lemma unpack_reply_header command session status data rest :
  unpack_EncapsulationHeader (reply_frame command session status data ++ rest) 0
  = Some (24, mkEncapsulationHeader (command mod 2 ^ 16)
                (Z.of_nat (List.length data) mod 2 ^ 16)
                (session mod 2 ^ 32) (status mod 2 ^ 32)
                [65; 73; 82; 80; 76; 65; 78; 69] 0).
Proof.
  unfold reply_frame, unpack_EncapsulationHeader.
  set (fs := [f_UINT command; f_UINT (Z.of_nat (List.length data));
              f_UDINT session; f_UDINT status;
              f_USINT 65; f_USINT 73; f_USINT 82; f_USINT 80;
              f_USINT 76; f_USINT 65; f_USINT 78; f_USINT 69; f_UDINT 0]).
  rewrite <- app_assoc.
  pose proof (unpack_packed fs ((packed fs ++ data ++ rest)) 0 []
                (data ++ rest) 0) as Hu.
  cbn [app] in Hu. rewrite write_at_self in Hu.
  change (map field_format fs) with (list_ascii_of_string "iiddssssssssd") in Hu.
  rewrite Hu; [reflexivity|reflexivity|lia|].
  cbn [List.length]. lia.
Qed.

(** X6: when the request can be built and the socket takes it,
    [EIP_list_services] accepts a ListServices reply exactly when its
    status is 0 and every service entry has bit 5 of its flags set, so
    also a reply without entries; without a response it fails. *)
Theorem EIP_list_services_reply (c : EIPConnection) (b : GrowBuffer)
    (alloc : malloc_result) (send : list Z -> Z)
    (status : Z) (services : list ServiceEntry) (rest : list Z) (size : Z) :
  GrowBuffer_wf b -> malloc_wf 24 alloc ->
  (gb_size b < 24 -> alloc <> None) ->
  (forall l, send l = Z.of_nat (List.length l)) ->
  Forall entry_wf services -> Z.of_nat (List.length services) <= 0xFFFF ->
  snd (EIP_list_services c b alloc send
         (Some (mkGrowBuffer
                  (Some (list_services_reply status services ++ rest)) size)))
  = (status mod 2 ^ 32 =? 0) && forallb supports_CIP_PDU services /\
  snd (EIP_list_services c b alloc send None) = false.
Proof.
  intros Hwf Halloc Hroom Hsend Hentries Hcount.
  pose proof (EIP_reserve_buffer_succeeds b 24 alloc Hroom) as Hok.
  destruct (make_EncapsulationHeader_write c b EC_ListServices 0 0 alloc)
    as (m & Hm & Hlen & Heq); [assumption|assumption|assumption|].
  change (24 + 0 mod 2 ^ 16) with 24 in Hlen.
  unfold EIP_list_services. rewrite Heq.
  assert (Hsent : EIP_send_connection_buffer
            (contents (mkGrowBuffer
               (Some (write_at m 0
                        (packed (encapsulation_header_fields EC_ListServices 0
                                   (session c) 0))))
               (Z.of_nat (List.length m)))) send = true).
  { unfold contents, EIP_send_connection_buffer. cbn [gb_buffer].
    pose proof (unpack_UINT_in_image m 0 2 (le_bytes16 EC_ListServices) 0
                  (le_bytes32 (session c) ++ le_bytes32 0
                   ++ [65; 73; 82; 80; 76; 65; 78; 69] ++ le_bytes32 0)) as Hu.
    change (le_bytes16 EC_ListServices ++ le_bytes16 0
            ++ le_bytes32 (session c) ++ le_bytes32 0
            ++ [65; 73; 82; 80; 76; 65; 78; 69] ++ le_bytes32 0)
      with (packed (encapsulation_header_fields EC_ListServices 0 (session c) 0))
      in Hu.
    rewrite Hu; [|reflexivity|lia|rewrite header_fields_length; lia].
    change (int_wrap (sizeof_EncapsulationHeader + CN_UINT_wrap 0)) with 24.
    rewrite Hsend, length_take, write_at_length;
      [|lia|rewrite header_fields_length; lia].
    apply Z.eqb_eq. lia. }
  rewrite Hsent. cbn [negb]. split; [|reflexivity].
  unfold contents at 1 2. cbn [gb_buffer].
  unfold list_services_reply.
  rewrite unpack_reply_header.
  cbn [eh_command eh_status].
  change (EC_ListServices mod 2 ^ 16 =? EC_ListServices) with true.
  cbn [negb orb].
  destruct (status mod 2 ^ 32 =? 0); cbn [negb andb snd]; [|reflexivity].
  unfold reply_frame.
  set (hdr := packed _).
  set (entries := concat (map (fun e => packed (service_fields e)) services)).
  assert (Hh : List.length hdr = 24%nat) by reflexivity.
  rewrite <- !app_assoc.
  set (M := hdr ++ le_bytes16 (Z.of_nat (List.length services))
            ++ entries ++ rest).
  assert (HM : Z.of_nat (List.length M)
               = 26 + Z.of_nat (List.length (entries ++ rest))).
  { unfold M. rewrite !length_app, Hh. simpl. lia. }
  pose proof (unpack_UINT_in_image M 0 24 hdr
                (Z.of_nat (List.length services)) (entries ++ rest)) as Hu.
  fold M in Hu. rewrite write_at_self in Hu.
  rewrite Hu; [|rewrite Hh; reflexivity|lia|lia].
  cbv iota beta. unfold CN_UINT_wrap.
  rewrite Z.mod_small by (change (2 ^ 16) with 65536; lia).
  rewrite Nat2Z.id.
  pose proof (list_services_loop_image services M 0
                (hdr ++ le_bytes16 (Z.of_nat (List.length services))) rest
                26 true Hentries) as Hloop.
  fold entries in Hloop. rewrite <- !app_assoc in Hloop.
  fold M in Hloop. rewrite write_at_self in Hloop.
  cbn [snd]. unfold contents. cbn [gb_buffer]. change (24 + 2) with 26.
  rewrite Hloop; [reflexivity|rewrite length_app, Hh; reflexivity|lia|lia].
Qed.

(** A service that offers CIP PDU encapsulation and one that does not. *)
Definition sample_services : list ServiceEntry :=
  [mkServiceEntry 0x100 20 1 0x20 (replicate 16 67);
   mkServiceEntry 0x101 20 1 0x00 (replicate 16 68)].

Lemma EIP_list_services_reply_witness :
  let send := fun l : list Z => Z.of_nat (List.length l) in
  let reply services :=
    Some (mkGrowBuffer (Some (list_services_reply 0 services ++ [])) 100) in
  snd (EIP_list_services sample_connection (mkGrowBuffer None 0)
         (Some (replicate 24 0)) send (reply sample_services)) = false /\
  snd (EIP_list_services sample_connection (mkGrowBuffer None 0)
         (Some (replicate 24 0)) send (reply (take 1 sample_services))) = true /\
  snd (EIP_list_services sample_connection (mkGrowBuffer None 0)
         (Some (replicate 24 0)) send (reply [])) = true.
Proof.
  intros send reply.
  assert (Hwf : GrowBuffer_wf (mkGrowBuffer None 0))
    by (split; [cbn; lia|reflexivity]).
  assert (H : forall services,
            Forall entry_wf services ->
            Z.of_nat (List.length services) <= 0xFFFF ->
            snd (EIP_list_services sample_connection (mkGrowBuffer None 0)
                   (Some (replicate 24 0)) send (reply services))
            = forallb supports_CIP_PDU services).
  { intros services Hs Hn.
    apply (proj1 (EIP_list_services_reply sample_connection
                    (mkGrowBuffer None 0) (Some (replicate 24 0)) send
                    0 services [] 100 Hwf eq_refl
                    ltac:(discriminate) ltac:(reflexivity) Hs Hn)). }
  split; [|split].
  - rewrite H; [reflexivity|repeat constructor|simpl; lia].
  - rewrite H; [reflexivity|repeat constructor|simpl; lia].
  - rewrite H; [reflexivity|constructor|simpl; lia].
Defined.

(** The RegisterSession request: the header and the protocol version 1
    with options 0. *)
Lemma EIP_register_session_request c b alloc :
  GrowBuffer_wf b -> malloc_wf 28 alloc ->
  (gb_size b < 28 -> alloc <> None) ->
  exists m,
    28 <= Z.of_nat (List.length m) /\
    forall send received,
      EIP_register_session c b alloc send received
      = let frame := packed (encapsulation_header_fields EC_RegisterSession 4
                               (session c) 0) ++ [1; 0; 0; 0] in
        let b1 := mkGrowBuffer (Some (write_at m 0 frame))
                    (Z.of_nat (List.length m)) in
        if negb (send frame =? 28) then (c, b1, false)
        else
          match received with
          | None => (c, b1, false)
          | Some b2 =>
              match unpack_EncapsulationHeader (contents b2) 0 with
              | None => (c, b2, false)
              | Some (_, header) =>
                  if negb (eh_command header =? EC_RegisterSession)
                     || negb (eh_status header =? 0)
                  then (c, b2, false)
                  else (set_session c (eh_session header), b2, true)
              end
          end.
Proof.
  intros Hwf Halloc Hroom.
  pose proof (EIP_reserve_buffer_succeeds b 28 alloc Hroom) as Hok.
  destruct (make_EncapsulationHeader_write c b EC_RegisterSession 4 0 alloc)
    as (m & Hm & Hlen & Heq); [assumption|assumption|assumption|].
  change (24 + 4 mod 2 ^ 16) with 28 in Hlen.
  exists m. split; [assumption|]. intros send received.
  unfold EIP_register_session, sizeof_RegisterSessionData,
    sizeof_EncapsulationHeader.
  change (28 - 24) with 4. rewrite Heq.
  unfold contents at 1. cbn [gb_buffer gb_size].
  rewrite pack_UINT_after_write by (rewrite ?header_fields_length; lia).
  cbv iota beta.
  rewrite pack_UINT_after_write
    by (rewrite ?length_app, ?header_fields_length; simpl; lia).
  cbv iota beta zeta. rewrite <- app_assoc.
  change (le_bytes16 1 ++ le_bytes16 0) with [1; 0; 0; 0].
  set (frame := packed _ ++ [1; 0; 0; 0]).
  assert (Hf : List.length frame = 28%nat) by reflexivity.
  assert (Hsent : EIP_send_connection_buffer (write_at m 0 frame) send
                  = (send frame =? 28)).
  { unfold EIP_send_connection_buffer.
    pose proof (unpack_UINT_in_image m 0 2 (le_bytes16 EC_RegisterSession) 4
                  (le_bytes32 (session c) ++ le_bytes32 0
                   ++ [65; 73; 82; 80; 76; 65; 78; 69] ++ le_bytes32 0
                   ++ [1; 0; 0; 0])) as Hu.
    change (le_bytes16 EC_RegisterSession ++ le_bytes16 4
            ++ le_bytes32 (session c) ++ le_bytes32 0
            ++ [65; 73; 82; 80; 76; 65; 78; 69] ++ le_bytes32 0 ++ [1; 0; 0; 0])
      with frame in Hu.
    rewrite Hu; [|reflexivity|lia|rewrite Hf; lia].
    change (int_wrap (sizeof_EncapsulationHeader + CN_UINT_wrap 4)) with 28.
    change (Z.to_nat 28) with (List.length frame).
    unfold write_at at 1. change (Z.to_nat 0) with 0%nat.
    rewrite take_0. cbn [app].
    rewrite take_app_length. reflexivity. }
  rewrite Hsent. reflexivity.
Qed.

(** X7: [EIP_register_session] hands the 28 octets of a RegisterSession
    request (protocol version 1, options 0) to the socket.  When the
    socket takes them, a reply is accepted exactly when its command is
    RegisterSession and its status 0, and the session of the reply is
    then kept in the connection; when the socket does not take them, or
    no response comes, the result is false and the connection as it
    was. *)
Theorem EIP_register_session_reply (c : EIPConnection) (b : GrowBuffer)
    (alloc : malloc_result) (send : list Z -> Z)
    (command session' status : Z) (data rest : list Z) (size : Z) :
  GrowBuffer_wf b -> malloc_wf 28 alloc ->
  (gb_size b < 28 -> alloc <> None) ->
  let frame := packed (encapsulation_header_fields EC_RegisterSession 4
                         (session c) 0) ++ [1; 0; 0; 0] in
  let b2 := mkGrowBuffer
              (Some (reply_frame command session' status data ++ rest)) size in
  let r := EIP_register_session c b alloc send (Some b2) in
  let r0 := EIP_register_session c b alloc send None in
  (send frame = 28 ->
   r = if (command mod 2 ^ 16 =? EC_RegisterSession)
          && (status mod 2 ^ 32 =? 0)
       then (set_session c (session' mod 2 ^ 32), b2, true)
       else (c, b2, false)) /\
  (send frame <> 28 -> snd r = false /\ fst (fst r) = c) /\
  snd r0 = false /\ fst (fst r0) = c.
Proof.
  intros Hwf Halloc Hroom frame b2 r r0. subst r r0.
  destruct (EIP_register_session_request c b alloc Hwf Halloc Hroom)
    as (m & Hm & Heq).
  rewrite !Heq. cbv zeta. fold frame.
  split; [|split].
  - intros Hsent. rewrite Hsent. cbn [Z.eqb Pos.eqb negb].
    unfold b2, contents. cbn [gb_buffer].
    rewrite unpack_reply_header. cbn [eh_command eh_status eh_session].
    destruct (command mod 2 ^ 16 =? EC_RegisterSession);
      destruct (status mod 2 ^ 32 =? 0); reflexivity.
  - intros Hsent. apply Z.eqb_neq in Hsent. rewrite Hsent.
    split; reflexivity.
  - destruct (send frame =? 28); split; reflexivity.
Qed.

Lemma EIP_register_session_reply_witness :
  let send := fun l : list Z => Z.of_nat (List.length l) in
  let b2 := mkGrowBuffer
              (Some (reply_frame EC_RegisterSession 0xCAFE0001 0 [1; 0; 0; 0]
                     ++ [])) 28 in
  EIP_register_session (mkEIPConnection 7 0 5000 500) (mkGrowBuffer None 0)
    (Some (replicate 28 0)) send (Some b2)
  = (mkEIPConnection 7 0xCAFE0001 5000 500, b2, true).
Proof.
  intros send b2.
  assert (Hwf : GrowBuffer_wf (mkGrowBuffer None 0))
    by (split; [cbn; lia|reflexivity]).
  apply (proj1 (EIP_register_session_reply (mkEIPConnection 7 0 5000 500)
                  (mkGrowBuffer None 0) (Some (replicate 28 0)) send
                  EC_RegisterSession 0xCAFE0001 0 [1; 0; 0; 0] [] 28
                  Hwf eq_refl ltac:(discriminate))).
  reflexivity.
Defined.

Lemma CN_USINT_wrap_octets l : octets l -> map CN_USINT_wrap l = l.
Proof.
  induction 1 as [|v l Hv Hl IH]; cbn; [reflexivity|].
  rewrite IH, CN_USINT_wrap_small by assumption. reflexivity.
Qed.

Lemma tag_path_size_nonneg tag : 0 <= tag_path_size tag.
Proof.
  unfold tag_path_size. apply Z.div_pos; [|lia].
  apply tag_path_bytes_nonneg. lia.
Qed.

Lemma make_CIP_ReadData_write m request tag elements :
  Forall segment_in_range tag -> tag_path_size tag <= 255 ->
  wire_length tag < 2 ^ 32 ->
  0 <= request ->
  request + 4 + wire_length tag <= Z.of_nat (List.length m) ->
  make_CIP_ReadData m request tag elements
  = (write_at m request (read_request_image tag elements),
     request + 4 + wire_length tag).
Proof.
  intros Hr Hp Hw H0 Hlen.
  pose proof (tag_path_size_nonneg tag) as Hp0.
  pose proof (wire_length_nonneg tag) as Hw0.
  unfold make_CIP_ReadData, make_MR_Request, pack_USINT.
  rewrite (poke_write_at m request) by lia.
  next_poke.
  rewrite make_tag_path_write; [|assumption|simpl; lia|lia|lia].
  rewrite pack_UINT_after_write;
    [|rewrite length_app; unfold wire_length; simpl; lia|lia|lia].
  unfold read_request_image, S_CIP_ReadData.
  rewrite !CN_USINT_wrap_small by lia.
  rewrite <- !app_assoc. cbn [app]. f_equal. lia.
Qed.

Lemma CIP_ReadData_size_value tag :
  wire_length tag <= 510 -> CIP_ReadData_size tag = 4 + wire_length tag.
Proof.
  intros H. pose proof (wire_length_nonneg tag).
  unfold CIP_ReadData_size.
  rewrite <- tag_path_size_words by lia.
  rewrite size_t_wrap_small by lia. lia.
Qed.

(** X8: [make_CIP_ReadData] stores, from [request] on, the service 0x4C,
    the size of the path in words, the path of the tag and the number of
    elements in 16 bits.  These are [CIP_ReadData_size tag] octets, the
    pointer returned is behind them, [raw_MR_Request_data] finds the
    number of elements, and the buffer is unchanged before and behind the
    request. *)
Theorem make_CIP_ReadData_layout (m : list Z) (request : Z) (tag : ParsedTag)
    (elements : Z) :
  Forall segment_in_range tag -> wire_length tag <= 510 ->
  0 <= request ->
  request + CIP_ReadData_size tag <= Z.of_nat (List.length m) ->
  let m' := fst (make_CIP_ReadData m request tag elements) in
  let size := CIP_ReadData_size tag in
  region m' request size = read_request_image tag elements /\
  snd (make_CIP_ReadData m request tag elements) = request + size /\
  unpack_UINT m' (raw_MR_Request_data m' request)
    = (elements mod 2 ^ 16, request + size) /\
  take (Z.to_nat request) m' = take (Z.to_nat request) m /\
  drop (Z.to_nat (request + size)) m' = drop (Z.to_nat (request + size)) m.
Proof.
  intros Hr Hw H0 Hlen m' size. subst m' size.
  pose proof (wire_length_nonneg tag) as Hw0.
  pose proof (tag_path_size_words tag ltac:(lia)) as Hwords.
  rewrite CIP_ReadData_size_value in * by assumption.
  rewrite make_CIP_ReadData_write by (assumption || lia).
  cbn [fst snd].
  assert (Himg : Z.of_nat (List.length (read_request_image tag elements))
                 = 4 + wire_length tag).
  { unfold read_request_image. rewrite !length_app. unfold wire_length.
    simpl. lia. }
  split; [|split; [lia|split; [|split]]].
  - rewrite <- Himg. apply region_write_at; lia.
  - unfold raw_MR_Request_data.
    assert (Hp : peek (write_at m request (read_request_image tag elements))
                   (request + 1) = tag_path_size tag).
    { apply (peek_in_image m request _ 1); [lia|lia|reflexivity]. }
    rewrite Hp.
    assert (Hi : read_request_image tag elements
                 = ([S_CIP_ReadData; tag_path_size tag] ++ wire_path tag)
                   ++ le_bytes16 elements ++ []).
    { unfold read_request_image. rewrite app_nil_r, <- app_assoc. reflexivity. }
    rewrite Hi in Himg |- *.
    rewrite unpack_UINT_in_image.
    + unfold CN_UINT_wrap. f_equal. lia.
    + rewrite length_app. unfold wire_length in *. simpl. lia.
    + lia.
    + lia.
  - apply take_write_at; lia.
  - rewrite <- Himg. apply drop_write_at; lia.
Qed.

Lemma make_CIP_ReadData_layout_witness :
  let m' := fst (make_CIP_ReadData (replicate 40 0) 2 sample_tag 3) in
  CIP_ReadData_size sample_tag = 28 /\
  unpack_UINT m' (raw_MR_Request_data m' 2) = (3, 30).
Proof.
  intros m'. split; [reflexivity|].
  assert (Hr : Forall segment_in_range sample_tag)
    by (repeat constructor; cbv; congruence).
  destruct (make_CIP_ReadData_layout (replicate 40 0) 2 sample_tag 3 Hr)
    as (_ & _ & Hu & _).
  - vm_compute. congruence.
  - lia.
  - vm_compute. congruence.
  - exact Hu.
Defined.

Lemma CIP_Type_size_range type : 0 <= CIP_Type_size type <= 4.
Proof.
  unfold CIP_Type_size.
  repeat match goal with |- context [if ?b then _ else _] => destruct b end;
    lia.
Qed.

Lemma octets_take n l : octets l -> octets (take n l).
Proof. apply Forall_take. Qed.

Lemma make_CIP_WriteData_write m buf tag type elements raw_data :
  let data_size := CIP_Type_size type * elements in
  let data := take (Z.to_nat data_size) raw_data in
  Forall segment_in_range tag -> wire_length tag <= 510 ->
  0 <= elements -> octets raw_data ->
  data_size <= Z.of_nat (List.length raw_data) ->
  0 <= buf ->
  buf + 6 + wire_length tag + data_size <= Z.of_nat (List.length m) ->
  Z.of_nat (List.length m) < 2 ^ 32 ->
  make_CIP_WriteData m buf tag type elements raw_data
  = (write_at m buf (write_request_image tag type elements data),
     buf + (6 + wire_length tag + data_size)).
Proof.
  intros data_size data Hr Hw He Hoct Hdata H0 Hlen Hm.
  pose proof (wire_length_nonneg tag) as Hw0.
  pose proof (tag_path_size_words tag ltac:(lia)) as Hwords.
  pose proof (CIP_Type_size_range type) as Ht.
  assert (Hd0 : 0 <= data_size) by (unfold data_size; nia).
  assert (Hdl : Z.of_nat (List.length data) = data_size)
    by (unfold data; rewrite length_take; lia).
  unfold make_CIP_WriteData, make_MR_Request, pack_USINT.
  fold data_size. rewrite (size_t_wrap_small data_size) by lia.
  fold data.
  rewrite (poke_write_at m buf) by lia.
  next_poke.
  rewrite make_tag_path_write; [|assumption|simpl; lia|lia|lia].
  rewrite pack_UINT_after_write;
    [|rewrite length_app; unfold wire_length; simpl; lia|lia|lia].
  rewrite pack_UINT_after_write;
    [|rewrite !length_app; unfold wire_length; simpl; lia|lia|lia].
  rewrite memcpy_after_write;
    [|rewrite !length_app; unfold wire_length; simpl; lia|lia|lia].
  rewrite (CN_USINT_wrap_octets data) by (apply octets_take; assumption).
  unfold write_request_image, S_CIP_WriteData.
  rewrite !CN_USINT_wrap_small by lia.
  rewrite <- !app_assoc. cbn [app]. f_equal. lia.
Qed.

(** X9: [make_CIP_WriteData] stores, from [buf] on, the service 0x4D,
    the size of the path in words, the path of the tag, the type and the
    number of elements in 16 bits each, and [CIP_Type_size type *
    elements] octets of the data.  These are [CIP_WriteData_size] octets,
    6 more than path and data, the pointer returned is behind them, and
    the buffer is unchanged before and behind the request. *)
Theorem make_CIP_WriteData_layout (m : list Z) (buf : Z) (tag : ParsedTag)
    (type elements : Z) (raw_data : list Z) :
  let data_size := CIP_Type_size type * elements in
  Forall segment_in_range tag -> wire_length tag <= 510 ->
  0 <= elements -> octets raw_data ->
  data_size <= Z.of_nat (List.length raw_data) ->
  0 <= buf ->
  buf + 6 + wire_length tag + data_size <= Z.of_nat (List.length m) ->
  Z.of_nat (List.length m) < 2 ^ 32 ->
  let m' := fst (make_CIP_WriteData m buf tag type elements raw_data) in
  let size := CIP_WriteData_size tag data_size in
  size = 6 + wire_length tag + data_size /\
  region m' buf size
    = write_request_image tag type elements
        (take (Z.to_nat data_size) raw_data) /\
  snd (make_CIP_WriteData m buf tag type elements raw_data) = buf + size /\
  take (Z.to_nat buf) m' = take (Z.to_nat buf) m /\
  drop (Z.to_nat (buf + size)) m' = drop (Z.to_nat (buf + size)) m.
Proof.
  intros data_size Hr Hw He Hoct Hdata H0 Hlen Hm m' size.
  subst m' size.
  pose proof (wire_length_nonneg tag) as Hw0.
  pose proof (tag_path_size_words tag ltac:(lia)) as Hwords.
  pose proof (CIP_Type_size_range type) as Ht.
  assert (Hd0 : 0 <= data_size) by (unfold data_size; nia).
  assert (Hsize : CIP_WriteData_size tag data_size
                  = 6 + wire_length tag + data_size).
  { unfold CIP_WriteData_size. rewrite <- Hwords.
    rewrite size_t_wrap_small by lia. lia. }
  rewrite Hsize.
  set (data := take (Z.to_nat data_size) raw_data).
  assert (Hdl : Z.of_nat (List.length data) = data_size)
    by (unfold data; rewrite length_take; lia).
  assert (Heq : make_CIP_WriteData m buf tag type elements raw_data
                = (write_at m buf (write_request_image tag type elements data),
                   buf + (6 + wire_length tag + data_size))).
  { unfold make_CIP_WriteData, make_MR_Request, pack_USINT.
    fold data_size. rewrite (size_t_wrap_small data_size) by lia.
    fold data.
    rewrite (poke_write_at m buf) by lia.
    next_poke.
    rewrite make_tag_path_write; [|assumption|simpl; lia|lia|lia].
    rewrite pack_UINT_after_write;
      [|rewrite length_app; unfold wire_length; simpl; lia|lia|lia].
    rewrite pack_UINT_after_write;
      [|rewrite !length_app; unfold wire_length; simpl; lia|lia|lia].
    rewrite memcpy_after_write;
      [|rewrite !length_app; unfold wire_length; simpl; lia|lia|lia].
    rewrite (CN_USINT_wrap_octets data) by (apply octets_take; assumption).
    unfold write_request_image, S_CIP_WriteData.
    rewrite !CN_USINT_wrap_small by lia.
    rewrite <- !app_assoc. cbn [app]. f_equal. lia. }
  rewrite Heq. cbn [fst snd].
  assert (Himg : Z.of_nat (List.length (write_request_image tag type elements data))
                 = 6 + wire_length tag + data_size).
  { unfold write_request_image. rewrite !length_app. unfold wire_length.
    simpl. lia. }
  split; [reflexivity|]. split; [|split; [reflexivity|split]].
  - rewrite <- Himg. apply region_write_at; lia.
  - apply take_write_at; lia.
  - rewrite <- Himg. apply drop_write_at; lia.
Qed.

Lemma make_CIP_WriteData_layout_witness :
  let tag := [te_name (list_ascii_of_string "ab")] in
  let m' := fst (make_CIP_WriteData (replicate 30 0) 1 tag T_CIP_INT 2
                   [1; 2; 3; 4; 5; 6]) in
  CIP_WriteData_size tag 4 = 14 /\
  region m' 1 14 = [0x4D; 2; 0x91; 2; 97; 98; 0xC3; 0; 2; 0; 1; 2; 3; 4].
Proof.
  intros tag m'.
  destruct (make_CIP_WriteData_layout (replicate 30 0) 1 tag T_CIP_INT 2
              [1; 2; 3; 4; 5; 6]) as (Hs & Hreg & _).
  - repeat constructor; cbv; congruence.
  - vm_compute. congruence.
  - lia.
  - repeat constructor; lia.
  - vm_compute. congruence.
  - lia.
  - vm_compute. congruence.
  - vm_compute. reflexivity.
  - split; [exact Hs|exact Hreg].
Defined.

(** X10: the write sizes that the probe derives are those of the write
    request that is built later.  A read response of [6 + data_size]
    octets is the 4 octets of the MR_Response, the 2 octets of the type
    and the data. *)
Theorem probed_write_size_is_request_size (info : TagInfo) (data_size : Z)
    (net : list Transfer) :
  ~ size_known info -> wire_length (tag info) <= 510 ->
  0 <= data_size -> 6 + data_size <= 0xFFFF ->
  let info' := probed_tag info (reply (6 + data_size) true :: net) in
  cip_r_request_size info' = CIP_ReadData_size (tag info) /\
  cip_r_response_size info' = 6 + data_size /\
  cip_w_request_size info' = CIP_WriteData_size (tag info) data_size /\
  cip_w_response_size info' = 4.
Proof.
  intros Hunknown Hw Hd Hfit info'. subst info'.
  unfold size_known in Hunknown.
  assert (Hr : cip_r_request_size info = 0) by lia.
  assert (Hp : cip_r_response_size info = 0) by lia.
  pose proof (wire_length_nonneg (tag info)) as Hw0.
  pose proof (tag_path_size_words (tag info) ltac:(lia)) as Hwords.
  unfold probed_tag, complete_TagInfo. rewrite Hr, Hp.
  cbn [Z.eqb negb orb EIP_read_tag].
  unfold CN_UINT_wrap. rewrite Z.mod_small by (change (2 ^ 16) with 65536; lia).
  replace (6 + data_size <=? 4) with false by lia.
  cbn [fst set_sizes cip_r_request_size cip_r_response_size
       cip_w_request_size cip_w_response_size].
  split; [reflexivity|]. split; [reflexivity|]. split; [|reflexivity].
  rewrite CIP_ReadData_size_value by assumption.
  unfold CIP_WriteData_size. rewrite <- Hwords.
  rewrite !size_t_wrap_small by (rewrite ?size_t_wrap_small; lia).
  lia.
Qed.

Lemma probed_write_size_is_request_size_witness :
  let info := sample_info 0 0 0 0 sem_free 0 false false in
  let info' := probed_tag info [reply 10 true] in
  cached_sizes info' = (8, 10, 14, 4) /\
  CIP_WriteData_size (tag info) 4 = 14.
Proof.
  intros info info'.
  destruct (probed_write_size_is_request_size info 4 []) as (H1 & H2 & H3 & H4).
  - unfold size_known. cbn. lia.
  - vm_compute. congruence.
  - lia.
  - lia.
  - split; [reflexivity|]. rewrite <- H3. reflexivity.
Defined.

Lemma region_in_image m p A X B :
  0 <= p ->
  p + Z.of_nat (List.length (A ++ X ++ B)) <= Z.of_nat (List.length m) ->
  region (write_at m p (A ++ X ++ B)) (p + Z.of_nat (List.length A))
    (Z.of_nat (List.length X)) = X.
Proof.
  intros Hp H. rewrite !length_app in H. unfold region, write_at.
  rewrite <- !app_assoc.
  rewrite (app_assoc (take (Z.to_nat p) m) A).
  rewrite drop_app_length'
    by (rewrite length_app, length_take; lia).
  rewrite Nat2Z.id. apply take_app_length.
Qed.

Lemma table_entry_in_image m p A T B i off q :
  q = p + Z.of_nat (List.length A) + 2 * Z.of_nat i -> 0 <= p ->
  p + Z.of_nat (List.length (A ++ table_bytes T ++ B))
    <= Z.of_nat (List.length m) ->
  T !! i = Some off -> 0 <= off <= 0xFFFF ->
  unpack_UINT (write_at m p (A ++ table_bytes T ++ B)) q = (off, q + 2).
Proof.
  intros -> Hp Hlen Hoff Hrange.
  pose proof (lookup_lt_Some _ _ _ Hoff) as Hi.
  pose proof (take_drop_middle T i off Hoff) as Hsplit.
  assert (Hi_len : List.length (take i T) = i) by (rewrite length_take; lia).
  assert (Himg : A ++ table_bytes T ++ B =
    (A ++ table_bytes (take i T))
    ++ le_bytes16 off ++ table_bytes (drop (S i) T) ++ B).
  { rewrite <- Hsplit at 1.
    rewrite table_bytes_app. unfold table_bytes at 2. cbn [map concat].
    rewrite <- !app_assoc. reflexivity. }
  rewrite Himg. rewrite unpack_UINT_in_image.
  - unfold CN_UINT_wrap. rewrite Z.mod_small by lia. reflexivity.
  - rewrite !length_app, table_bytes_length, Hi_len. lia.
  - lia.
  - rewrite <- Himg. lia.
Qed.

Lemma mr_response_image_length service status ext data :
  Z.of_nat (List.length (mr_response_image service status ext data))
  = 4 + 2 * Z.of_nat (List.length ext) + Z.of_nat (List.length data).
Proof.
  unfold mr_response_image. rewrite !length_app, table_bytes_length.
  simpl. lia.
Qed.

Lemma EIP_raw_MR_Response_data_image m response service status ext data size :
  0 <= response ->
  response + Z.of_nat (List.length (mr_response_image service status ext data))
    <= Z.of_nat (List.length m) ->
  Z.of_nat (List.length ext) <= 255 -> 0 <= size < 2 ^ 32 ->
  EIP_raw_MR_Response_data
    (write_at m response (mr_response_image service status ext data))
    response size
  = (response + 4 + 2 * Z.of_nat (List.length ext),
     if size >? 4 + 2 * Z.of_nat (List.length ext)
     then size - (4 + 2 * Z.of_nat (List.length ext)) else 0).
Proof.
  intros Hr Hlen Hext Hsize.
  unfold EIP_raw_MR_Response_data.
  assert (H3 : peek (write_at m response
                       (mr_response_image service status ext data))
                 (response + 3) = Z.of_nat (List.length ext)).
  { apply (peek_in_image m response _ 3); [lia|lia|reflexivity]. }
  rewrite H3.
  destruct (Z.of_nat (List.length ext) >? 0) eqn:E.
  - replace (response + 4 + 2 * Z.of_nat (List.length ext) - response)
      with (4 + 2 * Z.of_nat (List.length ext)) by lia.
    rewrite size_t_wrap_small by lia.
    destruct (size >? 4 + 2 * Z.of_nat (List.length ext)) eqn:E2;
      [rewrite size_t_wrap_small by lia|]; reflexivity.
  - assert (Z.of_nat (List.length ext) = 0) by lia.
    replace (response + 4 - response) with 4 by lia.
    rewrite size_t_wrap_small by lia.
    replace (4 + 2 * Z.of_nat (List.length ext)) with 4 by lia.
    replace (response + 4 + 2 * Z.of_nat (List.length ext))
      with (response + 4) by lia.
    destruct (size >? 4) eqn:E2;
      [rewrite size_t_wrap_small by lia|]; reflexivity.
Qed.

(** An MR_Response that lies at [response]: what the check of a read
    makes of it, and where its data is. *)
Lemma check_CIP_ReadData_Response_image (m : list Z) (response : Z)
    (service status : Z) (ext data : list Z) :
  let image := mr_response_image service status ext data in
  let M := write_at m response image in
  let size := Z.of_nat (List.length image) in
  let data_at := response + 4 + 2 * Z.of_nat (List.length ext) in
  0 <= response -> response + size <= Z.of_nat (List.length m) ->
  Z.of_nat (List.length m) < 2 ^ 32 ->
  Z.of_nat (List.length ext) <= 255 ->
  check_CIP_ReadData_Response M response size
  = (if (Z.land service 0x7F =? S_CIP_ReadData) && (status =? 0)
     then Some (data_at, Z.of_nat (List.length data)) else None) /\
  region M data_at (Z.of_nat (List.length data)) = data.
Proof.
  intros image M size data_at Hr Hlen Hm Hext.
  pose proof (mr_response_image_length service status ext data) as Hsize.
  fold image in Hsize. fold size in Hsize.
  split.
  - unfold check_CIP_ReadData_Response, is_raw_MRResponse_ok.
    pose proof (peek_in_image m response image 0 service) as H0.
    change (Z.of_nat 0) with 0 in H0. rewrite Z.add_0_r in H0.
    fold M in H0. rewrite H0 by (lia || reflexivity).
    pose proof (peek_in_image m response image 2 status) as H2.
    fold M in H2. change (Z.of_nat 2) with 2 in H2.
    rewrite H2 by (lia || reflexivity).
    destruct ((Z.land service 0x7F =? S_CIP_ReadData) && (status =? 0));
      [|reflexivity].
    unfold M, image.
    rewrite EIP_raw_MR_Response_data_image by (fold image; lia).
    fold image. fold size. fold data_at.
    replace (size >? 4 + 2 * Z.of_nat (List.length ext))
      with (negb (Z.of_nat (List.length data) =? 0)) by lia.
    destruct (Z.eqb_spec (Z.of_nat (List.length data)) 0) as [Hz|Hz];
      cbn [negb]; do 2 f_equal; lia.
  - unfold M, image, mr_response_image, data_at.
    assert (Hx : Z.of_nat (List.length
                   ([service; 0; status; Z.of_nat (List.length ext)]
                    ++ table_bytes ext))
                 = 4 + 2 * Z.of_nat (List.length ext))
      by (rewrite length_app, table_bytes_length; simpl; lia).
    assert (Hall : Z.of_nat (List.length
                     ([service; 0; status; Z.of_nat (List.length ext)]
                      ++ table_bytes ext ++ data)) = size) by reflexivity.
    rewrite !length_app in Hall, Hx.
    replace (response + 4 + 2 * Z.of_nat (List.length ext))
      with (response + Z.of_nat (List.length
              ([service; 0; status; Z.of_nat (List.length ext)]
               ++ table_bytes ext)))
      by (rewrite length_app; lia).
    rewrite app_assoc.
    rewrite <- write_at_app by (rewrite ?length_app; lia).
    apply region_write_at; [rewrite ?length_app; lia|].
    rewrite write_at_length by (rewrite ?length_app; lia).
    rewrite ?length_app. lia.
Qed.

(** X11: a raw MR_Response is a service, a reserved octet, the general
    status, the number of extended status words, these words and the
    data.  [check_CIP_ReadData_Response] accepts it exactly when the
    service without its reply bit is CIP_ReadData and the status is 0,
    and then delivers the place of the data behind the extended status
    and the length of the data, where the data is found;
    [check_CIP_WriteData_Response] accepts exactly the service
    CIP_WriteData with status 0; a response size that does not reach
    beyond the extended status gives the data size 0. *)
Theorem check_CIP_Response_decodes (m : list Z) (response : Z)
    (service status : Z) (ext data : list Z) :
  let image := mr_response_image service status ext data in
  let M := write_at m response image in
  let size := Z.of_nat (List.length image) in
  let data_at := response + 4 + 2 * Z.of_nat (List.length ext) in
  0 <= response -> response + size <= Z.of_nat (List.length m) ->
  Z.of_nat (List.length m) < 2 ^ 32 ->
  Z.of_nat (List.length ext) <= 255 ->
  check_CIP_ReadData_Response M response size
  = (if (Z.land service 0x7F =? S_CIP_ReadData) && (status =? 0)
     then Some (data_at, Z.of_nat (List.length data)) else None) /\
  region M data_at (Z.of_nat (List.length data)) = data /\
  check_CIP_WriteData_Response M response size
  = ((Z.land service 0x7F =? S_CIP_WriteData) && (status =? 0)) /\
  (forall short, 0 <= short <= 4 + 2 * Z.of_nat (List.length ext) ->
     snd (EIP_raw_MR_Response_data M response short) = 0).
Proof.
  intros image M size data_at Hr Hlen Hm Hext.
  pose proof (mr_response_image_length service status ext data) as Hsize.
  fold image in Hsize. fold size in Hsize.
  assert (H0 : peek M response = service).
  { pose proof (peek_in_image m response image 0 service) as H.
    change (Z.of_nat 0) with 0 in H. rewrite Z.add_0_r in H.
    apply H; [lia|lia|reflexivity]. }
  assert (H2 : peek M (response + 2) = status).
  { apply (peek_in_image m response _ 2); [lia|lia|reflexivity]. }
  split; [|split; [|split]].
  - unfold check_CIP_ReadData_Response, is_raw_MRResponse_ok.
    rewrite H0, H2.
    destruct ((Z.land service 0x7F =? S_CIP_ReadData) && (status =? 0));
      [|reflexivity].
    unfold M, image.
    rewrite EIP_raw_MR_Response_data_image by (fold image; lia).
    fold image. fold size. fold data_at.
    replace (size >? 4 + 2 * Z.of_nat (List.length ext))
      with (negb (Z.of_nat (List.length data) =? 0)) by lia.
    destruct (Z.eqb_spec (Z.of_nat (List.length data)) 0) as [Hz|Hz];
      cbn [negb]; do 2 f_equal; lia.
  - unfold M, image, mr_response_image, data_at.
    replace (response + 4 + 2 * Z.of_nat (List.length ext))
      with (response + Z.of_nat (List.length
              ([service; 0; status; Z.of_nat (List.length ext)]
               ++ table_bytes ext)))
      by (rewrite length_app, table_bytes_length; simpl; lia).
    rewrite app_assoc.
    assert (Hx : Z.of_nat (List.length
                   ([service; 0; status; Z.of_nat (List.length ext)]
                    ++ table_bytes ext))
                 = 4 + 2 * Z.of_nat (List.length ext))
      by (rewrite length_app, table_bytes_length; simpl; lia).
    rewrite <- write_at_app by lia.
    apply region_write_at; [lia|].
    rewrite write_at_length by lia. lia.
  - unfold check_CIP_WriteData_Response, is_raw_MRResponse_ok.
    rewrite H0, H2. reflexivity.
  - intros short Hshort. unfold M, image.
    rewrite EIP_raw_MR_Response_data_image by (fold image; lia).
    cbn [snd].
    replace (short >? 4 + 2 * Z.of_nat (List.length ext)) with false by lia.
    reflexivity.
Qed.

Lemma check_CIP_Response_decodes_witness :
  let M := write_at (replicate 20 0) 2
             (mr_response_image 0xCC 0 [] [0xC4; 0; 1; 0; 0; 0]) in
  check_CIP_ReadData_Response M 2 10 = Some (6, 6) /\
  region M 6 6 = [0xC4; 0; 1; 0; 0; 0] /\
  check_CIP_WriteData_Response M 2 10 = false.
Proof.
  intros M.
  destruct (check_CIP_Response_decodes (replicate 20 0) 2 0xCC 0 []
              [0xC4; 0; 1; 0; 0; 0]) as (Hread & Hdata & Hwrite & _).
  - lia.
  - vm_compute. congruence.
  - vm_compute. reflexivity.
  - simpl. lia.
  - split; [exact Hread|]. split; [exact Hdata|exact Hwrite].
Defined.

Lemma reply_sizes_nonneg replies : Forall (fun s => 0 <= s) (reply_sizes replies).
Proof.
  unfold reply_sizes. apply Forall_forall. intros x Hx.
  apply list_elem_of_fmap in Hx. destruct Hx as (r & -> & _). lia.
Qed.

Lemma sum_reply_sizes replies :
  sum_sizes (reply_sizes replies) = Z.of_nat (List.length (concat replies)).
Proof.
  induction replies as [|r replies IH]; [reflexivity|].
  cbn [reply_sizes map concat]. rewrite sum_sizes_cons, length_app.
  unfold reply_sizes in IH. lia.
Qed.

Lemma concat_split_at (replies : list (list Z)) i r :
  replies !! i = Some r ->
  concat replies = concat (take i replies) ++ r ++ concat (drop (S i) replies).
Proof.
  intros H. rewrite <- (take_drop_middle replies i r H) at 1.
  rewrite concat_app. reflexivity.
Qed.

Section MultiResponse.

Variables (m : list Z) (response status : Z) (replies : list (list Z)).

Let image : list Z :=
  mr_response_image (Z.lor S_CIP_MultiRequest 0x80) status []
    (multi_response_data replies).
Let M : list Z := write_at m response image.
Let size : Z := Z.of_nat (List.length image).
Let N : Z := Z.of_nat (List.length replies).
Let sizes : list Z := reply_sizes replies.
Let T : list Z := map (offset_of sizes) (seq 0 (List.length replies)).

Hypothesis Hr : 0 <= response.
Hypothesis Hlen : response + size <= Z.of_nat (List.length m).
Hypothesis Hfit : offset_of sizes (List.length replies) <= 0xFFFF.

Lemma multi_response_image :
  image = [Z.lor S_CIP_MultiRequest 0x80; 0; status; 0]
          ++ le_bytes16 N ++ table_bytes T ++ concat replies.
Proof. reflexivity. Qed.

Lemma multi_response_image_size :
  size = 6 + 2 * N + Z.of_nat (List.length (concat replies)) /\
  offset_of sizes (List.length replies)
  = 2 * (N + 1) + Z.of_nat (List.length (concat replies)).
Proof.
  assert (Hsl : List.length sizes = List.length replies)
    by (unfold sizes, reply_sizes; apply length_map).
  assert (HT : List.length T = List.length replies)
    by (unfold T; rewrite length_map, length_seq; reflexivity).
  split.
  - unfold size. rewrite multi_response_image, !length_app, table_bytes_length, HT.
    simpl. unfold N. lia.
  - unfold offset_of. rewrite Hsl, <- Hsl, firstn_all.
    unfold sizes at 2. rewrite sum_reply_sizes, Hsl. unfold N. lia.
Qed.

(** The fixed part of the response: service, status, the place of the
    count field, and the count. *)
Lemma multi_response_head :
  peek M response = Z.lor S_CIP_MultiRequest 0x80 /\
  peek M (response + 2) = status /\
  (forall sz, 0 <= sz < 2 ^ 32 ->
     fst (EIP_raw_MR_Response_data M response sz) = response + 4) /\
  unpack_UINT M (response + 4) = (N, response + 6).
Proof.
  destruct multi_response_image_size as [Hsize Hoff].
  split; [|split; [|split]].
  - pose proof (peek_in_image m response image 0
                  (Z.lor S_CIP_MultiRequest 0x80)) as H.
    change (Z.of_nat 0) with 0 in H. rewrite Z.add_0_r in H.
    apply H; [lia|fold size; lia|reflexivity].
  - apply (peek_in_image m response _ 2); [lia|fold size; lia|reflexivity].
  - intros sz Hsz. unfold M, image.
    rewrite EIP_raw_MR_Response_data_image;
      [cbn [fst List.length]; lia|lia|fold image; fold size; lia
      |cbn [List.length]; lia|lia].
  - unfold M. rewrite multi_response_image.
    rewrite (unpack_UINT_in_image m response (response + 4)
               [Z.lor S_CIP_MultiRequest 0x80; 0; status; 0] N);
      [|reflexivity|lia|rewrite <- multi_response_image; fold size; lia].
    unfold CN_UINT_wrap. rewrite Z.mod_small by (unfold N in *; lia).
    f_equal. lia.
Qed.

(** An entry of the offset table. *)
Lemma multi_response_entry i :
  (i < List.length replies)%nat ->
  unpack_UINT M (response + 6 + 2 * Z.of_nat i)
  = (offset_of sizes i, response + 6 + 2 * Z.of_nat i + 2).
Proof.
  intros Hi.
  destruct multi_response_image_size as [Hsize Hoff].
  pose proof (reply_sizes_nonneg replies) as Hnn. fold sizes in Hnn.
  assert (Hsl : List.length sizes = List.length replies)
    by (unfold sizes, reply_sizes; apply length_map).
  unfold M. rewrite multi_response_image.
  replace ([Z.lor S_CIP_MultiRequest 0x80; 0; status; 0]
           ++ le_bytes16 N ++ table_bytes T ++ concat replies)
    with (([Z.lor S_CIP_MultiRequest 0x80; 0; status; 0] ++ le_bytes16 N)
          ++ table_bytes T ++ concat replies)
    by (rewrite <- app_assoc; reflexivity).
  apply (table_entry_in_image m response _ T _ i).
  - simpl. lia.
  - lia.
  - rewrite <- app_assoc, <- multi_response_image. fold size. lia.
  - unfold T. rewrite list_lookup_fmap, lookup_seq_lt by assumption.
    reflexivity.
  - pose proof (offset_of_range sizes i Hnn) as Hrg.
    rewrite Hsl in Hrg. specialize (Hrg Hfit). lia.
Qed.

(** The reply number [i]: where it is found, and that it is there. *)
Lemma multi_response_reply (i : nat) (r : list Z) :
  replies !! i = Some r ->
  let mem := response + 4 + offset_of sizes i in
  get_CIP_MultiRequest_Response M response size (Z.of_nat i)
    = Some (mem, Z.of_nat (List.length r)) /\
  region M mem (Z.of_nat (List.length r)) = r.
Proof.
  intros Hi mem.
  destruct multi_response_image_size as [Hsize Hoff].
  destruct multi_response_head as (_ & _ & Hcountp & Hcount).
  pose proof (reply_sizes_nonneg replies) as Hnn. fold sizes in Hnn.
  assert (Hsl : List.length sizes = List.length replies)
    by (unfold sizes, reply_sizes; apply length_map).
  assert (HT : List.length T = List.length replies)
    by (unfold T; rewrite length_map, length_seq; reflexivity).
  pose proof (lookup_lt_Some _ _ _ Hi) as Hlt.
  assert (Hsi : sizes !! i = Some (Z.of_nat (List.length r))).
  { unfold sizes, reply_sizes. rewrite list_lookup_fmap, Hi. reflexivity. }
  pose proof (offset_of_succ sizes i _ Hsi) as Hnext.
  assert (Hpre : offset_of sizes i
                 = 2 * (N + 1)
                   + Z.of_nat (List.length (concat (take i replies)))).
  { unfold offset_of. rewrite Hsl. fold N.
    rewrite <- (sum_reply_sizes (take i replies)).
    unfold sizes, reply_sizes. rewrite <- fmap_take. reflexivity. }
  assert (Hrg : forall k, 0 < offset_of sizes k <= 0xFFFF).
  { intros k. apply offset_of_range; [assumption|].
    rewrite Hsl. assumption. }
  pose proof (Hrg i) as Hrg_i. pose proof (Hrg (S i)) as Hrg_Si.
  split.
  - unfold get_CIP_MultiRequest_Response.
    rewrite Hcountp by lia. rewrite Hcount.
    replace (Z.of_nat i >=? N) with false by (unfold N; lia).
    rewrite multi_response_entry by assumption.
    rewrite size_t_wrap_small by lia.
    destruct (Z.of_nat i + 1 <? N) eqn:Elast.
    + replace (response + 6 + 2 * (Z.of_nat i + 1))
        with (response + 6 + 2 * Z.of_nat (S i)) by lia.
      rewrite multi_response_entry by (unfold N in Elast; lia).
      rewrite Hnext.
      rewrite size_t_wrap_small by lia.
      unfold mem.
      replace (offset_of sizes i + Z.of_nat (List.length r) - offset_of sizes i)
        with (Z.of_nat (List.length r)) by lia.
      reflexivity.
    + assert (Hi_last : S i = List.length replies) by (unfold N in *; lia).
      rewrite Hi_last in Hnext.
      rewrite size_t_wrap_small by lia.
      unfold mem.
      replace (size - (response + 4 + offset_of sizes i - response))
        with (Z.of_nat (List.length r)) by lia.
      reflexivity.
  - unfold M. rewrite multi_response_image.
    rewrite (concat_split_at replies i r Hi).
    replace ([Z.lor S_CIP_MultiRequest 0x80; 0; status; 0]
             ++ le_bytes16 N ++ table_bytes T
             ++ concat (take i replies) ++ r ++ concat (drop (S i) replies))
      with (([Z.lor S_CIP_MultiRequest 0x80; 0; status; 0]
             ++ le_bytes16 N ++ table_bytes T ++ concat (take i replies))
            ++ r ++ concat (drop (S i) replies))
      by (rewrite <- !app_assoc; reflexivity).
    set (A := [Z.lor S_CIP_MultiRequest 0x80; 0; status; 0]
              ++ le_bytes16 N ++ table_bytes T ++ concat (take i replies)).
    assert (HA : Z.of_nat (List.length A) = 4 + offset_of sizes i).
    { unfold A. rewrite !length_app, table_bytes_length, HT. simpl.
      unfold N in *. lia. }
    assert (Hall : Z.of_nat (List.length (A ++ r ++ concat (drop (S i) replies)))
                   = size).
    { unfold size. rewrite multi_response_image, (concat_split_at replies i r Hi).
      unfold A. rewrite !length_app. lia. }
    replace mem with (response + Z.of_nat (List.length A))
      by (unfold mem; lia).
    apply region_in_image; [lia|]. rewrite Hall. lia.
Qed.

End MultiResponse.

(** X12: the response to a CIP_MultiRequest carries the number [N] of
    replies, the offset of each reply from the count field, and the
    replies.  [check_CIP_MultiRequest_Response] accepts it exactly when
    the status is 0; [get_CIP_MultiRequest_Response] delivers, for a
    reply number below [N], the place of that reply (count field plus
    its offset) and its length, and the reply is found there; for any
    other reply number it delivers the null pointer. *)
Theorem get_CIP_MultiRequest_Response_decodes (m : list Z) (response : Z)
    (status : Z) (replies : list (list Z)) :
  let image :=
    mr_response_image (Z.lor S_CIP_MultiRequest 0x80) status []
      (multi_response_data replies) in
  let M := write_at m response image in
  let size := Z.of_nat (List.length image) in
  let N := Z.of_nat (List.length replies) in
  0 <= response -> response + size <= Z.of_nat (List.length m) ->
  offset_of (reply_sizes replies) (List.length replies) <= 0xFFFF ->
  check_CIP_MultiRequest_Response M response = (status =? 0) /\
  (forall (i : nat) (r : list Z),
     replies !! i = Some r ->
     let mem := response + 4 + offset_of (reply_sizes replies) i in
     get_CIP_MultiRequest_Response M response size (Z.of_nat i)
       = Some (mem, Z.of_nat (List.length r)) /\
     region M mem (Z.of_nat (List.length r)) = r) /\
  (forall reply_no, N <= reply_no ->
     get_CIP_MultiRequest_Response M response size reply_no = None).
Proof.
  intros image M size N Hr Hlen Hfit.
  destruct (multi_response_head m response status replies Hr Hlen Hfit)
    as (H0 & H2 & Hcountp & Hcount).
  fold image M N in H0, H2, Hcountp, Hcount.
  split; [|split].
  - unfold check_CIP_MultiRequest_Response. rewrite H0, H2.
    rewrite Z.eqb_refl. reflexivity.
  - intros i r Hi.
    exact (multi_response_reply m response status replies Hr Hlen Hfit
             i r Hi).
  - intros reply_no Hno. unfold get_CIP_MultiRequest_Response.
    assert (Hsz : 0 <= size < 2 ^ 32).
    { destruct (multi_response_image_size m status replies) as [Hsize Hoff].
      fold image size N in Hsize. fold N in Hoff.
      change (2 ^ 32) with 4294967296. lia. }
    rewrite (Hcountp size Hsz), Hcount.
    replace (reply_no >=? N) with true by lia. reflexivity.
Qed.

Lemma get_CIP_MultiRequest_Response_decodes_witness :
  let replies := [[0xCC; 0; 0; 0; 0xC4; 0; 7; 0; 0; 0]; [0xCD; 0; 0; 0]] in
  let image := mr_response_image (Z.lor S_CIP_MultiRequest 0x80) 0 []
                 (multi_response_data replies) in
  let M := write_at (replicate 40 0) 1 image in
  get_CIP_MultiRequest_Response M 1 24 0 = Some (11, 10) /\
  get_CIP_MultiRequest_Response M 1 24 1 = Some (21, 4) /\
  region M 21 4 = [0xCD; 0; 0; 0] /\
  get_CIP_MultiRequest_Response M 1 24 2 = None.
Proof.
  intros replies image M.
  destruct (get_CIP_MultiRequest_Response_decodes (replicate 40 0) 1 0 replies)
    as (_ & Hget & Hnone).
  - lia.
  - vm_compute. congruence.
  - vm_compute. congruence.
  - destruct (Hget 0%nat _ eq_refl) as [H0 _].
    destruct (Hget 1%nat _ eq_refl) as [H1 Hr1].
    split; [exact H0|]. split; [exact H1|]. split; [exact Hr1|].
    apply Hnone. simpl. lia.
Defined.

Lemma peek_write_at_other m b l q :
  0 <= b -> b + Z.of_nat (List.length l) <= Z.of_nat (List.length m) ->
  0 <= q -> q < b \/ b + Z.of_nat (List.length l) <= q ->
  peek (write_at m b l) q = peek m q.
Proof.
  intros Hb Hlen Hq Hout. unfold peek, write_at. f_equal.
  destruct Hout as [Hlt | Hge].
  - rewrite lookup_app_l by (rewrite length_take; lia).
    apply lookup_take_lt. lia.
  - rewrite lookup_app_r by (rewrite length_take; lia).
    rewrite lookup_app_r by (rewrite length_take; lia).
    rewrite lookup_drop. f_equal. rewrite length_take. lia.
Qed.

Lemma unpack_UINT_write_at_other m b l q :
  0 <= b -> b + Z.of_nat (List.length l) <= Z.of_nat (List.length m) ->
  0 <= q -> q + 2 <= b \/ b + Z.of_nat (List.length l) <= q ->
  unpack_UINT (write_at m b l) q = unpack_UINT m q.
Proof.
  intros Hb Hlen Hq Hout. unfold unpack_UINT.
  rewrite !peek_write_at_other by lia. reflexivity.
Qed.

Lemma CIP_type_cases type :
  known_CIP_type type \/
  (CIP_Type_size type = 0 /\
   (type =? T_CIP_BOOL) || (type =? T_CIP_SINT) = false /\
   (type =? T_CIP_INT) = false /\
   (type =? T_CIP_DINT) || (type =? T_CIP_BITS) = false /\
   (type =? T_CIP_REAL) = false).
Proof.
  unfold known_CIP_type, integer_CIP_type, CIP_Type_size.
  destruct (Z.eqb_spec type T_CIP_BOOL); [tauto|].
  destruct (Z.eqb_spec type T_CIP_SINT); [tauto|].
  destruct (Z.eqb_spec type T_CIP_INT); [tauto|].
  destruct (Z.eqb_spec type T_CIP_DINT); [tauto|].
  destruct (Z.eqb_spec type T_CIP_REAL); [tauto|].
  destruct (Z.eqb_spec type T_CIP_BITS); [tauto|].
  right. repeat split; reflexivity.
Qed.

Ltac eval_type_tests :=
  repeat match goal with
  | |- context [CIP_Type_size ?t] =>
      let v := eval vm_compute in (CIP_Type_size t) in
      change (CIP_Type_size t) with v
  | |- context [?a =? ?b] =>
      let v := eval vm_compute in (a =? b) in change (a =? b) with v
  end;
  cbn [orb].

(** X13: [put_CIP_UDINT] then [get_CIP_UDINT] on the same element of a
    buffer that begins with the type code.  For BOOL, SINT, INT, DINT and
    BITS the value is stored in the 1, 2 or 4 octets of the element and
    nowhere else, and read back modulo 2^8, 2^16 or 2^32; for a type code
    that is none of the six both functions return false and the buffer is
    unchanged. *)
Theorem put_get_CIP_UDINT (REAL_to_UDINT UDINT_to_REAL : Z -> Z)
    (m : list Z) (p type element value : Z) :
  let size := CIP_Type_size type in
  let at_element := p + 2 + element * size in
  let put := put_CIP_UDINT UDINT_to_REAL m p element value in
  0 <= p -> unpack_UINT m p = (type, p + 2) -> 0 <= element ->
  at_element + size <= Z.of_nat (List.length m) ->
  Z.of_nat (List.length m) < 2 ^ 32 ->
  (integer_CIP_type type ->
   snd put = true /\
   get_CIP_UDINT REAL_to_UDINT (fst put) p element
     = Some (value mod 2 ^ (8 * size)) /\
   take (Z.to_nat at_element) (fst put) = take (Z.to_nat at_element) m /\
   drop (Z.to_nat (at_element + size)) (fst put)
     = drop (Z.to_nat (at_element + size)) m) /\
  (~ known_CIP_type type ->
   put = (m, false) /\ get_CIP_UDINT REAL_to_UDINT m p element = None).
Proof.
  intros size at_element put Hp Htype He Hroom Hm.
  pose proof (CIP_Type_size_range type) as Hs. fold size in Hs.
  assert (Hskip : size_t_wrap (element * size) = element * size)
    by (apply size_t_wrap_small; nia).
  assert (Hat : (if element >? 0 then p + 2 + size_t_wrap (element * size)
                 else p + 2) = at_element).
  { unfold at_element. destruct (element >? 0) eqn:E; [rewrite Hskip; lia|].
    assert (element = 0) by lia. subst element. lia. }
  split.
  - intros Hint.
    assert (Hread : forall l,
              Z.of_nat (List.length l) = size ->
              unpack_UINT (write_at m at_element l) p = (type, p + 2)).
    { intros l Hl. rewrite unpack_UINT_write_at_other; [assumption|..];
        unfold at_element in *; nia. }
    unfold put, put_CIP_UDINT, get_CIP_UDINT. rewrite Htype.
    fold size. rewrite Hat.
    assert (Hat0 : 0 <= at_element) by (unfold at_element; nia).
    assert (Hsz : size = CIP_Type_size type) by reflexivity.
    assert (Hdef : at_element = p + 2 + element * size) by reflexivity.
    fold size in Hskip.
    clearbody at_element size.
    destruct Hint as [-> | [-> | [-> | [-> | ->]]]];
      cbn [Z.eqb Pos.eqb orb T_CIP_BOOL T_CIP_SINT T_CIP_INT T_CIP_DINT
           T_CIP_BITS T_CIP_REAL fst snd].
    + change (CIP_Type_size T_CIP_BOOL) with 1 in *. subst size.
      unfold pack_USINT. cbn [fst].
      rewrite (poke_write_at m at_element) by lia.
      rewrite Hread by reflexivity. eval_type_tests.
      rewrite Hskip.
      replace (p + 2 + element * 1) with at_element by lia.
      split; [reflexivity|].
      split; [|split; [apply take_write_at; simpl; lia|
                       apply (drop_write_at m at_element [_]); simpl; lia]].
      f_equal.
      pose proof (peek_in_image m at_element [CN_USINT_wrap value] 0) as H.
      change (Z.of_nat 0) with 0 in H. rewrite Z.add_0_r in H.
      apply H; [lia|simpl; lia|reflexivity].
    + change (CIP_Type_size T_CIP_SINT) with 1 in *. subst size.
      unfold pack_USINT. cbn [fst].
      rewrite (poke_write_at m at_element) by lia.
      rewrite Hread by reflexivity. eval_type_tests.
      rewrite Hskip.
      replace (p + 2 + element * 1) with at_element by lia.
      split; [reflexivity|].
      split; [|split; [apply take_write_at; simpl; lia|
                       apply (drop_write_at m at_element [_]); simpl; lia]].
      f_equal.
      pose proof (peek_in_image m at_element [CN_USINT_wrap value] 0) as H.
      change (Z.of_nat 0) with 0 in H. rewrite Z.add_0_r in H.
      apply H; [lia|simpl; lia|reflexivity].
    + change (CIP_Type_size T_CIP_INT) with 2 in *. subst size.
      rewrite pack_UINT_write by lia. cbn [fst].
      rewrite Hread by reflexivity. eval_type_tests.
      rewrite Hskip.
      replace (p + 2 + element * 2) with at_element by lia.
      split; [reflexivity|].
      split; [|split; [apply take_write_at; simpl; lia|
                       apply (drop_write_at m at_element (le_bytes16 _));
                       simpl; lia]].
      pose proof (unpack_UINT_in_image m at_element at_element [] value []) as H.
      cbn [app] in H. rewrite app_nil_r in H.
      rewrite H; [reflexivity|simpl; lia|lia|simpl; lia].
    + change (CIP_Type_size T_CIP_DINT) with 4 in *. subst size.
      rewrite pack_UDINT_write by lia. cbn [fst].
      rewrite Hread by reflexivity. eval_type_tests.
      rewrite Hskip.
      replace (p + 2 + element * 4) with at_element by lia.
      split; [reflexivity|].
      split; [|split; [apply take_write_at; simpl; lia|
                       apply (drop_write_at m at_element (le_bytes32 _));
                       simpl; lia]].
      rewrite unpack_UDINT_image by lia. reflexivity.
    + change (CIP_Type_size T_CIP_BITS) with 4 in *. subst size.
      rewrite pack_UDINT_write by lia. cbn [fst].
      rewrite Hread by reflexivity. eval_type_tests.
      rewrite Hskip.
      replace (p + 2 + element * 4) with at_element by lia.
      split; [reflexivity|].
      split; [|split; [apply take_write_at; simpl; lia|
                       apply (drop_write_at m at_element (le_bytes32 _));
                       simpl; lia]].
      rewrite unpack_UDINT_image by lia. reflexivity.
  - intros Hunknown.
    destruct (CIP_type_cases type) as [Hk | (Hz & E1 & E2 & E3 & E4)];
      [contradiction|].
    unfold put, put_CIP_UDINT, get_CIP_UDINT. rewrite Htype.
    rewrite E1, E2, E3, E4. split; reflexivity.
Qed.

Lemma put_get_CIP_UDINT_witness :
  let m := [0xC3; 0; 1; 0; 2; 0; 3; 0] in
  let put := put_CIP_UDINT (fun v => v) m 0 1 0x12345 in
  put = ([0xC3; 0; 1; 0; 0x45; 0x23; 3; 0], true) /\
  get_CIP_UDINT (fun v => v) (fst put) 0 1 = Some 0x2345.
Proof.
  intros m put.
  destruct (put_get_CIP_UDINT (fun v => v) (fun v => v) m 0 T_CIP_INT 1 0x12345)
    as [Hint _].
  - lia.
  - reflexivity.
  - lia.
  - vm_compute. congruence.
  - vm_compute. reflexivity.
  - destruct Hint as (_ & Hget & _).
    + right. right. left. reflexivity.
    + split; [reflexivity|exact Hget].
Defined.



















(** A read with data, for a tag at rest: the data is copied to the front
    of the buffer. *)
Lemma response_item_copies (info : TagInfo) (write_ok : bool)
    (data : list Z) (data_size : Z) (alloc : malloc_result) :
  tag_data_wf info -> malloc_wf data_size alloc ->
  Z.of_nat (List.length data) = data_size -> data_size < 2 ^ 32 ->
  data_lock info = sem_free -> is_writing info = false ->
  do_write info = false -> 0 < data_size ->
  (gb_size (tag_data info) < data_size -> alloc <> None) ->
  exists info',
    response_item info write_ok data data_size alloc = Some info' /\
    tag_data_wf info' /\
    write_state info' = write_state info /\
    valid_data_size info' = data_size /\
    take (Z.to_nat data_size) (contents (tag_data info')) = data.
Proof.
  intros [Hwf Hvalid] Halloc Hlen Hbound Hlock Hiw Hdw Hpos Hsome.
  destruct info as [st tg el a b c d lock buf v dw iw].
  cbn [tag_data valid_data_size data_lock is_writing do_write] in *.
  subst lock iw dw.
  unfold response_item. cbn [semTake data_lock is_writing do_write tag_data].
  replace (data_size >? 0) with true by lia.
  pose proof (EIP_reserve_buffer_succeeds buf data_size alloc Hsome) as Hok.
  destruct (EIP_reserve_buffer_ok buf data_size alloc Hwf Halloc
              ltac:(lia) Hok) as [[Hsz Hblk] Hroom].
  destruct (EIP_reserve_buffer buf data_size alloc) as [buf' ok].
  cbn [fst snd] in *. subst ok.
  destruct buf' as [[block|] size']; cbn [gb_buffer gb_size] in *; [|lia].
  assert (Hcopy : List.length (copy_into block data data_size)
                  = List.length block).
  { unfold copy_into. rewrite length_app, length_take, length_drop. lia. }
  eexists. split; [reflexivity|].
  unfold tag_data_wf, GrowBuffer_wf, write_state.
  cbn [tag_data valid_data_size set_valid_data_size set_tag_data
       gb_buffer gb_size option_map do_write is_writing].
  rewrite Hcopy.
  split; [split; [split; [lia|assumption]|lia]|].
  split; [reflexivity|]. split; [reflexivity|].
  unfold contents, copy_into. cbn [gb_buffer].
  rewrite take_app_length' by (rewrite length_take; lia).
  apply take_ge. lia.
Qed.

(** X16: the response to a read, for a tag that is not being written and
    whose lock is free.  The tag's buffer stays well formed with
    [valid_data_size] within its size, and [do_write] and [is_writing]
    stay as they are.  When a write was asked for meanwhile the tag is
    unchanged; otherwise data of positive size is copied to the front of
    the buffer, which has grown to the size of the data if it was
    smaller, and [valid_data_size] is that size, while data of size 0, or
    a buffer that cannot grow, gives [valid_data_size = 0] and leaves the
    buffer alone. *)
Theorem response_item_read (info : TagInfo) (write_ok : bool)
    (data : list Z) (data_size : Z) (alloc : malloc_result) :
  tag_data_wf info -> malloc_wf data_size alloc ->
  Z.of_nat (List.length data) = data_size -> data_size < 2 ^ 32 ->
  data_lock info = sem_free -> is_writing info = false ->
  exists info',
    response_item info write_ok data data_size alloc = Some info' /\
    tag_data_wf info' /\
    write_state info' = write_state info /\
    (do_write info = true -> info' = info) /\
    (do_write info = false ->
     (0 < data_size ->
      (gb_size (tag_data info) < data_size -> alloc <> None) ->
      valid_data_size info' = data_size /\
      take (Z.to_nat data_size) (contents (tag_data info')) = data /\
      gb_size (tag_data info') = Z.max (gb_size (tag_data info)) data_size) /\
     (data_size = 0 \/ (gb_size (tag_data info) < data_size /\ alloc = None) ->
      valid_data_size info' = 0 /\ tag_data info' = tag_data info)).
Proof.
  intros [Hwf Hvalid] Halloc Hlen Hbound Hlock Hiw.
  destruct info as [st tg el a b c d lock buf v dw iw].
  cbn [tag_data valid_data_size data_lock is_writing do_write] in *.
  subst lock iw.
  assert (Hd0 : 0 <= data_size) by lia.
  unfold response_item. cbn [semTake data_lock is_writing do_write tag_data].
  destruct dw.
  - eexists. split; [reflexivity|].
    split; [split; assumption|]. split; [reflexivity|].
    split; [reflexivity|discriminate].
  - destruct (data_size >? 0) eqn:Epos.
    + destruct (snd (EIP_reserve_buffer buf data_size alloc)) eqn:Hok.
      * destruct (EIP_reserve_buffer_ok buf data_size alloc Hwf Halloc
                    ltac:(lia) Hok) as [[Hsz Hblk] Hroom].
        pose proof (EIP_reserve_buffer_max buf data_size alloc Hok) as Hmax.
        assert (Hsome : gb_size buf < data_size -> alloc <> None).
        { intros Hlt ->. unfold EIP_reserve_buffer in Hok.
          destruct (gb_size buf >=? data_size) eqn:E; [lia|discriminate]. }
        destruct (EIP_reserve_buffer buf data_size alloc) as [buf' ok].
        cbn [fst snd] in *. subst ok.
        destruct buf' as [[block|] size']; cbn [gb_buffer gb_size] in *;
          [|lia].
        assert (Hcopy : List.length (copy_into block data data_size)
                        = List.length block).
        { unfold copy_into. rewrite length_app, length_take, length_drop. lia. }
        eexists. split; [reflexivity|].
        unfold tag_data_wf, GrowBuffer_wf, write_state.
        cbn [tag_data valid_data_size set_valid_data_size set_tag_data
             gb_buffer gb_size option_map do_write is_writing].
        rewrite Hcopy.
        split; [split; [split; [lia|assumption]|lia]|].
        split; [reflexivity|]. split; [discriminate|]. intros _. split.
        -- intros _ _. split; [reflexivity|]. split; [|assumption].
           unfold contents, copy_into. cbn [gb_buffer].
           rewrite take_app_length' by (rewrite length_take; lia).
           apply take_ge. lia.
        -- intros [Hz | [Hlt Hnone]]; [lia|]. contradiction (Hsome Hlt Hnone).
      * destruct (EIP_reserve_buffer_fails _ _ _ Hok) as (Hb & Hlt & Hnone).
        destruct (EIP_reserve_buffer buf data_size alloc) as [buf' ok].
        cbn [fst snd] in *. subst ok buf'.
        eexists. split; [reflexivity|].
        unfold tag_data_wf, write_state.
        cbn [tag_data valid_data_size set_valid_data_size set_tag_data
             do_write is_writing].
        split; [split; [assumption|lia]|].
        split; [reflexivity|]. split; [discriminate|]. intros _. split.
        -- intros _ Hsome. contradiction (Hsome Hlt Hnone).
        -- intros _. split; reflexivity.
    + assert (data_size = 0) by lia. subst data_size.
      eexists. split; [reflexivity|].
      unfold tag_data_wf, write_state.
      cbn [tag_data valid_data_size set_valid_data_size
           do_write is_writing].
      split; [split; [assumption|lia]|].
      split; [reflexivity|]. split; [discriminate|]. intros _. split.
      * intros Hpos. lia.
      * intros _. split; reflexivity.
Qed.

Lemma response_item_read_witness :
  let info := mkTagInfo (list_ascii_of_string "T")
                [te_name (list_ascii_of_string "T")] 1 8 12 16 4 sem_free
                sample_buffer 3 false false in
  exists info',
    response_item info true [7; 8; 9; 10; 11] 5 (Some [0; 0; 0; 0; 0])
      = Some info' /\
    valid_data_size info' = 5 /\
    take 5 (contents (tag_data info')) = [7; 8; 9; 10; 11] /\
    gb_size (tag_data info') = 5.
Proof.
  intros info.
  destruct (response_item_read info true [7; 8; 9; 10; 11] 5
              (Some [0; 0; 0; 0; 0]))
    as (info' & Hr & _ & _ & _ & Hread).
  - vm_compute. repeat split; congruence.
  - reflexivity.
  - reflexivity.
  - reflexivity.
  - reflexivity.
  - reflexivity.
  - exists info'. split; [exact Hr|].
    destruct (Hread eq_refl) as [Hstore _].
    destruct Hstore as (Hv & Hd & Hs); [lia|discriminate|].
    split; [exact Hv|]. split; [exact Hd|exact Hs].
Defined.

Lemma determine_loop_sizes limit infos : forall st,
  let tags := eligible_tags infos in
  Forall sizes_in_range infos ->
  0 <= count st -> 0 <= requests_size st -> 0 <= responses_size st ->
  8 + 2 * (count st + Z.of_nat (length tags)) + requests_size st
    + sum_sizes (map request_share tags) < 2 ^ 32 ->
  6 + 2 * (count st + Z.of_nat (length tags)) + responses_size st
    + sum_sizes (map response_share tags) < 2 ^ 32 ->
  (1 <= count st -> sizes_for limit (count st) st) ->
  let r := determine_MultiRequest_count_loop limit infos st in
  1 <= returned_count r ->
  exists kn : nat,
    returned_count r = count st + Z.of_nat kn /\
    requests_size (snd (fst r))
    = requests_size st + sum_sizes (map request_share (take kn tags)) /\
    responses_size (snd (fst r))
    = responses_size st + sum_sizes (map response_share (take kn tags)) /\
    sizes_for limit (returned_count r) (snd (fst r)).
Proof.
  induction infos as [|i next IH]; intros st tags Hr Hc HR HS Hq Hp Hst r Hn.
  - exists 0%nat. subst r. unfold returned_count in *. cbn in *.
    repeat split; try lia; apply Hst; assumption.
  - apply Forall_cons in Hr. destruct Hr as [Hi Hr].
    subst r. cbn [determine_MultiRequest_count_loop] in *.
    rewrite (eligible_test i Hi) in *.
    subst tags. rewrite eligible_tags_cons in *.
    destruct (eligible i) eqn:Eel; cbn [negb] in *.
    + destruct (semTake (data_lock i)) eqn:Elock;
        [|unfold returned_count in Hn; cbn in Hn; lia].
      destruct (classify_shares i) as [Hreq Hresp].
      destruct (classify i) as [[i' req] resp]. simpl in Hreq, Hresp.
      subst req resp.
      destruct (share_nonneg i Hi) as [Hq0 Hp0].
      destruct (shares_nonneg _ (Forall_eligible_tags _ _ Hr)) as [Hqs Hps].
      pose proof (sum_sizes_nonneg _ Hqs) as Hqsum.
      pose proof (sum_sizes_nonneg _ Hps) as Hpsum.
      cbn [map sum_sizes fold_right length] in Hq, Hp.
      fold (sum_sizes (map request_share (eligible_tags next))) in Hq.
      fold (sum_sizes (map response_share (eligible_tags next))) in Hp.
      rewrite !size_t_wrap_small in * by lia.
      rewrite (CIP_MultiRequest_size_value (count st + 1)) in * by lia.
      rewrite (CIP_MultiResponse_size_value (count st + 1)) in * by lia.
      destruct ((8 + 2 * (count st + 1) + (requests_size st + request_share i) >? limit)
                || (6 + 2 * (count st + 1) + (responses_size st + response_share i) >? limit))
        eqn:Efit.
      * exists 0%nat. unfold returned_count in *. cbn [fst snd] in *.
        rewrite take_0. cbn [map sum_sizes fold_right].
        cbn [requests_size responses_size].
        split; [lia|]. split; [lia|]. split; [lia|].
        destruct (Hst Hn) as (H1 & H2 & H3 & H4).
        unfold sizes_for.
        cbn [requests_size responses_size multi_request_size
             multi_response_size].
        rewrite <- H1, <- H2. repeat split; assumption.
      * apply orb_false_iff in Efit. destruct Efit as [E1 E2].
        specialize (IH (mkMultiCount (count st + 1)
                          (requests_size st + request_share i)
                          (responses_size st + response_share i)
                          (8 + 2 * (count st + 1) + (requests_size st + request_share i))
                          (6 + 2 * (count st + 1) + (responses_size st + response_share i)))).
        cbn [count requests_size responses_size] in IH.
        cbn zeta in IH.
        destruct (determine_MultiRequest_count_loop limit next _)
          as [[n st'] next'].
        unfold returned_count in *. cbn [fst snd] in *.
        destruct IH as (kn & Hk & HRq & HRp & Hsz); try assumption; try lia.
        { intros _. unfold sizes_for.
          cbn [requests_size responses_size multi_request_size
               multi_response_size].
          rewrite CIP_MultiRequest_size_value by lia.
          rewrite CIP_MultiResponse_size_value by lia. lia. }
        exists (S kn). cbn [take map]. rewrite !sum_sizes_cons.
        split; [lia|]. split; [lia|]. split; [lia|]. exact Hsz.
    + specialize (IH st Hr Hc HR HS Hq Hp Hst). cbn zeta in IH.
      destruct (determine_MultiRequest_count_loop limit next st)
        as [[n st'] next'].
      unfold returned_count in *. cbn [fst snd] in *.
      exact (IH Hn).
Qed.

(** X17: when [determine_MultiRequest_count] returns a count [k >= 1],
    [*requests_size] and [*responses_size] are the sums of the request
    and response sizes of the first [k] eligible tags,
    [*multi_request_size] and [*multi_response_size] are
    [CIP_MultiRequest_size] and [CIP_MultiResponse_size] of [k] and these
    sums, and both are within the limit. *)
Theorem determine_MultiRequest_count_sizes
    (limit : Z) (infos : list TagInfo) (multi0 multi1 : Z) :
  let tags := eligible_tags infos in
  let r := determine_MultiRequest_count limit infos multi0 multi1 in
  Forall sizes_in_range infos ->
  8 + 2 * Z.of_nat (length tags) + sum_sizes (map request_share tags) < 2 ^ 32 ->
  6 + 2 * Z.of_nat (length tags) + sum_sizes (map response_share tags) < 2 ^ 32 ->
  1 <= returned_count r ->
  exists k : nat,
    returned_count r = Z.of_nat k /\
    requests_size (snd (fst r)) = sum_sizes (map request_share (take k tags)) /\
    responses_size (snd (fst r)) = sum_sizes (map response_share (take k tags)) /\
    sizes_for limit (Z.of_nat k) (snd (fst r)).
Proof.
  intros tags r Hr Hq Hp Hn.
  pose proof (determine_loop_sizes limit infos
                (mkMultiCount 0 0 0 multi0 multi1)) as H.
  cbn zeta in H. cbn [count requests_size responses_size] in H.
  fold tags in H.
  change (determine_MultiRequest_count_loop limit infos
            (mkMultiCount 0 0 0 multi0 multi1)) with r in H.
  destruct H as (kn & Hk & HRq & HRp & Hsz); try assumption; try lia.
  exists kn. rewrite Hk in Hsz.
  split; [lia|]. split; [lia|]. split; [lia|]. exact Hsz.
Qed.

Lemma determine_MultiRequest_count_sizes_witness :
  let r := determine_MultiRequest_count 80 three_reads 7 7 in
  returned_count r = 2 /\
  requests_size (snd (fst r)) = 60 /\
  multi_request_size (snd (fst r)) = 72 /\
  multi_response_size (snd (fst r)) = 70.
Proof.
  intros r.
  destruct (determine_MultiRequest_count_sizes 80 three_reads 7 7)
    as (k & Hk & HRq & _ & Hm & Hp & _).
  - repeat constructor; vm_compute; congruence.
  - vm_compute. reflexivity.
  - vm_compute. reflexivity.
  - vm_compute. congruence.
  - fold r in Hk, HRq, Hm, Hp.
    assert (Hk2 : k = 2%nat).
    { change (returned_count r) with 2 in Hk. lia. }
    subst k. split; [exact Hk|]. split; [exact HRq|].
    split; [rewrite Hm; reflexivity|rewrite Hp; reflexivity].
Defined.

Lemma complete_TagInfo_hit info net :
  tag_path_size (tag info) <= 255 ->
  snd (fst (complete_TagInfo info net))
  = probe_hit info (fst (fst (complete_TagInfo info net))).
Proof.
  intros Hpath. unfold complete_TagInfo, probe_hit, eligible.
  pose proof (CIP_ReadData_size_range (tag info) Hpath) as Hsize.
  destruct (Z.eqb_spec (cip_r_request_size info) 0) as [Hr|Hr];
    destruct (Z.eqb_spec (cip_r_response_size info) 0) as [Hp|Hp];
    cbn [negb orb andb fst snd]; try reflexivity.
  unfold EIP_read_tag.
  destruct (match net with t :: _ => t | [] => no_reply end)
    as [|data_length accepted]; cbn [fst snd].
  - reflexivity.
  - destruct accepted; cbn [fst snd]; [|reflexivity].
    destruct (CN_UINT_wrap data_length <=? 4);
      cbn [set_sizes cip_r_request_size];
      destruct (Z.eqb_spec (CIP_ReadData_size (tag info)) 0); try reflexivity;
      lia.
Qed.

Lemma any_hit_app a a' b b' :
  List.length a = List.length a' ->
  any_hit (a ++ b) (a' ++ b') = any_hit a a' || any_hit b b'.
Proof.
  revert a'. induction a as [|x a IH]; intros [|x' a'] Hlen;
    try discriminate Hlen; cbn [app any_hit orb]; [reflexivity|].
  rewrite IH by (simpl in Hlen; lia). apply orb_assoc.
Qed.

Lemma complete_TagInfos_any infos : forall any_ok net,
  Forall (fun info => tag_path_size (tag info) <= 255) infos ->
  snd (fst (complete_TagInfos infos any_ok net))
  = any_ok || any_hit infos (fst (fst (complete_TagInfos infos any_ok net))).
Proof.
  induction infos as [|i rest IH]; intros any_ok net Hpath;
    cbn [complete_TagInfos].
  - cbn. rewrite orb_false_r. reflexivity.
  - apply Forall_cons in Hpath. destruct Hpath as [Hi Hpath].
    pose proof (complete_TagInfo_hit i net Hi) as Hhit.
    destruct (complete_TagInfo i net) as [[i' ok] net1]. cbn [fst snd] in Hhit.
    specialize (IH (any_ok || ok) net1 Hpath).
    destruct (complete_TagInfos rest (any_ok || ok) net1)
      as [[rest' any'] net2].
    cbn [fst snd any_hit] in *. rewrite IH, Hhit. rewrite orb_assoc.
    reflexivity.
Qed.

Lemma complete_ScanLists_any lists : forall any_ok net,
  Forall (fun info => tag_path_size (tag info) <= 255)
    (concat (map taginfos lists)) ->
  snd (fst (complete_ScanLists lists any_ok net))
  = any_ok
    || any_hit (concat (map taginfos lists))
         (concat (map taginfos (fst (fst (complete_ScanLists lists any_ok net))))).
Proof.
  induction lists as [|l rest IH]; intros any_ok net Hpath;
    cbn [complete_ScanLists].
  - cbn. rewrite orb_false_r. reflexivity.
  - cbn [map concat] in Hpath. apply Forall_app in Hpath.
    destruct Hpath as [Hl Hpath].
    pose proof (complete_TagInfos_any (taginfos l) any_ok net Hl) as Hany.
    pose proof (Forall2_length _ _ _
                  (complete_TagInfos_pointwise (taginfos l) any_ok net)) as Hlen.
    destruct (complete_TagInfos (taginfos l) any_ok net) as [[infos any1] net1].
    specialize (IH any1 net1 Hpath).
    destruct (complete_ScanLists rest any1 net1) as [[rest' any2] net2].
    cbn [fst snd map concat taginfos set_taginfos] in *.
    rewrite any_hit_app by exact Hlen.
    rewrite IH, Hany. rewrite orb_assoc. reflexivity.
Qed.

Lemma any_hit_known tags tags' :
  Forall size_known tags -> any_hit tags tags' = false.
Proof.
  intros H. revert tags'.
  induction H as [|a tags Ha _ IH]; intros [|b tags']; try reflexivity.
  cbn [any_hit]. rewrite IH, orb_false_r. unfold probe_hit.
  unfold size_known in Ha.
  destruct (Z.eqb_spec (cip_r_request_size a) 0);
    destruct (Z.eqb_spec (cip_r_response_size a) 0); try reflexivity. lia.
Qed.

Lemma complete_known_unchanged (plc : PLC) net :
  Forall size_known (PLC_tags plc) ->
  fst (complete_PLC_ScanList_TagInfos plc net) = plc.
Proof.
  intros Hk. unfold complete_PLC_ScanList_TagInfos, PLC_tags in *.
  destruct plc as [nm sl er ss lists c]. cbn [scanlists] in *.
  assert (H : forall any_ok net0,
             fst (fst (complete_ScanLists lists any_ok net0)) = lists).
  { clear net. induction lists as [|l rest IH]; intros any_ok net0;
      [reflexivity|].
    cbn [map concat] in Hk. apply Forall_app in Hk. destruct Hk as [Hl Hr].
    cbn [complete_ScanLists].
    assert (Hl' : forall any0 net1,
               complete_TagInfos (taginfos l) any0 net1
               = (taginfos l, any0, net1)).
    { clear IH Hr. induction (taginfos l) as [|i infos IHi]; intros any0 net1;
        [reflexivity|].
      apply Forall_cons in Hl. destruct Hl as [Hi Hl].
      cbn [complete_TagInfos]. rewrite complete_TagInfo_known by exact Hi.
      rewrite IHi by exact Hl. rewrite orb_false_r. reflexivity. }
    rewrite Hl'. specialize (IH Hr any_ok net0).
    destruct (complete_ScanLists rest any_ok net0) as [[rest' any2] net2].
    cbn [fst] in *. subst rest'. destruct l; reflexivity. }
  specialize (H false net).
  destruct (complete_ScanLists lists false net) as [[lists' any] net'].
  cbn [fst] in *. subst lists'. reflexivity.
Qed.

(** X18: [assert_PLC_connect] returns true at once when the socket is
    open.  Otherwise the connection is what [EIP_startup] left, and the
    result is true exactly when [EIP_startup] succeeded and some tag
    whose sizes were not known was probed with success.  So when the
    sizes of all tags are known already, the result is false although the
    connection is set up, with the tags unchanged, and the next call
    returns true when the socket is open then. *)
Theorem assert_PLC_connect_result (plc : PLC)
    (startup : EIPConnection * bool) (net : list Transfer) :
  Forall (fun info => tag_path_size (tag info) <= 255) (PLC_tags plc) ->
  let r := assert_PLC_connect plc startup net in
  (sock (connection plc) <> 0 -> r = (plc, true)) /\
  (sock (connection plc) = 0 ->
   connection (fst r) = fst startup /\
   snd r = snd startup && any_hit (PLC_tags plc) (PLC_tags (fst r)) /\
   (Forall size_known (PLC_tags plc) ->
    r = (set_connection plc (fst startup), false) /\
    (sock (fst startup) <> 0 ->
     forall startup' net',
       assert_PLC_connect (fst r) startup' net' = (fst r, true)))).
Proof.
  intros Hpath r. subst r. unfold assert_PLC_connect. split.
  - intros Hs. destruct (Z.eqb_spec (sock (connection plc)) 0); [lia|].
    reflexivity.
  - intros Hs. rewrite Hs. cbn [Z.eqb negb].
    destruct startup as [c ok]. cbn [fst snd].
    destruct ok; cbn [andb fst snd].
    + assert (Htags : PLC_tags (set_connection plc c) = PLC_tags plc)
        by reflexivity.
      split; [|split].
      * unfold complete_PLC_ScanList_TagInfos.
        destruct (complete_ScanLists _ _ _) as [[lists any] net'].
        reflexivity.
      * unfold complete_PLC_ScanList_TagInfos, PLC_tags in *.
        pose proof (complete_ScanLists_any
                      (scanlists (set_connection plc c)) false net) as Hany.
        cbn [scanlists set_connection] in *.
        specialize (Hany Hpath).
        destruct (complete_ScanLists (scanlists plc) false net)
          as [[lists any] net'].
        cbn [fst snd scanlists set_scanlists] in *. exact Hany.
      * intros Hk.
        pose proof (complete_known_unchanged (set_connection plc c) net Hk)
          as Hsame.
        pose proof (complete_ScanLists_any
                      (scanlists (set_connection plc c)) false net Hpath)
          as Hany.
        unfold complete_PLC_ScanList_TagInfos in *.
        destruct (complete_ScanLists (scanlists (set_connection plc c))
                    false net) as [[lists any] net'].
        cbn [fst snd] in *.
        rewrite any_hit_known in Hany by exact Hk. cbn [orb] in Hany.
        subst any. rewrite Hsame. split; [reflexivity|].
        intros Hc startup' net'0. cbn [fst connection set_connection].
        destruct (Z.eqb_spec (sock c) 0); [lia|]. reflexivity.
    + split; [reflexivity|]. split; [reflexivity|].
      intros _. split; [reflexivity|].
      intros Hc startup' net'. cbn [fst connection set_connection].
      destruct (Z.eqb_spec (sock c) 0); [lia|]. reflexivity.
Qed.

(** A PLC that was connected before: its only tag has its sizes, the
    socket is closed. *)
Definition known_plc : PLC :=
  mkPLC (list_ascii_of_string "plc1") 0 0 0
    [mkScanList true 0 0 [idle_tag]] (mkEIPConnection 0 1 5000 500).

Lemma assert_PLC_connect_result_witness :
  let c := mkEIPConnection 7 2 5000 500 in
  assert_PLC_connect known_plc (c, true) [reply 12 true]
  = (set_connection known_plc c, false) /\
  assert_PLC_connect (set_connection known_plc c) (c, true) [reply 12 true]
  = (set_connection known_plc c, true).
Proof.
  intros c.
  destruct (assert_PLC_connect_result known_plc (c, true) [reply 12 true])
    as [_ Hclosed].
  - repeat constructor. vm_compute. congruence.
  - destruct (Hclosed eq_refl) as (_ & _ & Hknown).
    destruct Hknown as [Hfirst Hnext].
    + repeat constructor. vm_compute. congruence.
    + split; [exact Hfirst|].
      rewrite Hfirst in Hnext. apply Hnext. vm_compute. congruence.
Defined.

Section Period_facts.

Context {Period : Type}.
Variable period_eq period_gt : Period -> Period -> bool.

Implicit Types lists : list (Period * ScanList).

Lemma all_tags_alter lists : forall i pl,
  lists !! i = Some pl ->
  exists A B,
    all_tags lists = A ++ taginfos (snd pl) ++ B /\
    forall f, all_tags (alter f i lists) = A ++ taginfos (snd (f pl)) ++ B.
Proof.
  induction lists as [|x rest IH]; intros [|i] pl H; try discriminate H.
  - injection H as ->. exists [], (all_tags rest). split; [reflexivity|].
    intros f. reflexivity.
  - destruct (IH i pl H) as (A & B & HA & Hf).
    exists (taginfos (snd x) ++ A), B. unfold all_tags in *.
    cbn [map concat]. split.
    + rewrite HA, <- !app_assoc. reflexivity.
    + intros f. cbn [alter list_alter map concat].
      change (list_alter f i rest) with (alter f i rest).
      rewrite Hf, <- !app_assoc. reflexivity.
Qed.

Lemma all_tags_snoc lists p :
  all_tags (lists ++ [(p, new_ScanList)]) = all_tags lists.
Proof.
  unfold all_tags. rewrite map_app, concat_app. cbn. apply app_nil_r.
Qed.

Lemma get_PLC_ScanList_created lists period lists' r :
  get_PLC_ScanList period_eq lists period true true = (lists', r) ->
  exists k pl, r = Some k /\ lists' !! k = Some pl /\
               all_tags lists' = all_tags lists.
Proof.
  unfold get_PLC_ScanList.
  destruct (list_find _ lists) as [[k pl]|] eqn:E; cbn [negb].
  - intros [= <- <-]. apply list_find_Some in E. destruct E as (E & _).
    exists k, pl. repeat split; [exact E].
  - intros [= <- <-]. exists (List.length lists), (period, new_ScanList).
    split; [reflexivity|]. split; [|apply all_tags_snoc].
    rewrite lookup_app_r by lia. rewrite Nat.sub_diag. reflexivity.
Qed.

Lemma find_PLC_tag_Some lists tag_name : forall i j info,
  find_PLC_tag lists tag_name = Some (i, j, info) ->
  exists pl, lists !! i = Some pl /\ taginfos (snd pl) !! j = Some info /\
             string_tag info = tag_name.
Proof.
  induction lists as [|[p l] rest IH]; intros i j info H; [discriminate H|].
  cbn [find_PLC_tag] in H. unfold find_ScanList_Tag in H.
  destruct (list_find _ (taginfos l)) as [[j0 info0]|] eqn:E.
  - injection H as <- <- <-. apply list_find_Some in E.
    destruct E as (E & Hn & _). exists (p, l). repeat split; assumption.
  - destruct (find_PLC_tag rest tag_name) as [[[i1 j1] info1]|];
      [|discriminate H].
    injection H as <- <- <-.
    destruct (IH i1 j1 info1 eq_refl) as (pl & H1 & H2 & H3).
    exists pl. repeat split; assumption.
Qed.

Lemma find_PLC_tag_None lists tag_name :
  find_PLC_tag lists tag_name = None ->
  Forall (other_name tag_name) (all_tags lists).
Proof.
  induction lists as [|[p l] rest IH]; intros H; [constructor|].
  cbn [find_PLC_tag] in H. unfold find_ScanList_Tag in H.
  destruct (list_find _ (taginfos l)) as [[j0 info0]|] eqn:E;
    [discriminate H|].
  destruct (find_PLC_tag rest tag_name) as [[[i1 j1] info1]|];
    [discriminate H|].
  unfold all_tags. cbn [map concat snd]. apply Forall_app. split.
  - apply list_find_None in E. exact E.
  - apply IH. reflexivity.
Qed.

End Period_facts.

Lemma filter_all {A} (P : A -> Prop) `{!forall x, Decision (P x)} (l : list A) :
  Forall P l -> filter P l = l.
Proof.
  induction 1 as [|x l Hx _ IH]; [reflexivity|].
  rewrite filter_cons_True by exact Hx. rewrite IH. reflexivity.
Qed.

#[local] Instance other_name_dec tag_name info :
  Decision (other_name tag_name info).
Proof. unfold other_name. apply _. Defined.

Lemma filter_other_name X old Y :
  NoDup (string_tag <$> (X ++ old :: Y)) ->
  filter (other_name (string_tag old)) (X ++ old :: Y) = X ++ Y.
Proof.
  intros Hnd. rewrite fmap_app, fmap_cons in Hnd.
  apply NoDup_app in Hnd. destruct Hnd as (HX & Hdis & HY).
  apply NoDup_cons in HY. destruct HY as [Hold HY].
  rewrite filter_app, filter_cons_False by (unfold other_name; tauto).
  rewrite !filter_all; [reflexivity| |].
  - apply Forall_forall. intros y Hy Heq. apply Hold.
    rewrite <- Heq. apply list_elem_of_fmap_2. exact Hy.
  - apply Forall_forall. intros x Hx Heq. apply (Hdis (string_tag x)).
    + apply list_elem_of_fmap_2. exact Hx.
    + rewrite Heq. left.
Qed.

Lemma alter_middle {A} (f : A -> A) (l : list A) j x :
  l !! j = Some x ->
  alter f j l = take j l ++ f x :: drop (S j) l.
Proof.
  revert j. induction l as [|y l IH]; intros [|j] H; try discriminate H.
  - injection H as ->. reflexivity.
  - cbn [alter list_alter take drop app]. f_equal. apply IH. exact H.
Qed.

Lemma Permutation_insert {A} (x : A) X Y Z :
  X ++ Y ++ x :: Z ≡ₚ x :: X ++ Y ++ Z.
Proof.
  rewrite app_assoc, <- Permutation_middle, <- app_assoc. reflexivity.
Qed.

Section Registry.

Context {Period : Type}.
Variable period_eq period_gt : Period -> Period -> bool.

Implicit Types lists : list (Period * ScanList).

Lemma all_tags_member lists i j pl info :
  lists !! i = Some pl -> taginfos (snd pl) !! j = Some info ->
  info ∈ all_tags lists.
Proof.
  intros Hi Hj. destruct (all_tags_alter lists i pl Hi) as (A & B & HA & _).
  rewrite HA. apply elem_of_app. right. apply elem_of_app. left.
  apply list_elem_of_lookup_2 with j. exact Hj.
Qed.

(** What is left to show once the tags afterwards are known. *)
Lemma registered lists lists' info tag_name :
  NoDup (string_tag <$> all_tags lists) ->
  string_tag info = tag_name ->
  all_tags lists' ≡ₚ info :: filter (other_name tag_name) (all_tags lists) ->
  (exists i j, find_PLC_tag lists' tag_name = Some (i, j, info)) /\
  NoDup (string_tag <$> all_tags lists').
Proof.
  intros Hnd Hname Hperm. split.
  - destruct (find_PLC_tag lists' tag_name) as [[[i j] info']|] eqn:E.
    + exists i, j. do 2 f_equal.
      destruct (find_PLC_tag_Some _ _ _ _ _ E) as (pl & Hi & Hj & Hn).
      pose proof (all_tags_member _ _ _ _ _ Hi Hj) as Hin.
      rewrite Hperm in Hin. apply elem_of_cons in Hin.
      destruct Hin as [Heq|Hin]; [exact Heq|].
      apply list_elem_of_filter in Hin. destruct Hin as [Hother _].
      contradiction (Hother Hn).
    + apply find_PLC_tag_None in E. rewrite Hperm in E.
      apply Forall_cons in E. destruct E as [Hother _].
      contradiction (Hother Hname).
  - rewrite Hperm, fmap_cons. apply NoDup_cons. split.
    + intros Hin. apply list_elem_of_fmap_1 in Hin.
      destruct Hin as (y & Hy & Hin).
      apply list_elem_of_filter in Hin. destruct Hin as [Hother _].
      apply Hother. congruence.
    + eapply sublist_NoDup; [exact Hnd|].
      apply fmap_sublist, sublist_filter.
Qed.

Lemma maximize_elements_facts info n :
  string_tag (maximize_elements info n) = string_tag info /\
  elements (maximize_elements info n) = Z.max (elements info) n.
Proof.
  unfold maximize_elements.
  destruct (Z.ltb_spec (elements info) n); cbn [set_elements string_tag elements];
    split; try reflexivity; lia.
Qed.

(** The tags after a call that succeeds. *)
Lemma drvEtherIP_add_tag_tags lists period tag_name n :
  NoDup (string_tag <$> all_tags lists) ->
  EIP_parse_tag tag_name <> [] ->
  let r := drvEtherIP_add_tag period_eq period_gt lists period tag_name n
             true true in
  exists info,
    snd r = Some info /\
    string_tag info = tag_name /\
    elements info
    = match find_PLC_tag lists tag_name with
      | Some (_, _, old) => Z.max (elements old) n
      | None => n
      end /\
    all_tags (fst r) ≡ₚ info :: filter (other_name tag_name) (all_tags lists).
Proof.
  intros Hnd Hparse r. subst r. unfold drvEtherIP_add_tag.
  destruct (find_PLC_tag lists tag_name) as [[[i j] old]|] eqn:Efind.
  - destruct (find_PLC_tag_Some _ _ _ _ _ Efind) as (pl & Hi & Hj & Hname).
    destruct (maximize_elements_facts old n) as [Hmn Hme].
    destruct (all_tags_alter lists i pl Hi) as (A & B & HA & Hf).
    rewrite Hi. destruct pl as [list_period l]. cbn [snd] in *.
    pose proof (take_drop_middle _ _ _ Hj) as Hmid.
    pose proof (delete_take_drop (taginfos l) j) as Hdel.
    pose proof (alter_middle (fun t => maximize_elements t n) _ _ _ Hj) as Halt.
    remember (take j (taginfos l)) as T1 eqn:HT1.
    remember (drop (S j) (taginfos l)) as T2 eqn:HT2.
    clear HT1 HT2.
    assert (Hrest : filter (other_name tag_name) (all_tags lists)
                    = A ++ T1 ++ T2 ++ B).
    { rewrite HA in Hnd |- *. rewrite <- Hmid in Hnd |- *.
      rewrite <- Hname.
      replace (A ++ (T1 ++ old :: T2) ++ B)
        with ((A ++ T1) ++ old :: (T2 ++ B))
        in Hnd |- * by (rewrite <- !app_assoc; reflexivity).
      rewrite filter_other_name by exact Hnd.
      rewrite <- !app_assoc. reflexivity. }
    destruct (period_gt list_period period).
    + destruct (get_PLC_ScanList period_eq _ period true true)
        as [lists2 found] eqn:Eget.
      destruct (get_PLC_ScanList_created _ _ _ _ _ Eget)
        as (k & pl2 & -> & Hk & Htags).
      exists (maximize_elements old n). cbn [fst snd].
      split; [reflexivity|]. split; [congruence|]. split; [exact Hme|].
      destruct (all_tags_alter lists2 k pl2 Hk) as (A2 & B2 & HA2 & Hf2).
      rewrite Hf2. unfold on_list, add_ScanList_TagInfo.
      cbn [snd taginfos set_taginfos].
      rewrite Hrest.
      rewrite Hf in Htags. unfold on_list, remove_ScanList_TagInfo in Htags.
      cbn [snd taginfos set_taginfos] in Htags.
      rewrite Hdel in Htags.
      rewrite <- !app_assoc in Htags. rewrite <- Htags, HA2.
      rewrite <- !app_assoc. cbn [app]. apply Permutation_insert.
    + exists (maximize_elements old n). cbn [fst snd].
      split; [reflexivity|]. split; [congruence|]. split; [exact Hme|].
      rewrite Hf. unfold on_list. cbn [snd taginfos set_taginfos].
      rewrite Halt. rewrite Hrest.
      rewrite <- !app_assoc. cbn [app]. apply Permutation_insert.
  - apply find_PLC_tag_None in Efind.
    destruct (get_PLC_ScanList period_eq lists period true true)
      as [lists2 found] eqn:Eget.
    destruct (get_PLC_ScanList_created _ _ _ _ _ Eget)
      as (k & pl2 & -> & Hk & Htags).
    rewrite Hk. destruct pl2 as [p2 l2].
    unfold add_ScanList_Tag, new_TagInfo. cbn [negb].
    destruct (EIP_parse_tag tag_name) as [|e parsed] eqn:Eparse;
      [contradiction Hparse; reflexivity|].
    eexists. cbn [fst snd]. split; [reflexivity|].
    split; [reflexivity|]. split; [reflexivity|].
    destruct (all_tags_alter lists2 k _ Hk) as (A2 & B2 & HA2 & Hf2).
    rewrite Hf2. unfold on_list, add_ScanList_TagInfo.
    cbn [snd taginfos set_taginfos].
    rewrite filter_all by exact Efind. rewrite <- Htags, HA2.
    cbn [snd]. rewrite <- !app_assoc. cbn [app]. apply Permutation_insert.
Qed.

Lemma find_PLC_tag_absent lists tag_name :
  Forall (other_name tag_name) (all_tags lists) ->
  find_PLC_tag lists tag_name = None.
Proof.
  intros Hall.
  destruct (find_PLC_tag lists tag_name) as [[[i j] info]|] eqn:E;
    [|reflexivity].
  destruct (find_PLC_tag_Some _ _ _ _ _ E) as (pl & Hi & Hj & Hn).
  pose proof (all_tags_member _ _ _ _ _ Hi Hj) as Hin.
  rewrite Forall_forall in Hall. contradiction (Hall _ Hin Hn).
Qed.

End Registry.

(** X19: [drvEtherIP_add_tag] with memory at hand, for a name that
    parses, on scan lists whose tag names are unique.  It returns a tag
    of that name, with the requested element count for a new tag and the
    larger of the old and the requested count for a known one;
    [find_PLC_tag] finds this tag afterwards; the tags of the PLC are
    this tag and the tags of other names as they were; and the names are
    still unique. *)
Theorem drvEtherIP_add_tag_registers {Period : Type}
    (period_eq period_gt : Period -> Period -> bool)
    (lists : list (Period * ScanList)) (period : Period)
    (tag_name : list ascii) (n : Z) :
  NoDup (string_tag <$> all_tags lists) ->
  EIP_parse_tag tag_name <> [] ->
  let r := drvEtherIP_add_tag period_eq period_gt lists period tag_name n
             true true in
  exists info,
    snd r = Some info /\
    string_tag info = tag_name /\
    elements info
    = match find_PLC_tag lists tag_name with
      | Some (_, _, old) => Z.max (elements old) n
      | None => n
      end /\
    (exists i j, find_PLC_tag (fst r) tag_name = Some (i, j, info)) /\
    all_tags (fst r) ≡ₚ info :: filter (other_name tag_name) (all_tags lists) /\
    NoDup (string_tag <$> all_tags (fst r)).
Proof.
  intros Hnd Hparse r.
  destruct (drvEtherIP_add_tag_tags period_eq period_gt lists period tag_name
              n Hnd Hparse)
    as (info & Hr & Hname & Hel & Hperm).
  fold r in Hr, Hperm. exists info.
  destruct (registered lists (fst r) info tag_name Hnd Hname Hperm)
    as [Hfind Hnd'].
  repeat split; assumption.
Qed.

(** X20: what a call of [drvEtherIP_add_tag] that fails leaves behind.
    For a name that is not known yet: a name that does not parse gives
    the null pointer, and whenever the null pointer is returned the tags
    are as before.  For a known tag on a list that is too slow, when no
    list has the requested period and [calloc] gives no new list: the
    null pointer is returned and the tag is on no list any more. *)
Theorem drvEtherIP_add_tag_failures {Period : Type}
    (period_eq period_gt : Period -> Period -> bool)
    (lists : list (Period * ScanList)) (period : Period)
    (tag_name : list ascii) (n : Z) (mem_list mem_tag : bool) :
  NoDup (string_tag <$> all_tags lists) ->
  let r := drvEtherIP_add_tag period_eq period_gt lists period tag_name n
             mem_list mem_tag in
  (find_PLC_tag lists tag_name = None ->
   (EIP_parse_tag tag_name = [] -> snd r = None) /\
   (snd r = None -> all_tags (fst r) = all_tags lists)) /\
  (forall i j old list_period l,
     find_PLC_tag lists tag_name = Some (i, j, old) ->
     lists !! i = Some (list_period, l) ->
     period_gt list_period period = true ->
     Forall (fun pl => period_eq (fst pl) period = false) lists ->
     mem_list = false ->
     snd r = None /\ find_PLC_tag (fst r) tag_name = None).
Proof.
  intros Hnd r. subst r. unfold drvEtherIP_add_tag. split.
  - intros Efind. rewrite Efind.
    assert (Hget : forall lists2 found,
               get_PLC_ScanList period_eq lists period true mem_list
               = (lists2, found) ->
               all_tags lists2 = all_tags lists /\
               match found with
               | Some k => exists pl, lists2 !! k = Some pl
               | None => True
               end).
    { intros lists2 found. unfold get_PLC_ScanList.
      destruct (list_find _ lists) as [[k pl]|] eqn:E; cbn [negb].
      - intros [= <- <-]. apply list_find_Some in E. destruct E as (E & _).
        split; [reflexivity|]. exists pl. exact E.
      - destruct mem_list; intros [= <- <-]; [|split; [reflexivity|exact I]].
        split; [apply all_tags_snoc|]. exists (period, new_ScanList).
        rewrite lookup_app_r by lia. rewrite Nat.sub_diag. reflexivity. }
    destruct (get_PLC_ScanList period_eq lists period true mem_list)
      as [lists2 [k|]] eqn:Eget;
      destruct (Hget _ _ eq_refl) as [Htags Hk]; cbn [fst snd];
      [|split; [reflexivity|intros _; exact Htags]].
    destruct Hk as [[p2 l2] Hk]. rewrite Hk.
    unfold add_ScanList_Tag, new_TagInfo.
    destruct (all_tags_alter lists2 k _ Hk) as (A2 & B2 & HA2 & Hf2).
    split.
    + intros ->. destruct (negb mem_tag); reflexivity.
    + destruct (negb mem_tag); cbn [fst snd].
      * intros _. rewrite Hf2, <- Htags, HA2. reflexivity.
      * destruct (EIP_parse_tag tag_name); cbn [fst snd];
          [|discriminate].
        intros _. rewrite Hf2, <- Htags, HA2. reflexivity.
  - intros i j old list_period l Efind Hi Hslow Hperiods ->.
    rewrite Efind, Hi, Hslow.
    destruct (find_PLC_tag_Some _ _ _ _ _ Efind) as (pl & Hi' & Hj & Hname).
    rewrite Hi in Hi'. injection Hi' as <-. cbn [snd] in Hj.
    unfold get_PLC_ScanList.
    destruct (list_find _ (alter _ i lists)) as [[k pl]|] eqn:E.
    + apply list_find_Some in E. destruct E as (Hk & Heq & _).
      exfalso. destruct (decide (k = i)) as [->|Hne].
      * rewrite list_lookup_alter_eq, Hi in Hk. cbn in Hk.
        injection Hk as <-. cbn [fst on_list] in Heq.
        rewrite Forall_forall in Hperiods.
        specialize (Hperiods _ (list_elem_of_lookup_2 _ _ _ Hi)).
        cbn [fst] in Hperiods. congruence.
      * rewrite list_lookup_alter_ne in Hk by congruence.
        rewrite Forall_forall in Hperiods.
        specialize (Hperiods _ (list_elem_of_lookup_2 _ _ _ Hk)). congruence.
    + cbn [negb fst snd]. split; [reflexivity|].
      apply find_PLC_tag_absent.
      destruct (all_tags_alter lists i _ Hi) as (A & B & HA & Hf).
      cbn [snd] in HA.
      rewrite Hf. unfold on_list, remove_ScanList_TagInfo.
      cbn [snd taginfos set_taginfos]. rewrite delete_take_drop.
      pose proof (take_drop_middle _ _ _ Hj) as Hmid.
      remember (take j (taginfos l)) as T1 eqn:HT1.
      remember (drop (S j) (taginfos l)) as T2 eqn:HT2.
      clear HT1 HT2.
      rewrite HA, <- Hmid in Hnd.
      replace (A ++ (T1 ++ old :: T2) ++ B)
        with ((A ++ T1) ++ old :: (T2 ++ B))
        in Hnd by (rewrite <- !app_assoc; reflexivity).
      pose proof (filter_other_name _ _ _ Hnd) as Hfil.
      rewrite Hname in Hfil.
      replace (A ++ (T1 ++ T2) ++ B) with ((A ++ T1) ++ T2 ++ B)
        by (rewrite <- !app_assoc; reflexivity).
      rewrite <- Hfil. apply Forall_forall. intros x Hx.
      apply list_elem_of_filter in Hx. tauto.
Qed.


(** One list that is scanned every 10 seconds, with the tag [T]. *)
Definition slow_lists : list (Z * ScanList) :=
  [(10, mkScanList true 0 0 [idle_tag])].

Lemma drvEtherIP_add_tag_registers_witness :
  let T := list_ascii_of_string "T" in
  let r := drvEtherIP_add_tag Z.eqb Z.gtb slow_lists 5 T 3 true true in
  snd r = Some (set_elements idle_tag 3) /\
  find_PLC_tag (fst r) T = Some (1%nat, 0%nat, set_elements idle_tag 3) /\
  all_tags (fst r) = [set_elements idle_tag 3].
Proof.
  intros T r.
  destruct (drvEtherIP_add_tag_registers Z.eqb Z.gtb slow_lists 5 T 3)
    as (info & Hr & _ & _ & (i & j & Hfind) & _ & _).
  - cbn. apply NoDup_singleton.
  - vm_compute. discriminate.
  - fold r in Hr, Hfind.
    assert (Hinfo : info = set_elements idle_tag 3).
    { change (snd r) with (Some (set_elements idle_tag 3)) in Hr. congruence. }
    subst info. split; [exact Hr|]. split; [|reflexivity].
    change (find_PLC_tag (fst r) T)
      with (Some (1%nat, 0%nat, set_elements idle_tag 3)) in Hfind |- *.
    reflexivity.
Defined.

Lemma drvEtherIP_add_tag_failures_witness :
  let T := list_ascii_of_string "T" in
  let r := drvEtherIP_add_tag Z.eqb Z.gtb slow_lists 5 T 3 false true in
  find_PLC_tag slow_lists T = Some (0%nat, 0%nat, idle_tag) /\
  snd r = None /\ find_PLC_tag (fst r) T = None.
Proof.
  intros T r. split; [reflexivity|].
  destruct (drvEtherIP_add_tag_failures Z.eqb Z.gtb slow_lists 5 T 3 false true)
    as [_ Hlost].
  - cbn. apply NoDup_singleton.
  - apply (Hlost 0%nat 0%nat idle_tag 10 (mkScanList true 0 0 [idle_tag])).
    + reflexivity.
    + reflexivity.
    + reflexivity.
    + repeat constructor.
    + reflexivity.
Defined.

Lemma write_at_prepend m p q A B :
  q = p + Z.of_nat (List.length A) -> 0 <= p ->
  q + Z.of_nat (List.length B) <= Z.of_nat (List.length m) ->
  write_at (write_at m q B) p A = write_at m p (A ++ B).
Proof.
  intros -> Hp H. unfold write_at.
  rewrite take_app_le by (rewrite length_take; lia).
  rewrite take_take.
  replace (Z.to_nat p `min` Z.to_nat (p + Z.of_nat (List.length A)))%nat
    with (Z.to_nat p) by lia.
  rewrite <- !app_assoc. do 2 f_equal.
  replace (Z.to_nat p + List.length A)%nat
    with (List.length (take (Z.to_nat (p + Z.of_nat (List.length A))) m))
    by (rewrite length_take; lia).
  rewrite drop_app_length. do 2 f_equal.
  rewrite length_app. lia.
Qed.

Lemma EIP_send_connection_buffer_frame m command length session options rest send :
  0 <= length -> length < 2 ^ 16 ->
  24 + Z.of_nat (List.length rest) <= Z.of_nat (List.length m) ->
  EIP_send_connection_buffer
    (write_at m 0
       (packed (encapsulation_header_fields command length session options)
        ++ rest)) send
  = (send (take (Z.to_nat (24 + length))
             (write_at m 0
                (packed (encapsulation_header_fields command length session
                           options) ++ rest)))
     =? 24 + length).
Proof.
  intros Hl Hfit Hm. unfold EIP_send_connection_buffer.
  pose proof (unpack_UINT_in_image m 0 2 (le_bytes16 command) length
                (le_bytes32 session ++ le_bytes32 0
                 ++ [65; 73; 82; 80; 76; 65; 78; 69] ++ le_bytes32 options
                 ++ rest)) as Hu.
  change (le_bytes16 command ++ le_bytes16 length
          ++ le_bytes32 session ++ le_bytes32 0
          ++ [65; 73; 82; 80; 76; 65; 78; 69] ++ le_bytes32 options ++ rest)
    with (packed (encapsulation_header_fields command length session options)
          ++ rest) in Hu.
  rewrite Hu; [|reflexivity|lia|].
  - unfold CN_UINT_wrap, sizeof_EncapsulationHeader.
    rewrite Z.mod_small by (change (2 ^ 16) with 65536 in *; lia).
    rewrite int_wrap_small
      by (change (2 ^ 16) with 65536 in *; change (2 ^ 31) with 2147483648;
          lia).
    reflexivity.
  - rewrite length_app.
    change (List.length (packed (encapsulation_header_fields command length
                                   session options))) with 24%nat.
    lia.
Qed.

Lemma read_request_image_length tag elements :
  Z.of_nat (List.length (read_request_image tag elements))
  = 4 + wire_length tag.
Proof.
  unfold read_request_image, wire_length.
  rewrite !length_app. cbn [List.length le_bytes16]. lia.
Qed.

Lemma read_tag_frame_length c tag elements :
  Z.of_nat (List.length (read_tag_frame c tag elements))
  = 58 + wire_length tag.
Proof.
  unfold read_tag_frame. cbv zeta. rewrite !length_app.
  pose proof (read_request_image_length tag elements) as Hr.
  change (List.length (packed (encapsulation_header_fields _ _ _ _)))
    with 24%nat.
  change (List.length (packed (RRData_fields _))) with 16%nat.
  change (List.length (unconnected_send_header _)) with 10%nat.
  change (List.length unconnected_send_trailer) with 4%nat.
  lia.
Qed.

Lemma padded_even v : Z.even v = true -> padded v = v.
Proof.
  intros H. unfold padded. apply Z.even_spec in H. destruct H as [k ->].
  replace (2 * k) with (k * 2) by lia. rewrite Z.mod_mul by lia. lia.
Qed.

(** The buffer that [EIP_read_tag] hands to the socket. *)
Lemma EIP_read_tag_builds c b tag elements alloc :
  GrowBuffer_wf b -> Forall segment_in_range tag -> wire_length tag <= 510 ->
  malloc_wf (58 + wire_length tag) alloc ->
  (gb_size b < 58 + wire_length tag -> alloc <> None) ->
  exists m,
    58 + wire_length tag <= Z.of_nat (List.length m) /\
    forall send received rs ps,
      Wire.EIP_read_tag c b tag elements alloc send received rs ps
      = let M := write_at m 0 (read_tag_frame c tag elements) in
        let sent := mkGrowBuffer (Some M) (Z.of_nat (List.length m)) in
        if negb (send (read_tag_frame c tag elements) =? 58 + wire_length tag)
        then (sent, None, 4 + wire_length tag, ps)
        else
          match received with
          | None => (sent, None, 4 + wire_length tag, ps)
          | Some b =>
              match EIP_unpack_RRData (contents b) 0 with
              | Some (response, rr_data) =>
                  (b,
                   check_CIP_ReadData_Response (contents b) response
                     (rr_data_length rr_data),
                   4 + wire_length tag, rr_data_length rr_data)
              | None => (b, None, 4 + wire_length tag, ps)
              end
          end.
Proof.
  intros Hwf Hseg Hw Halloc Hsome.
  pose proof (wire_length_nonneg tag) as Hw0.
  pose proof (wire_length_even tag) as Hev.
  assert (Hpad : padded (4 + wire_length tag) = 4 + wire_length tag).
  { apply padded_even. rewrite Z.even_add, Hev. reflexivity. }
  assert (Hmsg : CIP_ReadData_size tag = 4 + wire_length tag)
    by (apply CIP_ReadData_size_value; exact Hw).
  assert (Hsend : CM_Unconnected_Send_size (4 + wire_length tag)
                  = 18 + wire_length tag).
  { rewrite CM_Unconnected_Send_size_value by (rewrite ?Hpad; lia).
    rewrite Hpad. lia. }
  assert (Hpath : tag_path_size tag <= 255).
  { pose proof (tag_path_size_words tag ltac:(lia)). lia. }
  destruct (EIP_make_SendRRData_write c b (18 + wire_length tag) alloc)
    as (m & Hroom & Heq).
  - exact Hwf.
  - replace (40 + (18 + wire_length tag)) with (58 + wire_length tag) by lia.
    exact Halloc.
  - lia.
  - lia.
  - apply EIP_reserve_buffer_succeeds. intros Hlt. apply Hsome. lia.
  - exists m. split; [lia|]. intros send received rs ps.
    unfold Wire.EIP_read_tag. rewrite Hmsg, Hsend, Heq.
    unfold contents. cbn [gb_buffer gb_size].
    set (HR := packed (encapsulation_header_fields EC_SendRRData
                         (16 + (18 + wire_length tag)) (session c) 0)
               ++ packed (RRData_fields (18 + wire_length tag))).
    assert (HHR : Z.of_nat (List.length HR) = 40) by reflexivity.
    rewrite make_CM_Unconnected_Send_write
      by (rewrite ?write_at_length, ?Hpad; lia).
    rewrite Hpad.
    assert (HU : Z.of_nat (List.length
                   (unconnected_send_header (4 + wire_length tag))) = 10)
      by reflexivity.
    assert (HT : Z.of_nat (List.length unconnected_send_trailer) = 4)
      by reflexivity.
    rewrite (write_at_app' m 0 40 HR) by lia.
    assert (HUS : Z.of_nat (List.length
                    (HR ++ unconnected_send_header (4 + wire_length tag))) = 50)
      by reflexivity.
    assert (Hl1 : List.length
                    (write_at m 0
                       (HR ++ unconnected_send_header (4 + wire_length tag)))
                  = List.length m) by (apply write_at_length; lia).
    assert (Hl2 : List.length
                    (write_at
                       (write_at m 0
                          (HR ++ unconnected_send_header (4 + wire_length tag)))
                       (40 + 10 + (4 + wire_length tag))
                       unconnected_send_trailer)
                  = List.length m)
      by (rewrite write_at_length; [exact Hl1|lia|rewrite Hl1; lia]).
    rewrite make_CIP_ReadData_write;
      [|exact Hseg|exact Hpath|lia|lia|rewrite Hl2; lia].
    replace (40 + 10) with 50 by lia.
    pose proof (read_request_image_length tag elements) as Hri.
    rewrite (write_at_prepend _ 50 (50 + (4 + wire_length tag)))
      by (rewrite ?Hl1; lia).
    rewrite (write_at_app' m 0 50) by (rewrite ?length_app; lia).
    assert (Hframe : (HR ++ unconnected_send_header (4 + wire_length tag))
                     ++ read_request_image tag elements
                     ++ unconnected_send_trailer
                     = read_tag_frame c tag elements).
    { unfold read_tag_frame, HR. cbv zeta.
      replace (14 + (4 + wire_length tag)) with (18 + wire_length tag) by lia.
      rewrite <- !app_assoc. reflexivity. }
    rewrite Hframe.
    pose proof (read_tag_frame_length c tag elements) as Hfl.
    assert (Hsent : EIP_send_connection_buffer
                      (write_at m 0 (read_tag_frame c tag elements)) send
                    = (send (read_tag_frame c tag elements)
                       =? 58 + wire_length tag)).
    { unfold read_tag_frame at 1. cbv zeta.
      rewrite EIP_send_connection_buffer_frame.
      - fold (read_tag_frame c tag elements).
        replace (24 + (16 + (14 + (4 + wire_length tag))))
          with (58 + wire_length tag) by lia.
        replace (Z.to_nat (58 + wire_length tag))
          with (List.length (read_tag_frame c tag elements)) by lia.
        unfold write_at. change (Z.to_nat 0) with 0%nat.
        rewrite take_0. cbn [app]. rewrite take_app_length. reflexivity.
      - lia.
      - change (2 ^ 16) with 65536. lia.
      - pose proof Hfl as Hfl'. unfold read_tag_frame in Hfl'. cbv zeta in Hfl'.
        rewrite length_app in Hfl'.
        change (List.length (packed (encapsulation_header_fields _ _ _ _)))
          with 24%nat in Hfl'.
        lia. }
    rewrite Hsent. cbv zeta.
    destruct (send (read_tag_frame c tag elements) =? 58 + wire_length tag);
      cbn [negb]; [|reflexivity].
    destruct received as [rb|]; [|reflexivity].
    destruct (EIP_unpack_RRData (contents rb) 0) as [[response rr]|];
      reflexivity.
Qed.

Lemma write_at_same A X B :
  write_at (A ++ X ++ B) (Z.of_nat (List.length A)) X = A ++ X ++ B.
Proof.
  unfold write_at. rewrite Nat2Z.id, take_app_length.
  replace (List.length A + List.length X)%nat with (List.length (A ++ X))
    by (rewrite length_app; reflexivity).
  rewrite (app_assoc A X B), drop_app_length, <- app_assoc. reflexivity.
Qed.

Lemma unpack_step_i m p f :
  unpack m p ("i"%char :: f)
  = match unpack m (p + 2) f with
    | Some (b, vs) => Some (b, fst (unpack_UINT m p) :: vs)
    | None => None
    end.
Proof. reflexivity. Qed.

Lemma unpack_step_d m p f :
  unpack m p ("d"%char :: f)
  = match unpack m (p + 4) f with
    | Some (b, vs) => Some (b, fst (unpack_UDINT m p) :: vs)
    | None => None
    end.
Proof. reflexivity. Qed.

Lemma unpack_step_s m p f :
  unpack m p ("s"%char :: f)
  = match unpack m (p + 1) f with
    | Some (b, vs) => Some (b, peek m p :: vs)
    | None => None
    end.
Proof. reflexivity. Qed.

(** [EIP_unpack_RRData] does not test what it unpacks: the response is
    behind the 40 octets of header and RRData, and its length is the
    last field of the RRData. *)
Lemma unpack_nil m p : unpack m p [] = Some (p, []).
Proof. reflexivity. Qed.

Lemma EIP_unpack_RRData_length m :
  exists rr,
    EIP_unpack_RRData m 0 = Some (40, rr) /\
    rr_data_length rr = fst (unpack_UINT m 38).
Proof.
  unfold EIP_unpack_RRData, unpack_EncapsulationHeader.
  cbn [list_ascii_of_string].
  rewrite !unpack_step_i, !unpack_step_d, !unpack_step_s, unpack_step_d,
    unpack_nil.
  cbv iota beta.
  rewrite unpack_step_d, !unpack_step_i, unpack_nil.
  cbv iota beta.
  eexists. split; reflexivity.
Qed.

(** X21: one tag read over the wire, for a tag whose path fits its
    one-octet size.  The frame that [EIP_read_tag] hands to the socket is
    the encapsulation header (SendRRData, session of the connection), the
    RRData, the Unconnected_Send request, the CIP_ReadData request inside
    it and the path to the PLC; the request size is 4 more than the path.
    When the socket does not take the frame, or no response comes, the
    null pointer is returned and the response size is untouched.
    Otherwise, for a response whose RRData announces [L] octets, the
    response size is [L], and data is returned exactly when the service
    of the MR_Response without its reply bit is CIP_ReadData and its
    status 0: the place behind the extended status, and what is left of
    [L] as its size.  Nothing else of the 40 octets before the
    MR_Response is looked at. *)
Theorem EIP_read_tag_transfer (c : EIPConnection) (b : GrowBuffer)
    (tag : ParsedTag) (elements : Z) (alloc : malloc_result)
    (send : list Z -> Z) (rs ps : Z) :
  GrowBuffer_wf b -> Forall segment_in_range tag -> wire_length tag <= 510 ->
  malloc_wf (58 + wire_length tag) alloc ->
  (gb_size b < 58 + wire_length tag -> alloc <> None) ->
  let frame := read_tag_frame c tag elements in
  let taken := send frame = Z.of_nat (List.length frame) in
  (forall received, ~ taken \/ received = None ->
     exists sent,
       Wire.EIP_read_tag c b tag elements alloc send received rs ps
       = (sent, None, 4 + wire_length tag, ps) /\
       take (List.length frame) (contents sent) = frame) /\
  (taken ->
   forall prefix L service status ext data rest size,
     List.length prefix = 38%nat -> 0 <= L < 2 ^ 16 ->
     Z.of_nat (List.length ext) <= 255 ->
     let reply :=
       mkGrowBuffer
         (Some (prefix ++ le_bytes16 L
                ++ mr_response_image service status ext data ++ rest))
         size in
     Wire.EIP_read_tag c b tag elements alloc send (Some reply) rs ps
     = (reply,
        if (Z.land service 0x7F =? S_CIP_ReadData) && (status =? 0)
        then Some (44 + 2 * Z.of_nat (List.length ext),
                   if L >? 4 + 2 * Z.of_nat (List.length ext)
                   then L - (4 + 2 * Z.of_nat (List.length ext)) else 0)
        else None,
        4 + wire_length tag, L)).
Proof.
  intros Hwf Hseg Hw Halloc Hsome frame taken.
  destruct (EIP_read_tag_builds c b tag elements alloc Hwf Hseg Hw Halloc Hsome)
    as (m & Hroom & Heq).
  pose proof (read_tag_frame_length c tag elements) as Hfl.
  fold frame in Hfl.
  assert (Htake : take (List.length frame) (write_at m 0 frame) = frame).
  { unfold write_at. change (Z.to_nat 0) with 0%nat.
    rewrite take_0. cbn [app]. apply take_app_length. }
  split.
  - intros received Hfail. rewrite Heq. cbv zeta. fold frame.
    destruct (Z.eqb_spec (send frame) (58 + wire_length tag)) as [Hs|Hs];
      cbn [negb].
    + destruct Hfail as [Hn| ->]; [contradiction Hn; unfold taken; lia|].
      eexists. split; [reflexivity|exact Htake].
    + eexists. split; [reflexivity|exact Htake].
  - intros Htaken prefix L service status ext data rest size Hp HL Hext reply.
    rewrite Heq. cbv zeta. fold frame.
    destruct (Z.eqb_spec (send frame) (58 + wire_length tag)) as [Hs|Hs];
      [|unfold taken in Htaken; lia].
    cbn [negb]. unfold reply, contents. cbn [gb_buffer].
    set (image := mr_response_image service status ext data).
    set (M := prefix ++ le_bytes16 L ++ image ++ rest).
    destruct (EIP_unpack_RRData_length M) as (rr & Hrr & Hlen).
    rewrite Hrr.
    assert (HL' : rr_data_length rr = L).
    { rewrite Hlen. rewrite <- (write_at_self M). unfold M at 2.
      rewrite (unpack_UINT_in_image M 0 38 prefix L (image ++ rest)).
      - cbn [fst]. unfold CN_UINT_wrap. apply Z.mod_small. lia.
      - lia.
      - lia.
      - fold M. lia. }
    rewrite HL'. f_equal. f_equal. f_equal.
    pose proof (mr_response_image_length service status ext data) as Hil.
    fold image in Hil.
    assert (HM : M = write_at M 40 image).
    { unfold M at 1 2. rewrite (app_assoc prefix).
      replace 40 with (Z.of_nat (List.length (prefix ++ le_bytes16 L)))
        by (rewrite length_app, Hp; reflexivity).
      rewrite write_at_same. reflexivity. }
    assert (HMl : 40 + Z.of_nat (List.length image) <= Z.of_nat (List.length M)).
    { unfold M. rewrite !length_app, Hp. cbn [List.length le_bytes16]. lia. }
    unfold check_CIP_ReadData_Response, is_raw_MRResponse_ok.
    assert (H0 : peek M 40 = service).
    { rewrite HM.
      pose proof (peek_in_image M 40 image 0 service) as H.
      change (Z.of_nat 0) with 0 in H. rewrite Z.add_0_r in H.
      apply H; [lia|lia|reflexivity]. }
    assert (H2 : peek M (40 + 2) = status).
    { rewrite HM. apply (peek_in_image M 40 image 2); [lia|lia|reflexivity]. }
    rewrite H0, H2.
    destruct ((Z.land service 0x7F =? S_CIP_ReadData) && (status =? 0));
      [|reflexivity].
    rewrite HM. unfold image.
    rewrite EIP_raw_MR_Response_data_image by (fold image; lia).
    replace (40 + 4 + 2 * Z.of_nat (List.length ext))
      with (44 + 2 * Z.of_nat (List.length ext)) by lia.
    reflexivity.
Qed.

Lemma EIP_read_tag_transfer_witness :
  let tag := [te_name (list_ascii_of_string "T")] in
  let reply :=
    mkGrowBuffer
      (Some (replicate 38 0 ++ le_bytes16 8
             ++ mr_response_image 0xCC 0 [] [0xC4; 0; 7; 0] ++ []))
      48 in
  Wire.EIP_read_tag sample_connection (mkGrowBuffer None 0) tag 1
    (Some (replicate 62 0)) (fun l => Z.of_nat (List.length l))
    (Some reply) 0 0
  = (reply, Some (44, 4), 8, 8).
Proof.
  intros tag reply.
  destruct (EIP_read_tag_transfer sample_connection (mkGrowBuffer None 0) tag 1
              (Some (replicate 62 0)) (fun l => Z.of_nat (List.length l)) 0 0)
    as [_ Hreply].
  - vm_compute. repeat split; congruence.
  - repeat constructor. vm_compute. congruence.
  - vm_compute. congruence.
  - reflexivity.
  - discriminate.
  - apply (Hreply eq_refl (replicate 38 0) 8 0xCC 0 [] [0xC4; 0; 7; 0] [] 48).
    + reflexivity.
    + lia.
    + simpl. lia.
Defined.

Lemma write_at_region X p n :
  0 <= p -> 0 <= n -> p + n <= Z.of_nat (List.length X) ->
  write_at X p (region X p n) = X.
Proof.
  intros Hp Hn H. unfold write_at, region.
  rewrite length_take, length_drop.
  replace (Z.to_nat p + Z.to_nat n `min` (List.length X - Z.to_nat p))%nat
    with (Z.to_nat p + Z.to_nat n)%nat by lia.
  rewrite <- (drop_drop X (Z.to_nat n) (Z.to_nat p)).
  rewrite (take_drop (Z.to_nat n)), take_drop. reflexivity.
Qed.

(** Two stores with a gap between them. *)
Lemma write_at_gap X p q A B g :
  q = p + Z.of_nat (List.length A) + g -> 0 <= p -> 0 <= g ->
  q + Z.of_nat (List.length B) <= Z.of_nat (List.length X) ->
  write_at (write_at X q B) p A
  = write_at X p (A ++ region X (p + Z.of_nat (List.length A)) g ++ B).
Proof.
  intros -> Hp Hg H.
  set (q' := p + Z.of_nat (List.length A)).
  assert (HG : Z.of_nat (List.length (region X q' g)) = g).
  { unfold region. rewrite length_take, length_drop. lia. }
  rewrite <- (write_at_region X q' g) at 1 by lia.
  rewrite (write_at_app' X q' (q' + g)) by lia.
  apply write_at_prepend; [reflexivity|lia|].
  rewrite length_app. lia.
Qed.

Lemma write_request_image_length tag type elements data :
  Z.of_nat (List.length (write_request_image tag type elements data))
  = 6 + wire_length tag + Z.of_nat (List.length data).
Proof.
  unfold write_request_image, wire_length.
  rewrite !length_app. cbn [List.length le_bytes16]. lia.
Qed.

Lemma write_tag_frame_length c tag type elements data pad :
  Z.of_nat (List.length (write_tag_frame c tag type elements data pad))
  = 54 + (6 + wire_length tag + Z.of_nat (List.length data))
    + Z.of_nat (List.length pad).
Proof.
  unfold write_tag_frame. cbv zeta. rewrite !length_app.
  pose proof (write_request_image_length tag type elements data) as Hr.
  change (List.length (packed (encapsulation_header_fields _ _ _ _)))
    with 24%nat.
  change (List.length (packed (RRData_fields _))) with 16%nat.
  change (List.length (unconnected_send_header _)) with 10%nat.
  change (List.length unconnected_send_trailer) with 4%nat.
  lia.
Qed.

(** The buffer that [EIP_write_tag] hands to the socket. *)
Lemma EIP_write_tag_builds c b tag type elements raw_data alloc :
  let data_size := CIP_Type_size type * elements in
  let data := take (Z.to_nat data_size) raw_data in
  let msg_size := 6 + wire_length tag + data_size in
  let m0 := contents (fst (EIP_reserve_buffer b (54 + padded msg_size) alloc)) in
  let pad := region m0 (50 + msg_size) (msg_size mod 2) in
  let frame := write_tag_frame c tag type elements data pad in
  GrowBuffer_wf b -> Forall segment_in_range tag -> wire_length tag <= 510 ->
  0 <= elements -> octets raw_data ->
  data_size <= Z.of_nat (List.length raw_data) ->
  30 + padded msg_size <= 0xFFFF ->
  malloc_wf (54 + padded msg_size) alloc ->
  (gb_size b < 54 + padded msg_size -> alloc <> None) ->
  Z.of_nat (List.length frame) = 54 + padded msg_size /\
  forall send received rs ps,
    Wire.EIP_write_tag c b tag type elements raw_data alloc send received rs ps
    = let sent := mkGrowBuffer (Some (write_at m0 0 frame))
                    (Z.of_nat (List.length m0)) in
      if negb (send frame =? 54 + padded msg_size)
      then (sent, false, msg_size, ps)
      else
        match received with
        | None => (sent, false, msg_size, ps)
        | Some b =>
            match EIP_unpack_RRData (contents b) 0 with
            | Some (response, rr_data) =>
                if negb (check_CIP_WriteData_Response (contents b) response
                           (rr_data_length rr_data))
                then (b, false, msg_size, ps)
                else (b, true, msg_size, rr_data_length rr_data)
            | None => (b, false, msg_size, ps)
            end
        end.
Proof.
  intros data_size data msg_size m0 pad frame
    Hwf Hseg Hw Hel Hoct Hdata Hfit Halloc Hsome.
  pose proof (wire_length_nonneg tag) as Hw0.
  pose proof (CIP_Type_size_range type) as Ht.
  assert (Hd0 : 0 <= data_size) by (unfold data_size; nia).
  assert (Hdl : Z.of_nat (List.length data) = data_size)
    by (unfold data; rewrite length_take; lia).
  assert (Hmod : 0 <= msg_size mod 2 < 2) by (apply Z.mod_pos_bound; lia).
  assert (Hpadded : padded msg_size = msg_size + msg_size mod 2)
    by reflexivity.
  assert (Hdsz : size_t_wrap data_size = data_size)
    by (apply size_t_wrap_small; lia).
  assert (Hmsg : CIP_WriteData_size tag data_size = msg_size).
  { unfold CIP_WriteData_size.
    rewrite <- (tag_path_size_words tag) by lia.
    rewrite size_t_wrap_small by lia. unfold msg_size. lia. }
  assert (Hsend : CM_Unconnected_Send_size msg_size = 14 + padded msg_size)
    by (apply CM_Unconnected_Send_size_value; lia).
  assert (Hok : snd (EIP_reserve_buffer b (40 + (14 + padded msg_size)) alloc)
                = true).
  { apply EIP_reserve_buffer_succeeds. intros Hlt. apply Hsome. lia. }
  destruct (EIP_make_SendRRData_in c b (14 + padded msg_size) alloc)
    as (m & Hm & Hroom & Heq); try assumption; try lia.
  { replace (40 + (14 + padded msg_size)) with (54 + padded msg_size) by lia.
    exact Halloc. }
  destruct (EIP_reserve_buffer_ok b (40 + (14 + padded msg_size)) alloc)
    as [[Hsz Hblk] _]; try assumption; try lia.
  { replace (40 + (14 + padded msg_size)) with (54 + padded msg_size) by lia.
    exact Halloc. }
  rewrite Hm in Hblk.
  assert (Hm0 : m0 = m).
  { unfold m0, contents.
    replace (54 + padded msg_size) with (40 + (14 + padded msg_size)) by lia.
    rewrite Hm. reflexivity. }
  assert (Hpl : Z.of_nat (List.length pad) = msg_size mod 2).
  { unfold pad, region. rewrite length_take, length_drop, Hm0. lia. }
  assert (Hfl : Z.of_nat (List.length frame) = 54 + padded msg_size).
  { unfold frame. rewrite write_tag_frame_length, Hdl, Hpl.
    fold msg_size. lia. }
  split; [exact Hfl|].
  intros send received rs ps.
  unfold Wire.EIP_write_tag. fold data_size. rewrite Hdsz, Hmsg, Hsend, Heq.
  unfold contents at 1. cbn [gb_buffer gb_size].
  set (HR := packed (encapsulation_header_fields EC_SendRRData
                       (16 + (14 + padded msg_size)) (session c) 0)
             ++ packed (RRData_fields (14 + padded msg_size))).
  assert (HHR : Z.of_nat (List.length HR) = 40) by reflexivity.
  assert (HU : Z.of_nat (List.length (unconnected_send_header msg_size)) = 10)
    by reflexivity.
  assert (HT : Z.of_nat (List.length unconnected_send_trailer) = 4)
    by reflexivity.
  rewrite make_CM_Unconnected_Send_write
    by (rewrite ?write_at_length; lia).
  rewrite (write_at_app' m 0 40 HR) by lia.
  set (W1 := write_at m 0 (HR ++ unconnected_send_header msg_size)).
  assert (Hl1 : List.length W1 = List.length m)
    by (apply write_at_length; rewrite ?length_app; lia).
  assert (Hl2 : List.length
                  (write_at W1 (40 + 10 + padded msg_size)
                     unconnected_send_trailer)
                = List.length m)
    by (rewrite write_at_length; [exact Hl1|lia|rewrite Hl1; lia]).
  rewrite make_CIP_WriteData_write;
    [|exact Hseg|exact Hw|exact Hel|exact Hoct|exact Hdata|lia
     |fold data_size; rewrite Hl2; lia|rewrite Hl2; lia].
  fold data_size. fold data.
  pose proof (write_request_image_length tag type elements data) as Hwi.
  rewrite Hdl in Hwi. fold msg_size in Hwi.
  rewrite (write_at_gap W1 (40 + 10) (40 + 10 + padded msg_size) _ _
             (msg_size mod 2)) by (rewrite ?Hl1; lia).
  rewrite Hwi.
  assert (Hpad : region W1 (40 + 10 + msg_size) (msg_size mod 2) = pad).
  { unfold W1, pad. rewrite Hm0.
    replace (40 + 10 + msg_size) with (50 + msg_size) by lia.
    apply region_write_at_after; rewrite ?length_app; lia. }
  rewrite Hpad. unfold W1.
  rewrite (write_at_app' m 0 (40 + 10))
    by (rewrite ?length_app; lia).
  assert (Hframe : (HR ++ unconnected_send_header msg_size)
                   ++ write_request_image tag type elements data
                   ++ pad ++ unconnected_send_trailer
                   = frame).
  { unfold frame, write_tag_frame, HR. cbv zeta. rewrite Hdl.
    fold msg_size. rewrite <- !app_assoc. reflexivity. }
  rewrite Hframe. rewrite Hm0.
  assert (Hsent : EIP_send_connection_buffer (write_at m 0 frame) send
                  = (send frame =? 54 + padded msg_size)).
  { rewrite <- Hframe. unfold HR. rewrite <- !app_assoc.
    rewrite EIP_send_connection_buffer_frame.
    - rewrite !app_assoc. fold HR. rewrite <- !app_assoc.
      rewrite (app_assoc HR), Hframe.
      replace (24 + (16 + (14 + padded msg_size)))
        with (54 + padded msg_size) by lia.
      replace (Z.to_nat (54 + padded msg_size))
        with (List.length frame) by lia.
      unfold write_at. change (Z.to_nat 0) with 0%nat.
      rewrite take_0. cbn [app]. rewrite take_app_length. reflexivity.
    - lia.
    - change (2 ^ 16) with 65536. lia.
    - rewrite !length_app.
      change (List.length (packed (RRData_fields (14 + padded msg_size))))
        with 16%nat.
      lia. }
  rewrite Hsent. cbv zeta.
  replace (gb_size (fst (EIP_reserve_buffer b (40 + (14 + padded msg_size)) alloc)))
    with (Z.of_nat (List.length m)) by lia.
  reflexivity.
Qed.

(** X22: one tag write over the wire.  The frame that [EIP_write_tag]
    hands to the socket is header, RRData, Unconnected_Send request, the
    CIP_WriteData request with the data, and the path to the PLC; when
    the request has an odd size, the octet between it and the path is
    not stored: it is what the buffer held there.  When the socket does
    not take the frame, or no response comes, the result is false.
    Otherwise the result is true exactly when the service of the
    MR_Response without its reply bit is CIP_WriteData and its status 0,
    and only then the response size is filled in, with the length that
    the RRData announces. *)
Theorem EIP_write_tag_transfer (c : EIPConnection) (b : GrowBuffer)
    (tag : ParsedTag) (type elements : Z) (raw_data : list Z)
    (alloc : malloc_result) (send : list Z -> Z) (rs ps : Z) :
  let data_size := CIP_Type_size type * elements in
  let data := take (Z.to_nat data_size) raw_data in
  let msg_size := 6 + wire_length tag + data_size in
  let m0 := contents (fst (EIP_reserve_buffer b (54 + padded msg_size) alloc)) in
  let pad := region m0 (50 + msg_size) (msg_size mod 2) in
  let frame := write_tag_frame c tag type elements data pad in
  let taken := send frame = Z.of_nat (List.length frame) in
  GrowBuffer_wf b -> Forall segment_in_range tag -> wire_length tag <= 510 ->
  0 <= elements -> octets raw_data ->
  data_size <= Z.of_nat (List.length raw_data) ->
  30 + padded msg_size <= 0xFFFF ->
  malloc_wf (54 + padded msg_size) alloc ->
  (gb_size b < 54 + padded msg_size -> alloc <> None) ->
  Z.of_nat (List.length pad) = msg_size mod 2 /\
  (forall received, ~ taken \/ received = None ->
     exists sent,
       Wire.EIP_write_tag c b tag type elements raw_data alloc send received
         rs ps
       = (sent, false, msg_size, ps) /\
       take (List.length frame) (contents sent) = frame) /\
  (taken ->
   forall prefix L service reserved status rest size,
     List.length prefix = 38%nat -> 0 <= L < 2 ^ 16 ->
     let reply :=
       mkGrowBuffer
         (Some (prefix ++ le_bytes16 L ++ service :: reserved :: status :: rest))
         size in
     let accepted :=
       (Z.land service 0x7F =? S_CIP_WriteData) && (status =? 0) in
     Wire.EIP_write_tag c b tag type elements raw_data alloc send (Some reply)
       rs ps
     = (reply, accepted, msg_size, if accepted then L else ps)).
Proof.
  intros data_size data msg_size m0 pad frame taken
    Hwf Hseg Hw Hel Hoct Hdata Hfit Halloc Hsome.
  destruct (EIP_write_tag_builds c b tag type elements raw_data alloc
              Hwf Hseg Hw Hel Hoct Hdata Hfit Halloc Hsome) as [Hfl Heq].
  fold data_size data msg_size m0 pad frame in Hfl, Heq.
  pose proof (write_tag_frame_length c tag type elements data pad) as Hlen.
  fold frame in Hlen.
  assert (Hdl : Z.of_nat (List.length data) = data_size).
  { pose proof (CIP_Type_size_range type).
    unfold data. rewrite length_take. unfold data_size in *. nia. }
  assert (Htake : take (List.length frame) (write_at m0 0 frame) = frame).
  { unfold write_at. change (Z.to_nat 0) with 0%nat.
    rewrite take_0. cbn [app]. apply take_app_length. }
  split; [|split].
  - unfold padded in Hfl. unfold msg_size in *. lia.
  - intros received Hfail. rewrite Heq. cbv zeta.
    destruct (Z.eqb_spec (send frame) (54 + padded msg_size)) as [Hs|Hs];
      cbn [negb].
    + destruct Hfail as [Hn| ->]; [contradiction Hn; unfold taken; lia|].
      eexists. split; [reflexivity|exact Htake].
    + eexists. split; [reflexivity|exact Htake].
  - intros Htaken prefix L service reserved status rest size Hp HL
      reply accepted.
    rewrite Heq. cbv zeta.
    destruct (Z.eqb_spec (send frame) (54 + padded msg_size)) as [Hs|Hs];
      [|unfold taken in Htaken; lia].
    cbn [negb]. unfold reply, contents. cbn [gb_buffer].
    set (M := prefix ++ le_bytes16 L ++ service :: reserved :: status :: rest).
    destruct (EIP_unpack_RRData_length M) as (rr & Hrr & Hrl).
    rewrite Hrr.
    assert (HL' : rr_data_length rr = L).
    { rewrite Hrl. rewrite <- (write_at_self M). unfold M at 2.
      rewrite (unpack_UINT_in_image M 0 38 prefix L
                 (service :: reserved :: status :: rest)).
      - cbn [fst]. unfold CN_UINT_wrap. apply Z.mod_small. lia.
      - lia.
      - lia.
      - fold M. lia. }
    rewrite HL'.
    assert (HM : M = write_at M 0 M) by (symmetry; apply write_at_self).
    assert (H0 : peek M 40 = service).
    { rewrite HM. apply (peek_in_image M 0 M 40); [lia|lia|].
      unfold M. rewrite lookup_app_r by lia. rewrite Hp. reflexivity. }
    assert (H2 : peek M (40 + 2) = status).
    { rewrite HM. apply (peek_in_image M 0 M 42); [lia|lia|].
      unfold M. rewrite lookup_app_r by lia. rewrite Hp. reflexivity. }
    unfold check_CIP_WriteData_Response, is_raw_MRResponse_ok.
    rewrite H0, H2. fold accepted.
    destruct accepted; reflexivity.
Qed.

Lemma EIP_write_tag_transfer_witness :
  let tag := [te_name (list_ascii_of_string "T")] in
  let reply :=
    mkGrowBuffer (Some (replicate 38 0 ++ le_bytes16 4 ++ [0xCD; 0; 0; 0])) 44 in
  let fresh := replicate 66 0xEE in
  Wire.EIP_write_tag sample_connection (mkGrowBuffer None 0) tag T_CIP_SINT 1
    [5] (Some fresh) (fun l => Z.of_nat (List.length l)) (Some reply) 0 0
  = (reply, true, 11, 4) /\
  write_tag_frame sample_connection tag T_CIP_SINT 1 [5]
    (region fresh 61 1)
  = [0x6F; 0; 42; 0; 0x44; 0x33; 0x22; 0x11; 0; 0; 0; 0;
     65; 73; 82; 80; 76; 65; 78; 69; 0; 0; 0; 0;
     0; 0; 0; 0; 0; 0; 2; 0; 0; 0; 0; 0; 0xB2; 0; 26; 0;
     0x52; 2; 0x20; 6; 0x24; 1; 10; 240; 11; 0;
     0x4D; 2; 0x91; 1; 84; 0; 0xC2; 0; 1; 0; 5;
     0xEE;
     1; 0; 1; 0].
Proof.
  intros tag reply fresh. split; [|reflexivity].
  destruct (EIP_write_tag_transfer sample_connection (mkGrowBuffer None 0) tag
              T_CIP_SINT 1 [5] (Some fresh)
              (fun l => Z.of_nat (List.length l)) 0 0)
    as (_ & _ & Hreply).
  - vm_compute. repeat split; congruence.
  - repeat constructor. vm_compute. congruence.
  - vm_compute. congruence.
  - lia.
  - repeat constructor; lia.
  - vm_compute. congruence.
  - vm_compute. congruence.
  - reflexivity.
  - discriminate.
  - apply (Hreply eq_refl (replicate 38 0) 4 0xCD 0 0 [0] 44).
    + reflexivity.
    + lia.
Defined.

Lemma read_reply_length d :
  Z.of_nat (List.length (read_reply d)) = 4 + Z.of_nat (List.length d).
Proof.
  unfold read_reply. rewrite mr_response_image_length. simpl. lia.
Qed.

(** An accepted read reply that lies at [p]. *)
Lemma check_read_reply M p d :
  0 <= p -> p + 4 + Z.of_nat (List.length d) <= Z.of_nat (List.length M) ->
  Z.of_nat (List.length M) < 2 ^ 32 ->
  region M p (4 + Z.of_nat (List.length d)) = read_reply d ->
  check_CIP_ReadData_Response M p (4 + Z.of_nat (List.length d))
  = Some (p + 4, Z.of_nat (List.length d)) /\
  region M (p + 4) (Z.of_nat (List.length d)) = d.
Proof.
  intros Hp Hlen HM Hreg.
  assert (Hsame : write_at M p (read_reply d) = M).
  { rewrite <- Hreg. apply write_at_region; lia. }
  pose proof (read_reply_length d) as Hrl.
  destruct (check_CIP_ReadData_Response_image M p (Z.lor S_CIP_ReadData 0x80)
              0 [] d)
    as (Hcheck & Hdata); try assumption; try lia.
  { fold (read_reply d). lia. }
  { simpl. lia. }
  fold (read_reply d) in Hcheck, Hdata. rewrite Hsame in Hcheck, Hdata.
  rewrite Hrl in Hcheck. cbn [List.length] in Hcheck, Hdata.
  replace (p + 4 + 2 * Z.of_nat 0) with (p + 4) in Hcheck, Hdata by lia.
  split; [exact Hcheck|exact Hdata].
Qed.

Section Transfer.

Variables (m : list Z) (response : Z) (replies : list (list Z)).

Let M := write_at m response (multi_reply replies).
Let size := Z.of_nat (List.length (multi_reply replies)).

Hypothesis Hresponse : 0 <= response.
Hypothesis Hroom : response + size <= Z.of_nat (List.length m).
Hypothesis Hm : Z.of_nat (List.length m) < 2 ^ 32.
Hypothesis Hfit :
  offset_of (reply_sizes replies) (List.length replies) <= 0xFFFF.

Lemma transfer_count : Z.of_nat (List.length replies) < 2 ^ 15.
Proof.
  unfold offset_of in Hfit.
  pose proof (sum_sizes_nonneg _
                (Forall_take _ (List.length replies) _
                   (reply_sizes_nonneg replies))) as Hs.
  assert (Hl : List.length (reply_sizes replies) = List.length replies)
    by (unfold reply_sizes; rewrite !length_map; reflexivity).
  rewrite Hl in Hfit. change (2 ^ 15) with 32768. lia.
Qed.

(** The reply number [k] as the loop finds it. *)
Lemma transfer_reply (k : nat) (r : list Z) :
  replies !! k = Some r -> r <> [] ->
  exists mem,
    get_CIP_MultiRequest_Response M response size (Z.of_nat k)
    = Some (mem, Z.of_nat (List.length r)) /\
    region M mem (Z.of_nat (List.length r)) = r /\
    0 <= mem /\
    mem + Z.of_nat (List.length r) <= Z.of_nat (List.length M) /\
    Z.of_nat (List.length M) < 2 ^ 32.
Proof.
  intros Hrk Hr.
  assert (HM : List.length M = List.length m)
    by (apply write_at_length; fold size; lia).
  destruct (multi_response_reply m response 0 replies Hresponse Hroom Hfit
              k _ Hrk) as [Hitem Hregion].
  exists (response + 4 + offset_of (reply_sizes replies) k).
  split; [exact Hitem|]. split; [exact Hregion|].
  split; [|split; [|rewrite HM; exact Hm]].
  - pose proof (offset_of_range (reply_sizes replies) k
                  (reply_sizes_nonneg replies)) as Ho.
    assert (Hl : List.length (reply_sizes replies) = List.length replies)
      by (unfold reply_sizes; apply length_map).
    rewrite Hl in Ho. specialize (Ho Hfit). lia.
  - pose proof (f_equal (@List.length Z) Hregion) as Hl.
    unfold region in Hl. rewrite length_take, length_drop in Hl.
    rewrite HM. unfold M, multi_reply in HM. rewrite HM in Hl.
    destruct r; [contradiction Hr; reflexivity|].
    simpl in Hl |- *. lia.
Qed.

(** One turn of the loop for a tag that is ready for its data. *)
Lemma responses_loop_step t infos d allocs (k : nat) data_size :
  replies !! k = Some (read_reply d) ->
  ready_for t d (hd None allocs) ->
  exists t',
    stored t t' d /\
    responses_loop M response size (t :: infos) allocs (Z.of_nat k)
      (Z.of_nat (List.length replies)) data_size
    = keep t' (responses_loop M response size infos (tl allocs)
                 (Z.of_nat (S k)) (Z.of_nat (List.length replies))
                 (Z.of_nat (List.length d))).
Proof.
  intros Hrk (Hsz & Hlock & Hiw & Hdw & Hwf & Hd & Hdl & Halloc & Hsome).
  pose proof transfer_count as Hcount.
  pose proof (lookup_lt_Some _ _ _ Hrk) as Hlt.
  destruct (transfer_reply k _ Hrk) as (mem & Hitem & Hregion & Hmem & Hin & HM).
  { unfold read_reply, mr_response_image. discriminate. }
  pose proof (read_reply_length d) as Hrl.
  rewrite Hrl in Hitem, Hregion, Hin.
  destruct (check_read_reply M mem d) as [Hcheck Hdata];
    try assumption; try lia.
  destruct (response_item_copies t false
              (region M (mem + 4) (Z.of_nat (List.length d)))
              (Z.of_nat (List.length d)) (hd None allocs))
    as (t' & Hitem' & Hwf' & Hws & Hv & Htake); try assumption.
  { rewrite Hdata. reflexivity. }
  { destruct d; [contradiction Hd; reflexivity|]. simpl. lia. }
  exists t'. split.
  - unfold stored. rewrite Hdata in Htake. rewrite Nat2Z.id in Htake.
    split; [exact Hv|]. split; [exact Htake|].
    split; [exact Hwf'|exact Hws].
  - cbn [responses_loop].
    replace (Z.of_nat k <? Z.of_nat (List.length replies)) with true by lia.
    cbn [negb].
    replace (cip_r_request_size t <=? 0) with false by lia.
    rewrite Hitem, Hlock. cbn [semTake]. rewrite Hiw, Hcheck, Hitem'.
    rewrite size_t_wrap_small
      by (change (2 ^ 15) with 32768 in Hcount;
          change (2 ^ 32) with 4294967296; lia).
    replace (Z.of_nat k + 1) with (Z.of_nat (S k)) by lia.
    reflexivity.
Qed.

Lemma responses_loop_from infos rest allocs :
  transfer_ready infos rest allocs ->
  forall (k : nat) data_size,
    drop k replies = map read_reply rest ->
    exists infos',
      responses_loop M response size infos allocs (Z.of_nat k)
        (Z.of_nat (List.length replies)) data_size = done infos' /\
      replies_stored infos rest infos'.
Proof.
  induction 1 as [infos allocs
                 |t infos rest allocs Hsz _ IH
                 |t infos d rest allocs Hready _ IH];
    intros k data_size Hdrop.
  - exists infos. split; [|constructor].
    assert (List.length replies <= k)%nat.
    { destruct (decide (List.length replies <= k)%nat) as [H|H]; [exact H|].
      pose proof (length_drop replies k) as Hl. rewrite Hdrop in Hl.
      simpl in Hl. lia. }
    destruct infos; cbn [responses_loop];
      replace (Z.of_nat k <? Z.of_nat (List.length replies)) with false by lia;
      reflexivity.
  - destruct (Z.ltb_spec (Z.of_nat k) (Z.of_nat (List.length replies)))
      as [Hk|Hk].
    + destruct (IH k data_size Hdrop) as (infos' & Hloop & Hstored).
      exists (t :: infos'). split; [|constructor; assumption].
      cbn [responses_loop].
      replace (Z.of_nat k <? Z.of_nat (List.length replies)) with true by lia.
      cbn [negb]. rewrite Hsz. cbn [Z.leb Z.compare]. rewrite Hloop.
      reflexivity.
    + assert (Hrest : rest = []).
      { rewrite drop_ge in Hdrop by lia. destruct rest; [reflexivity|].
        discriminate Hdrop. }
      rewrite Hrest. exists (t :: infos). split; [|apply stored_done].
      cbn [responses_loop].
      replace (Z.of_nat k <? Z.of_nat (List.length replies)) with false by lia.
      reflexivity.
  - assert (Hk : replies !! k = Some (read_reply d)).
    { rewrite <- (Nat.add_0_r k), <- lookup_drop, Hdrop. reflexivity. }
    assert (Hnext : drop (S k) replies = map read_reply rest).
    { replace (S k) with (k + 1)%nat by lia.
      rewrite <- drop_drop, Hdrop. reflexivity. }
    destruct (responses_loop_step t infos d allocs k data_size)
      as (t' & Hstored & Hstep); try assumption.
    destruct (IH (S k) (Z.of_nat (List.length d)) Hnext)
      as (infos' & Hloop & Hrest).
    exists (t' :: infos'). split.
    + rewrite Hstep.
      match goal with
      | |- keep _ ?X = _ =>
          replace X with (done infos') by (symmetry; exact Hloop)
      end.
      reflexivity.
    + constructor; [apply Hready|assumption|assumption].
Qed.

(** A read reply that the target did not accept, behind an accepted one:
    [data] is the null pointer, [data_size] still has the size of the
    data before. *)
Lemma responses_loop_rejected t next allocs (k : nat) data_size
    service status ext data :
  replies !! k = Some (mr_response_image service status ext data) ->
  Z.of_nat (List.length ext) <= 255 ->
  (Z.land service 0x7F =? S_CIP_ReadData) && (status =? 0) = false ->
  0 < cip_r_request_size t ->
  data_lock t = sem_free -> is_writing t = false -> do_write t = false ->
  0 < data_size <= gb_size (tag_data t) ->
  responses_loop M response size (t :: next) allocs (Z.of_nat k)
    (Z.of_nat (List.length replies)) data_size
  = null_pointer.
Proof.
  intros Hrk Hext Hrej Hsz Hlock Hiw Hdw Hds.
  pose proof (lookup_lt_Some _ _ _ Hrk) as Hlt.
  destruct (transfer_reply k _ Hrk) as (mem & Hitem & Hregion & Hmem & Hin & HM).
  { unfold mr_response_image. discriminate. }
  assert (Hsame : write_at M mem (mr_response_image service status ext data) = M).
  { rewrite <- Hregion at 1. apply write_at_region; lia. }
  destruct (check_CIP_ReadData_Response_image M mem service status ext data)
    as (Hcheck & _); try assumption; try lia.
  rewrite Hsame, Hrej in Hcheck.
  cbn [responses_loop].
  replace (Z.of_nat k <? Z.of_nat (List.length replies)) with true by lia.
  cbn [negb].
  replace (cip_r_request_size t <=? 0) with false by lia.
  rewrite Hitem, Hlock. cbn [semTake]. rewrite Hiw, Hcheck, Hdw.
  cbn [negb andb].
  replace (data_size >? 0) with true by lia.
  unfold EIP_reserve_buffer.
  replace (gb_size (tag_data t) >=? data_size) with true by lia.
  reflexivity.
Qed.

End Transfer.

(** X23: the responses of one transfer.  When the response to the
    CIP_MultiRequest holds one accepted read reply for every tag of the
    transfer, and these tags are at rest with their locks free and
    buffers that can take the data, the loop runs to its end: every tag
    of the transfer has the data of its own reply at the front of its
    buffer and its size as [valid_data_size], and the tags without read
    request size, which are not part of the transfer, are as they were. *)
Theorem responses_loop_stores (m : list Z) (response : Z)
    (ds : list (list Z)) (infos : list TagInfo) (allocs : list malloc_result)
    (data_size : Z) :
  let replies := map read_reply ds in
  let M := write_at m response (multi_reply replies) in
  let size := Z.of_nat (List.length (multi_reply replies)) in
  0 <= response -> response + size <= Z.of_nat (List.length m) ->
  Z.of_nat (List.length m) < 2 ^ 32 ->
  offset_of (reply_sizes replies) (List.length replies) <= 0xFFFF ->
  transfer_ready infos ds allocs ->
  exists infos',
    responses_loop M response size infos allocs 0
      (Z.of_nat (List.length ds)) data_size = done infos' /\
    replies_stored infos ds infos'.
Proof.
  intros replies M size Hr Hroom Hm Hfit Hready.
  destruct (responses_loop_from m response replies Hr Hroom Hm Hfit
              infos ds allocs Hready 0%nat data_size eq_refl)
    as (infos' & Hloop & Hstored).
  exists infos'. split; [|exact Hstored].
  unfold replies in Hloop. rewrite length_map in Hloop. exact Hloop.
Qed.

(** X24: a read reply that is not accepted, behind an accepted one with
    data.  [check_CIP_ReadData_Response] returns the null pointer and
    leaves [data_size] alone, which still has the size of the data of the
    tag before; when the buffer of the tag has that much room, [memcpy]
    is called with the null pointer as its source. *)
Theorem responses_loop_stale_size (m : list Z) (response : Z)
    (replies : list (list Z)) (k : nat) (d : list Z)
    (service status : Z) (ext data : list Z)
    (t1 t2 : TagInfo) (next : list TagInfo) (allocs : list malloc_result)
    (data_size : Z) :
  let M := write_at m response (multi_reply replies) in
  let size := Z.of_nat (List.length (multi_reply replies)) in
  0 <= response -> response + size <= Z.of_nat (List.length m) ->
  Z.of_nat (List.length m) < 2 ^ 32 ->
  offset_of (reply_sizes replies) (List.length replies) <= 0xFFFF ->
  replies !! k = Some (read_reply d) ->
  replies !! S k = Some (mr_response_image service status ext data) ->
  Z.of_nat (List.length ext) <= 255 ->
  (Z.land service 0x7F =? S_CIP_ReadData) && (status =? 0) = false ->
  ready_for t1 d (hd None allocs) ->
  0 < cip_r_request_size t2 ->
  data_lock t2 = sem_free -> is_writing t2 = false -> do_write t2 = false ->
  Z.of_nat (List.length d) <= gb_size (tag_data t2) ->
  responses_loop M response size (t1 :: t2 :: next) allocs (Z.of_nat k)
    (Z.of_nat (List.length replies)) data_size
  = null_pointer.
Proof.
  intros M size Hr Hroom Hm Hfit Hk HSk Hext Hrej Hready Hsz Hlock Hiw Hdw Hbuf.
  destruct (responses_loop_step m response replies Hr Hroom Hm Hfit
              t1 (t2 :: next) d allocs k data_size Hk Hready)
    as (t1' & _ & Hstep).
  fold M size in Hstep. rewrite Hstep.
  assert (Hd : 0 < Z.of_nat (List.length d)).
  { destruct Hready as (_ & _ & _ & _ & _ & Hd & _).
    destruct d; [contradiction Hd; reflexivity|]. simpl. lia. }
  pose proof (responses_loop_rejected m response replies Hr Hroom Hm Hfit
                t2 next (tl allocs) (S k) (Z.of_nat (List.length d))
                service status ext data HSk Hext Hrej Hsz Hlock Hiw Hdw
                ltac:(lia)) as Hnull.
  fold M size in Hnull.
  match goal with
  | |- keep _ ?X = _ =>
      replace X with (@null_pointer (list TagInfo)) by (symmetry; exact Hnull)
  end.
  reflexivity.
Qed.

Lemma ready_for_idle_tag d :
  d <> [] -> Z.of_nat (List.length d) < 2 ^ 32 ->
  ready_for idle_tag d (Some (replicate (List.length d) 0)).
Proof.
  intros Hd Hl. unfold ready_for, tag_data_wf, GrowBuffer_wf. cbn.
  rewrite length_replicate.
  repeat split; try lia; try congruence; assumption.
Qed.

Lemma responses_loop_stores_witness :
  let ds := [[0xC4; 0; 7; 0; 0; 0]; [0xC3; 0; 1; 0]] in
  let M := write_at (replicate 40 0) 1 (multi_reply (map read_reply ds)) in
  let unread := sample_info 0 0 0 0 sem_free 0 false false in
  exists infos',
    responses_loop M 1 28 [idle_tag; unread; idle_tag]
      [Some (replicate 6 0); None; Some (replicate 4 0)] 0 2 0
    = done infos' /\
    map valid_data_size infos' = [6; 0; 4] /\
    map (fun t => contents (tag_data t)) infos'
    = [[0xC4; 0; 7; 0; 0; 0]; []; [0xC3; 0; 1; 0]].
Proof.
  intros ds M unread.
  destruct (responses_loop_stores (replicate 40 0) 1 ds
              [idle_tag; unread; idle_tag]
              [Some (replicate 6 0); None; Some (replicate 4 0)] 0)
    as (infos' & Hloop & _).
  - lia.
  - vm_compute. congruence.
  - vm_compute. reflexivity.
  - vm_compute. congruence.
  - apply ready_read;
      [apply (ready_for_idle_tag [0xC4; 0; 7; 0; 0; 0]);
       [discriminate|simpl; lia]|].
    apply ready_skip; [reflexivity|].
    apply ready_read;
      [apply (ready_for_idle_tag [0xC3; 0; 1; 0]); [discriminate|simpl; lia]|].
    apply ready_done.
  - exists infos'. split; [exact Hloop|].
    vm_compute in Hloop. injection Hloop as <-. split; reflexivity.
Defined.

Lemma responses_loop_stale_size_witness :
  let d := [0xC4; 0; 7; 0; 0; 0] in
  let replies := [read_reply d; mr_response_image 0xCC 5 [] []] in
  let M := write_at (replicate 40 0) 1 (multi_reply replies) in
  let filled := set_tag_data idle_tag (mkGrowBuffer (Some (replicate 8 0)) 8) in
  responses_loop M 1 24 [idle_tag; filled] [Some (replicate 6 0)] 0 2 0
  = null_pointer.
Proof.
  intros d replies M filled.
  apply (responses_loop_stale_size (replicate 40 0) 1 replies 0 d 0xCC 5 [] []
           idle_tag filled [] [Some (replicate 6 0)] 0).
  - lia.
  - vm_compute. congruence.
  - vm_compute. reflexivity.
  - vm_compute. congruence.
  - reflexivity.
  - reflexivity.
  - simpl. lia.
  - reflexivity.
  - apply (ready_for_idle_tag d); [discriminate|simpl; lia].
  - reflexivity.
  - reflexivity.
  - reflexivity.
  - reflexivity.
  - vm_compute. congruence.
Defined.
